(** * flowerpot: a path-addressed content store over HTTP

    A shallow embedding of [main.go] and of the library routines it calls
    (unicode/utf8, unicode/utf16, encoding/base64, encoding/json, io, the
    badger transaction API and the part of net/http the handlers touch),
    followed by the properties of the value codec, of the path store and
    of the request handlers.  [func main], which opens the store, seeds it
    and starts the listener, is outside the embedding.

    Conventions.
    - A Go [string] is a [string] (both are plain byte sequences); a Go
      [[]byte] that can be [nil] is an [option (list byte)], [None] being
      the nil slice and [Some []] the empty non-nil one; a [[]byte] that
      is only read is a [list byte].
    - [string(b)] and [[]byte(s)] are [string_of_list_byte] and
      [list_byte_of_string].
    - A Go [error] value is an element of the enumeration [error];
      [option error] is an error result, [None] being [nil].
    - Numbers (bytes as integers, runes, lengths that are compared with
      constants) are in [N]; casts [byte(x)] truncate modulo 256. *)

From Stdlib Require Import List String Ascii NArith ZArith Lia Bool DecimalString
  Permutation.
From Stdlib.Strings Require Import Byte.
From stdpp Require Import base gmap strings.
Import ListNotations.

Local Open Scope N_scope.

(** ** Bytes *)

(** [byte(n)]: conversion of an integer to a byte, which keeps the low
    eight bits. *)
Definition u8 (n : N) : byte :=
  match Byte.of_N (N.land n 0xFF) with
  | Some b => b
  | None => x00
  end.

Definition bytes (s : string) : list byte := list_byte_of_string s.

#[global] Instance byte_eq_dec : EqDecision byte := Byte.byte_eq_dec.

#[global] Program Instance byte_countable : Countable byte :=
  inj_countable Byte.to_N Byte.of_N _.
Next Obligation. intros x. apply Byte.of_to_N. Qed.

(** ** unicode/utf8 *)

Module utf8.

Definition RuneError : N := 0xFFFD.
Definition RuneSelf : N := 0x80.
Definition MaxRune : N := 0x10FFFF.
Definition UTFMax : nat := 4.

Definition surrogateMin : N := 0xD800.
Definition surrogateMax : N := 0xDFFF.

Definition tx : N := 0x80.
Definition t2 : N := 0xC0.
Definition t3 : N := 0xE0.
Definition t4 : N := 0xF0.

Definition maskx : N := 0x3F.
Definition mask2 : N := 0x1F.
Definition mask3 : N := 0x0F.
Definition mask4 : N := 0x07.

Definition rune1Max : N := 0x7F.
Definition rune2Max : N := 0x7FF.
Definition rune3Max : N := 0xFFFF.

Definition locb : N := 0x80.
Definition hicb : N := 0xBF.

(* Information about the first byte of an encoding: the low three bits
   are the size, the high four bits index [acceptRanges]. *)
Definition xx : N := 0xF1.
Definition as_ : N := 0xF0.
Definition s1 : N := 0x02.
Definition s2 : N := 0x13.
Definition s3 : N := 0x03.
Definition s4 : N := 0x23.
Definition s5 : N := 0x34.
Definition s6 : N := 0x04.
Definition s7 : N := 0x44.

(** The table [first[256]], row by row. *)
Definition first (b : N) : N :=
  if b <? 0x80 then as_
  else if b <? 0xC2 then xx
  else if b <? 0xE0 then s1
  else if b =? 0xE0 then s2
  else if b <? 0xED then s3
  else if b =? 0xED then s4
  else if b <? 0xF0 then s3
  else if b =? 0xF0 then s5
  else if b <? 0xF4 then s6
  else if b =? 0xF4 then s7
  else xx.

(** The table [acceptRanges[16]]: the range of a valid second byte; the
    entries after the fifth are zero. *)
Definition acceptRanges (i : N) : N * N :=
  match i with
  | 0 => (locb, hicb)
  | 1 => (0xA0, hicb)
  | 2 => (locb, 0x9F)
  | 3 => (0x90, hicb)
  | 4 => (locb, 0x8F)
  | _ => (0, 0)
  end.

Definition at_ (p : list byte) (i : nat) : N := Byte.to_N (nth i p x00).

(** [DecodeRune(p)] (and [DecodeRuneInString]): the first rune of [p] and
    its width in bytes; [(RuneError, 1)] on an invalid encoding and
    [(RuneError, 0)] on empty input. *)
Definition DecodeRune (p : list byte) : N * nat :=
  let n := N.of_nat (length p) in
  if n <? 1 then (RuneError, 0%nat)
  else
    let p0 := at_ p 0 in
    let x := first p0 in
    if as_ <=? x then
      (* mask := rune(x) << 31 >> 31 is all ones exactly when x is odd,
         that is when x == xx; the result is rune(p[0])&^mask |
         RuneError&mask *)
      (if N.odd x then RuneError else p0, 1%nat)
    else
      let sz := N.land x 7 in
      let accept := acceptRanges (N.shiftr x 4) in
      if n <? sz then (RuneError, 1%nat)
      else
        let b1 := at_ p 1 in
        if (b1 <? fst accept) || (snd accept <? b1) then (RuneError, 1%nat)
        else if sz <=? 2 then
          (N.lor (N.shiftl (N.land p0 mask2) 6) (N.land b1 maskx), 2%nat)
        else
          let b2 := at_ p 2 in
          if (b2 <? locb) || (hicb <? b2) then (RuneError, 1%nat)
          else if sz <=? 3 then
            (N.lor (N.lor (N.shiftl (N.land p0 mask3) 12)
                          (N.shiftl (N.land b1 maskx) 6))
                   (N.land b2 maskx), 3%nat)
          else
            let b3 := at_ p 3 in
            if (b3 <? locb) || (hicb <? b3) then (RuneError, 1%nat)
            else
              (N.lor (N.lor (N.lor (N.shiftl (N.land p0 mask4) 18)
                                   (N.shiftl (N.land b1 maskx) 12))
                            (N.shiftl (N.land b2 maskx) 6))
                     (N.land b3 maskx), 4%nat).

(** [EncodeRune(p, r)] (and [AppendRune]): the UTF-8 encoding of [r]; runes
    out of range and surrogates are written as [RuneError]. *)
Definition encode3 (r : N) : list byte :=
  [ u8 (N.lor t3 (N.land (N.shiftr r 12) 0xFF));
    u8 (N.lor tx (N.land (N.land (N.shiftr r 6) 0xFF) maskx));
    u8 (N.lor tx (N.land (N.land r 0xFF) maskx)) ].

Definition EncodeRune (r : N) : list byte :=
  if r <=? rune1Max then [u8 r]
  else if r <=? rune2Max then
    [ u8 (N.lor t2 (N.land (N.shiftr r 6) 0xFF));
      u8 (N.lor tx (N.land (N.land r 0xFF) maskx)) ]
  else if (MaxRune <? r) || ((surrogateMin <=? r) && (r <=? surrogateMax))
  then encode3 RuneError
  else if r <=? rune3Max then encode3 r
  else
    [ u8 (N.lor t4 (N.land (N.shiftr r 18) 0xFF));
      u8 (N.lor tx (N.land (N.land (N.shiftr r 12) 0xFF) maskx));
      u8 (N.lor tx (N.land (N.land (N.shiftr r 6) 0xFF) maskx));
      u8 (N.lor tx (N.land (N.land r 0xFF) maskx)) ].

(** [Valid(p)]: [p] consists of valid UTF-8 encodings only. *)
Fixpoint Valid_loop (fuel : nat) (p : list byte) : bool :=
  match fuel, p with
  | _, [] => true
  | O, _ :: _ => false
  | S fuel, _ :: _ =>
      let '(r, size) := DecodeRune p in
      if (r =? RuneError) && (size =? 1)%nat then false
      else Valid_loop fuel (skipn size p)
  end.

Definition Valid (p : list byte) : bool := Valid_loop (length p) p.

End utf8.

(** ** unicode/utf16 *)

Module utf16.

Definition replacementChar : N := 0xFFFD.
Definition surr1 : N := 0xD800.
Definition surr2 : N := 0xDC00.
Definition surr3 : N := 0xE000.
Definition surrSelf : N := 0x10000.

Definition IsSurrogate (r : N) : bool := (surr1 <=? r) && (r <? surr3).

(** [DecodeRune(r1, r2)]: the rune of a surrogate pair, [replacementChar]
    when the pair is not valid.  [r2] is [None] where the caller passes
    the negative rune of a failed [getu4]. *)
Definition DecodeRune (r1 : N) (r2 : option N) : N :=
  match r2 with
  | Some r2 =>
      if (surr1 <=? r1) && (r1 <? surr2) && (surr2 <=? r2) && (r2 <? surr3)
      then N.lor (N.shiftl (r1 - surr1) 10) (r2 - surr2) + surrSelf
      else replacementChar
  | None => replacementChar
  end.

End utf16.

(** ** encoding/base64, the standard encoding with padding *)

Module base64.

Definition encodeStd : list byte :=
  bytes "ABCDEFGHIJKLMNOPQRSTUVWXYZabcdefghijklmnopqrstuvwxyz0123456789+/".

Definition padChar : byte := x3d. (* '=' *)

(** [enc.encode[i]] *)
Definition encode (i : N) : byte := nth (N.to_nat i) encodeStd x00.

(** [enc.decodeMap[c]]: the index of [c] in the alphabet, [None] where the
    table holds 0xff. *)
Fixpoint index_of (c : byte) (l : list byte) (i : N) : option N :=
  match l with
  | [] => None
  | x :: l => if Byte.eqb x c then Some i else index_of c l (i + 1)
  end.

Definition decodeMap (c : byte) : option N := index_of c encodeStd 0.

(** [val>>k & 0x3F] *)
Definition sextet (val k : N) : N := N.land (N.shiftr val k) 0x3F.

(** [Encode]: three source bytes to four characters; one or two remaining
    bytes are padded. *)
Fixpoint Encode (src : list byte) : list byte :=
  match src with
  | [] => []
  | [a] =>
      let val := N.shiftl (Byte.to_N a) 16 in
      [encode (sextet val 18); encode (sextet val 12); padChar; padChar]
  | [a; b] =>
      let val := N.lor (N.shiftl (Byte.to_N a) 16) (N.shiftl (Byte.to_N b) 8) in
      [encode (sextet val 18); encode (sextet val 12); encode (sextet val 6);
       padChar]
  | a :: b :: c :: rest =>
      let val := N.lor (N.lor (N.shiftl (Byte.to_N a) 16)
                              (N.shiftl (Byte.to_N b) 8)) (Byte.to_N c) in
      encode (sextet val 18) :: encode (sextet val 12)
        :: encode (sextet val 6) :: encode (sextet val 0) :: Encode rest
  end.

Definition isNewline (c : byte) : bool :=
  Byte.eqb c x0a || Byte.eqb c x0d.

(** The three bytes of a quantum: [val := d0<<18 | d1<<12 | d2<<6 | d3];
    [byte(val>>16), byte(val>>8), byte(val>>0)]. *)
Definition quantum (d0 d1 d2 d3 : N) : byte * byte * byte :=
  let val := N.lor (N.lor (N.lor (N.shiftl d0 18) (N.shiftl d1 12))
                          (N.shiftl d2 6)) d3 in
  (u8 (N.shiftr val 16), u8 (N.shiftr val 8), u8 val).

(** [decodeQuantum], quantum after quantum, on a source without newlines:
    four alphabet characters give three bytes; a final quantum may end in
    one or two padding characters; everything else is a
    [CorruptInputError] ([None]).  The encoding is not strict: the unused
    low bits of a padded quantum are not checked. *)
Fixpoint decode_quanta (src : list byte) : option (list byte) :=
  match src with
  | [] => Some []
  | c0 :: c1 :: c2 :: c3 :: rest =>
      match decodeMap c0, decodeMap c1 with
      | Some d0, Some d1 =>
          match decodeMap c2 with
          | Some d2 =>
              match decodeMap c3 with
              | Some d3 =>
                  let '(o0, o1, o2) := quantum d0 d1 d2 d3 in
                  match decode_quanta rest with
                  | Some out => Some (o0 :: o1 :: o2 :: out)
                  | None => None
                  end
              | None =>
                  if Byte.eqb c3 padChar then
                    match rest with
                    | [] => let '(o0, o1, _) := quantum d0 d1 d2 0 in
                            Some [o0; o1]
                    | _ :: _ => None
                    end
                  else None
              end
          | None =>
              if Byte.eqb c2 padChar && Byte.eqb c3 padChar then
                match rest with
                | [] => let '(o0, _, _) := quantum d0 d1 0 0 in Some [o0]
                | _ :: _ => None
                end
              else None
          end
      | _, _ => None
      end
  | _ => None
  end.

(** [Decode]: carriage returns and line feeds are skipped wherever they
    stand. *)
Definition Decode (src : list byte) : option (list byte) :=
  decode_quanta (List.filter (fun c => negb (isNewline c)) src).

End base64.

(** ** Errors

    The error values that reach [main.go]: badger's sentinel errors and
    size errors, and the errors of encoding/json, encoding/base64 and io. *)

Inductive error : Type :=
| ErrKeyNotFound        (* badger.ErrKeyNotFound *)
| ErrEmptyKey           (* badger.ErrEmptyKey *)
| ErrInvalidKey         (* badger.ErrInvalidKey *)
| ErrExceedsSize        (* badger: key or value with size ... exceeded ... limit *)
| ErrReadOnlyTxn        (* badger.ErrReadOnlyTxn *)
| SyntaxError           (* *json.SyntaxError *)
| UnmarshalTypeError    (* *json.UnmarshalTypeError *)
| CorruptInputError     (* base64.CorruptInputError *)
| ErrEOF                (* io.EOF *)
| ErrUnexpectedEOF.     (* io.ErrUnexpectedEOF *)

#[global] Instance error_eq_dec : EqDecision error.
Proof. solve_decision. Defined.

(** ** io, the readers the handlers read

    An [io.Reader] as the code that reads it to its end sees it: the
    bytes it delivers, and the error that ends them.  A body that arrives
    in full ends with [io.EOF]; a body that is cut short, or that the
    server refuses to read on, ends with another error. *)

Module io.

Record Reader : Type := {
  delivered : list byte;
  ended : option error;   (* None: io.EOF *)
}.

(** [bytes.NewReader(b)]: a reader that delivers [b] and ends. *)
Definition NewReader (b : list byte) : Reader :=
  {| delivered := b; ended := None |}.

(** The error that a consumer of the whole reader meets; [io.EOF] is the
    regular end and no error. *)
Definition readError (r : Reader) : option error :=
  match ended r with
  | Some ErrEOF => None
  | e => e
  end.

(** [io.ReadAll(r)]: the bytes read, in a slice that is not nil, and the
    error that stopped the reading, [nil] at [io.EOF]. *)
Definition ReadAll (r : Reader) : list byte * option error :=
  (delivered r, readError r).

End io.

(** ** encoding/json, the part that does not depend on the Go type *)

Module json.

Definition hex (i : N) : byte := nth (N.to_nat i) (bytes "0123456789abcdef") x00.

(** [htmlSafeSet[b]], for [b < utf8.RuneSelf]: the printable ASCII
    characters (0x7f included) other than the double quote, the
    backslash, and the [&], [<], [>] of HTML. *)
Definition htmlSafeSet (b : N) : bool :=
  (0x20 <=? b) && (b <? 0x80)
  && negb ((b =? 0x22) || (b =? 0x26) || (b =? 0x3C) || (b =? 0x3E) || (b =? 0x5C)).

(** The escape that [appendString] writes for an ASCII byte outside
    [htmlSafeSet] (as of Go 1.22; earlier versions write the backspace and
    the form feed as [\u0008] and [\u000c], which the reader unquotes to
    the same bytes). *)
Definition escape (b : byte) : list byte :=
  let c := Byte.to_N b in
  if (c =? 0x5C) || (c =? 0x22) then [x5c; b]
  else if c =? 0x08 then bytes "\b"
  else if c =? 0x0C then bytes "\f"
  else if c =? 0x0A then bytes "\n"
  else if c =? 0x0D then bytes "\r"
  else if c =? 0x09 then bytes "\t"
  else bytes "\u00" ++ [hex (N.shiftr c 4); hex (N.land c 0xF)].

(** The loop of [appendString(dst, src, escapeHTML)] with [escapeHTML]
    set, character by character; [fuel] bounds the iterations and is the
    length of [src] at the call. *)
Fixpoint appendString_loop (fuel : nat) (src : list byte) : list byte :=
  match fuel, src with
  | _, [] => []
  | O, _ :: _ => []
  | S fuel, b :: tl =>
      if Byte.to_N b <? utf8.RuneSelf then
        if htmlSafeSet (Byte.to_N b) then b :: appendString_loop fuel tl
        else escape b ++ appendString_loop fuel tl
      else
        let '(c, size) := utf8.DecodeRune (firstn utf8.UTFMax src) in
        if (c =? utf8.RuneError) && (size =? 1)%nat then
          bytes "\ufffd" ++ appendString_loop fuel (skipn size src)
        else if (c =? 0x2028) || (c =? 0x2029) then
          bytes "\u202" ++ [hex (N.land c 0xF)]
            ++ appendString_loop fuel (skipn size src)
        else firstn size src ++ appendString_loop fuel (skipn size src)
  end.

Definition appendString (src : list byte) : list byte :=
  x22 :: appendString_loop (length src) src ++ [x22].

(** [encodeByteSlice] on a slice that is not nil: the base64 text in
    quotes. *)
Definition encodeByteSlice (s : list byte) : list byte :=
  x22 :: base64.Encode s ++ [x22].

(** *** Reading *)

#[local] Set Warnings "-register-all".

(** A JSON value as the scanner delimits it; a number keeps its literal
    text, strings and keys are unquoted. *)
Inductive value : Type :=
| Null
| Bool (b : bool)
| Number (lit : list byte)
| Str (s : list byte)
| Array (elems : list value)
| Object (members : list (list byte * value)).

Definition isSpace (c : byte) : bool :=
  Byte.eqb c x20 || Byte.eqb c x09 || Byte.eqb c x0d || Byte.eqb c x0a.

Fixpoint skipSpace (s : list byte) : list byte :=
  match s with
  | c :: tl => if isSpace c then skipSpace tl else s
  | [] => []
  end.

Definition hexDigit (c : byte) : option N :=
  let n := Byte.to_N c in
  if (0x30 <=? n) && (n <=? 0x39) then Some (n - 0x30)
  else if (0x61 <=? n) && (n <=? 0x66) then Some (n - 0x61 + 10)
  else if (0x41 <=? n) && (n <=? 0x46) then Some (n - 0x41 + 10)
  else None.

(** [getu4(s)]: the rune of a leading [\uXXXX], [None] for Go's -1. *)
Definition getu4 (s : list byte) : option N :=
  match s with
  | b0 :: b1 :: h0 :: h1 :: h2 :: h3 :: _ =>
      if Byte.eqb b0 x5c && Byte.eqb b1 x75 then
        match hexDigit h0, hexDigit h1, hexDigit h2, hexDigit h3 with
        | Some d0, Some d1, Some d2, Some d3 =>
            Some (((d0 * 16 + d1) * 16 + d2) * 16 + d3)
        | _, _, _, _ => None
        end
      else None
  | _ => None
  end.

(** The character of a one-letter escape. *)
Definition unescape (c : byte) : option byte :=
  if Byte.eqb c x22 then Some x22           (* quote *)
  else if Byte.eqb c x5c then Some x5c      (* backslash *)
  else if Byte.eqb c x2f then Some x2f      (* slash *)
  else if Byte.eqb c x62 then Some x08      (* b: backspace *)
  else if Byte.eqb c x66 then Some x0c      (* f: form feed *)
  else if Byte.eqb c x6e then Some x0a      (* n: line feed *)
  else if Byte.eqb c x72 then Some x0d      (* r: carriage return *)
  else if Byte.eqb c x74 then Some x09      (* t: tab *)
  else None.

Definition emit (out : list byte) (r : option (list byte * list byte))
  : option (list byte * list byte) :=
  match r with
  | Some (t, rest) => Some (out ++ t, rest)
  | None => None
  end.

(** A string literal after its opening quote: the scanner's
    [stateInString] states and [unquoteBytes] in one pass.  The result is
    the unquoted text and the input after the closing quote; [None] is a
    syntax error (a control character, a bad escape, no closing quote).
    Bytes that are not valid UTF-8 and lone surrogate escapes become
    U+FFFD. *)
Fixpoint unquote_loop (fuel : nat) (s : list byte)
  : option (list byte * list byte) :=
  match fuel, s with
  | _, [] => None
  | O, _ :: _ => None
  | S fuel, c :: tl =>
      if Byte.eqb c x5c then
        match tl with
        | [] => None
        | e :: tl2 =>
            match unescape e with
            | Some b => emit [b] (unquote_loop fuel tl2)
            | None =>
                if Byte.eqb e x75 then
                  match getu4 s with
                  | None => None
                  | Some rr =>
                      let s6 := skipn 6 s in
                      if utf16.IsSurrogate rr then
                        let dec := utf16.DecodeRune rr (getu4 s6) in
                        if negb (dec =? utf16.replacementChar) then
                          emit (utf8.EncodeRune dec)
                               (unquote_loop fuel (skipn 6 s6))
                        else
                          emit (utf8.EncodeRune utf16.replacementChar)
                               (unquote_loop fuel s6)
                      else emit (utf8.EncodeRune rr) (unquote_loop fuel s6)
                  end
                else None
            end
        end
      else if Byte.eqb c x22 then Some ([], tl)
      else if Byte.to_N c <? 0x20 then None
      else if Byte.to_N c <? utf8.RuneSelf then emit [c] (unquote_loop fuel tl)
      else
        let '(rr, size) := utf8.DecodeRune s in
        emit (utf8.EncodeRune rr) (unquote_loop fuel (skipn size s))
  end.

Definition unquote (s : list byte) : option (list byte * list byte) :=
  unquote_loop (length s) s.

Definition isDigit (c : byte) : bool :=
  (0x30 <=? Byte.to_N c) && (Byte.to_N c <=? 0x39).

Fixpoint digits (s : list byte) : list byte * list byte :=
  match s with
  | c :: tl =>
      if isDigit c then let '(ds, rest) := digits tl in (c :: ds, rest)
      else ([], s)
  | [] => ([], [])
  end.

(** The scanner's number states: an optional minus sign, an integer part
    without a leading zero, an optional fraction, an optional exponent.
    The result is the literal and the input after it. *)
Definition scanNumber (s : list byte) : option (list byte * list byte) :=
  let '(sign, s) :=
    match s with
    | c :: tl => if Byte.eqb c x2d then ([c], tl) else ([], s)
    | [] => ([], [])
    end in
  let int :=
    match s with
    | c :: tl =>
        if Byte.eqb c x30 then Some ([c], tl)
        else if isDigit c then let '(ds, r) := digits tl in Some (c :: ds, r)
        else None
    | [] => None
    end in
  match int with
  | None => None
  | Some (ip, s) =>
      let frac :=
        match s with
        | c :: tl =>
            if Byte.eqb c x2e then
              match digits tl with
              | ([], _) => None
              | (ds, r) => Some (c :: ds, r)
              end
            else Some ([], s)
        | [] => Some ([], [])
        end in
      match frac with
      | None => None
      | Some (fp, s) =>
          let exp :=
            match s with
            | c :: tl =>
                if Byte.eqb c x65 || Byte.eqb c x45 then
                  let '(sg, tl) :=
                    match tl with
                    | d :: tl' =>
                        if Byte.eqb d x2b || Byte.eqb d x2d then ([d], tl')
                        else ([], tl)
                    | [] => ([], [])
                    end in
                  match digits tl with
                  | ([], _) => None
                  | (ds, r) => Some (c :: sg ++ ds, r)
                  end
                else Some ([], s)
            | [] => Some ([], [])
            end in
          match exp with
          | None => None
          | Some (ep, s) => Some (sign ++ ip ++ fp ++ ep, s)
          end
      end
  end.

(** [s] after the prefix [lit], if it starts with it. *)
Fixpoint stripPrefix (lit s : list byte) : option (list byte) :=
  match lit, s with
  | [], _ => Some s
  | a :: lit, b :: s => if Byte.eqb a b then stripPrefix lit s else None
  | _ :: _, [] => None
  end.

Definition scanLiteral (s : list byte) : option (value * list byte) :=
  match stripPrefix (bytes "true") s with
  | Some r => Some (Bool true, r)
  | None =>
      match stripPrefix (bytes "false") s with
      | Some r => Some (Bool false, r)
      | None =>
          match stripPrefix (bytes "null") s with
          | Some r => Some (Null, r)
          | None => None
          end
      end
  end.

(** The scanner refuses to open a container inside [maxNestingDepth] open
    ones. *)
Definition maxNestingDepth : N := 10000.

(** Calls that the scan of [data] may nest. *)
Definition fuelFor (data : list byte) : nat := S (S (2 * length data)).

(** One JSON value at the head of [s], after optional white space: the
    value and the input after it; [None] is a syntax error.  [depth] is
    the number of containers that are open ([len(s.parseState)]).  [fuel]
    bounds the nesting of the calls; of two calls nested in one another
    at least one reads a byte first, so [fuelFor] the input is never used
    up ([parseValue_fuel]). *)
Fixpoint parseValue (fuel : nat) (depth : N) (s : list byte) {struct fuel}
  : option (value * list byte) :=
  match fuel with
  | O => None
  | S fuel =>
      match skipSpace s with
      | [] => None
      | c :: tl =>
          if Byte.eqb c x7b then                      (* begin object *)
            if maxNestingDepth <=? depth then None
            else
              match skipSpace tl with
              | [] => None
              | c' :: tl' =>
                  if Byte.eqb c' x7d then Some (Object [], tl')
                  else
                    match parseMembers fuel (depth + 1) tl with
                    | Some (ms, r) => Some (Object ms, r)
                    | None => None
                    end
              end
          else if Byte.eqb c x5b then                 (* begin array *)
            if maxNestingDepth <=? depth then None
            else
              match skipSpace tl with
              | [] => None
              | c' :: tl' =>
                  if Byte.eqb c' x5d then Some (Array [], tl')
                  else
                    match parseElements fuel (depth + 1) tl with
                    | Some (es, r) => Some (Array es, r)
                    | None => None
                    end
              end
          else if Byte.eqb c x22 then                 (* string *)
            match unquote tl with
            | Some (t, r) => Some (Str t, r)
            | None => None
            end
          else if Byte.eqb c x2d || isDigit c then    (* number *)
            match scanNumber (c :: tl) with
            | Some (lit, r) => Some (Number lit, r)
            | None => None
            end
          else scanLiteral (c :: tl)
      end
  end

(** The members of an object after its opening brace, up to and including
    the closing brace. *)
with parseMembers (fuel : nat) (depth : N) (s : list byte) {struct fuel}
  : option (list (list byte * value) * list byte) :=
  match fuel with
  | O => None
  | S fuel =>
      match skipSpace s with
      | [] => None
      | q :: tl =>
          if Byte.eqb q x22 then
            match unquote tl with
            | None => None
            | Some (key, r1) =>
                match skipSpace r1 with
                | [] => None
                | colon :: r2 =>
                    if Byte.eqb colon x3a then
                      match parseValue fuel depth r2 with
                      | None => None
                      | Some (v, r3) =>
                          match skipSpace r3 with
                          | [] => None
                          | sep :: r4 =>
                              if Byte.eqb sep x2c then
                                match parseMembers fuel depth r4 with
                                | Some (ms, r5) => Some ((key, v) :: ms, r5)
                                | None => None
                                end
                              else if Byte.eqb sep x7d then
                                Some ([(key, v)], r4)
                              else None
                          end
                      end
                    else None
                end
            end
          else None
      end
  end

(** The elements of an array after its opening bracket, up to and
    including the closing bracket. *)
with parseElements (fuel : nat) (depth : N) (s : list byte) {struct fuel}
  : option (list value * list byte) :=
  match fuel with
  | O => None
  | S fuel =>
      match parseValue fuel depth s with
      | None => None
      | Some (v, r1) =>
          match skipSpace r1 with
          | [] => None
          | sep :: r2 =>
              if Byte.eqb sep x2c then
                match parseElements fuel depth r2 with
                | Some (es, r3) => Some (v :: es, r3)
                | None => None
                end
              else if Byte.eqb sep x5d then Some ([v], r2)
              else None
          end
      end
  end.

(** [checkValid(data)] and the scan that [Unmarshal] builds on: [data] is
    one JSON value between optional white space. *)
Definition scanDocument (data : list byte) : option value :=
  match parseValue (fuelFor data) 0 data with
  | Some (v, rest) =>
      match skipSpace rest with
      | [] => Some v
      | _ :: _ => None
      end
  | None => None
  end.

(** [Decoder.readValue]: the first JSON value of the stream.  An object
    or an array is complete at its closing bracket.  Any other value is
    complete at the first byte that does not continue it, whatever that
    byte is (the decoder leaves it in its buffer, and [Decode] does not
    look at it), and at the end of a stream that ends with [io.EOF]; a
    stream that fails at that point gives its error.  A stream of white
    space only gives [io.EOF], or the error that ends it.  A stream that
    does not begin with a complete value is reported as a [SyntaxError]
    (Go reports [io.ErrUnexpectedEOF], or the error of the reader, when
    the stream ends inside a value that is well formed so far; no caller
    here tells these apart). *)
Definition readValue (r : io.Reader) : value + error :=
  let data := io.delivered r in
  match skipSpace data with
  | [] =>
      match io.readError r with
      | Some e => inr e
      | None => inr ErrEOF
      end
  | _ :: _ =>
      match parseValue (fuelFor data) 0 data with
      | Some (Object ms, _) => inl (Object ms)
      | Some (Array es, _) => inl (Array es)
      | Some (v, _ :: _) => inl v
      | Some (v, []) =>
          match io.readError r with
          | Some e => inr e
          | None => inl v
          end
      | None => inr SyntaxError
      end
  end.

(** *** Storing a value in a Go variable *)

(** [d.saveError]: the first error is kept. *)
Definition saveError (saved : option error) (e : error) : option error :=
  match saved with
  | Some e0 => Some e0
  | None => Some e
  end.

(** [literalStore] and the container cases of [d.value] for a variable of
    kind [string]: a JSON string is assigned, [null] leaves the variable
    as it is, every other value is an [UnmarshalTypeError]. *)
Definition storeString (v : value) (old : string) (saved : option error)
  : string * option error :=
  match v with
  | Str s => (string_of_list_byte s, saved)
  | Null => (old, saved)
  | _ => (old, saveError saved UnmarshalTypeError)
  end.

(** [strconv.ParseUint(lit, 10, 8)] on a JSON number literal: decimal
    digits only, at most 255. *)
Fixpoint parseDecimal (acc : N) (s : list byte) : option N :=
  match s with
  | [] => Some acc
  | c :: tl =>
      if isDigit c then parseDecimal (acc * 10 + (Byte.to_N c - 0x30)) tl
      else None
  end.

Definition parseUint8 (lit : list byte) : option byte :=
  match lit with
  | [] => None
  | _ :: _ =>
      match parseDecimal 0 lit with
      | Some n => if n <=? 255 then Some (u8 n) else None
      | None => None
      end
  end.

(** The elements of a JSON array stored in a [[]byte]: element [i] is
    decoded into [v.Index(i)].  A number that fits is assigned; [null]
    leaves the element as it is, and so does a value of another kind, which
    is an [UnmarshalTypeError].  An element beyond the old length starts as
    zero (the capacity of the old slice beyond its length is not
    modelled). *)
Fixpoint storeByteElems (elems : list value) (old : list byte)
    (saved : option error) : list byte * option error :=
  match elems with
  | [] => ([], saved)
  | e :: elems =>
      let cur := hd x00 old in
      let '(b, saved) :=
        match e with
        | Number lit =>
            match parseUint8 lit with
            | Some b => (b, saved)
            | None => (cur, saveError saved UnmarshalTypeError)
            end
        | Null => (cur, saved)
        | _ => (cur, saveError saved UnmarshalTypeError)
        end in
      let '(bs, saved) := storeByteElems elems (tl old) saved in
      (b :: bs, saved)
  end.

(** A variable of type [[]byte]: a JSON string is base64 text, whose
    decoding is assigned (a slice that is not nil, also when it is empty);
    [null] sets the variable to nil; an array is stored element by element
    (the empty array gives the empty slice that is not nil); every other
    value is an [UnmarshalTypeError]. *)
Definition storeBytes (v : value) (old : option (list byte))
    (saved : option error) : option (list byte) * option error :=
  match v with
  | Str s =>
      match base64.Decode s with
      | Some b => (Some b, saved)
      | None => (old, saveError saved CorruptInputError)
      end
  | Null => (None, saved)
  | Array elems =>
      let '(bs, saved) :=
        storeByteElems elems (match old with Some o => o | None => [] end) saved in
      (Some bs, saved)
  | _ => (old, saveError saved UnmarshalTypeError)
  end.

(** [foldName] on a key: ASCII letters to upper case.  Go also folds the
    other runes ([unicode.SimpleFold]); the only ones that fold to ASCII
    letters are U+212A (to K) and U+017F (to S), so for a field name
    without k and s, as all the names below, a key matches the name exactly
    when the two are equal after ASCII folding. *)
Definition foldByte (c : byte) : byte :=
  let n := Byte.to_N c in
  if (0x61 <=? n) && (n <=? 0x7A) then u8 (n - 0x20) else c.

Definition foldName (key : list byte) : list byte := map foldByte key.

Definition equalFold (key : list byte) (name : string) : bool :=
  bool_decide (foldName key = foldName (bytes name)).

(** *** Writing a struct *)

(** A field as the struct encoder sees it: its JSON name, the [omitempty]
    option, whether the value is empty ([isEmptyValue]), and the encoding
    of the value. *)
Record fieldEnc : Type := {
  fname : string;
  omitEmpty : bool;
  isEmptyValue : bool;
  encoded : list byte;
}.

(** The field loop of [structEncoder.encode]: [next] is the opening brace
    before the first field that is written and a comma after it. *)
Fixpoint encodeFields (next : byte) (fs : list fieldEnc) : list byte * byte :=
  match fs with
  | [] => ([], next)
  | f :: fs =>
      if omitEmpty f && isEmptyValue f then encodeFields next fs
      else
        let '(out, last) := encodeFields x2c fs in
        (next :: appendString (bytes (fname f)) ++ x3a :: encoded f ++ out,
         last)
  end.

Definition structEncode (fs : list fieldEnc) : list byte :=
  let '(out, next) := encodeFields x7b fs in
  if Byte.eqb next x7b then bytes "{}" else out ++ [x7d].

End json.

(** ** badger, the transaction API

    The store is a finite map from keys to values.  A transaction reads
    the store as it was when the transaction began and collects its writes,
    which [Update] applies together when the callback returns no error.
    The checks of [Txn.modify] and [Txn.Get] on the key and on the value
    are those of badger v4 with [DefaultOptions] (no banned name spaces);
    failures of the file system are not modelled. *)

Module badger.

Abbreviation DB := (gmap (list byte) (list byte)).

Record Txn : Type := {
  txn_db : DB;
  pendingWrites : gmap (list byte) (option (list byte)); (* None: a delete *)
  update : bool;
}.

Definition badgerPrefix : list byte := bytes "!badger!".
Definition maxKeySize : N := 65000.
Definition ValueLogFileSize : N := N.shiftl 1 30 - 1.

Definition len {A} (l : list A) : N := N.of_nat (length l).

Fixpoint HasPrefix (s prefix : list byte) : bool :=
  match prefix, s with
  | [], _ => true
  | p :: prefix, c :: s => Byte.eqb c p && HasPrefix s prefix
  | _ :: _, [] => false
  end.

Definition NewTransaction (db : DB) (update : bool) : Txn :=
  {| txn_db := db; pendingWrites := ∅; update := update |}.

(** [txn.modify(e)]: the entry is checked and added to the pending
    writes. *)
Definition modify (key : list byte) (val : option (list byte)) (txn : Txn)
  : Txn * option error :=
  if negb (update txn) then (txn, Some ErrReadOnlyTxn)
  else if len key =? 0 then (txn, Some ErrEmptyKey)
  else if HasPrefix key badgerPrefix then (txn, Some ErrInvalidKey)
  else if maxKeySize <? len key then (txn, Some ErrExceedsSize)
  else if ValueLogFileSize <? len (default [] val) then (txn, Some ErrExceedsSize)
  else ({| txn_db := txn_db txn;
           pendingWrites := <[key := val]> (pendingWrites txn);
           update := update txn |}, None).

Definition Set_ (key val : list byte) (txn : Txn) : Txn * option error :=
  modify key (Some val) txn.

Definition Delete (key : list byte) (txn : Txn) : Txn * option error :=
  modify key None txn.

(** [txn.Get(key)]: the item, or [ErrKeyNotFound].  An update transaction
    sees its own pending writes. *)
Definition Get (key : list byte) (txn : Txn) : option (list byte) * option error :=
  if len key =? 0 then (None, Some ErrEmptyKey)
  else
    let stored :=
      match txn_db txn !! key with
      | Some v => (Some v, None)
      | None => (None, Some ErrKeyNotFound)
      end in
    if update txn then
      match pendingWrites txn !! key with
      | Some (Some v) => (Some v, None)
      | Some None => (None, Some ErrKeyNotFound)
      | None => stored
      end
    else stored.

(** [item.Value(fn)] calls [fn] with the value of the item. *)
Definition Value {A} (item : list byte) (fn : list byte → A) : A := fn item.

(** [txn.Commit()]: the pending writes are applied to the store. *)
Definition apply_write (key : list byte) (w : option (list byte)) (db : DB) : DB :=
  match w with
  | Some v => <[key := v]> db
  | None => delete key db
  end.

Definition Commit (txn : Txn) : DB :=
  map_fold apply_write (txn_db txn) (pendingWrites txn).

(** [db.Update(fn)]: [fn] runs in a read-write transaction, which is
    committed when [fn] returns nil and discarded otherwise. *)
Definition Update (fn : Txn → Txn * option error) (db : DB) : DB * option error :=
  let txn := NewTransaction db true in
  match fn txn with
  | (_, Some err) => (db, Some err)
  | (txn, None) => (Commit txn, None)
  end.

(** [db.View(fn)]: [fn] runs in a read-only transaction, which is
    discarded when [fn] returns.  The callback returns, next to its error,
    the variables it has captured and assigned. *)
Definition View {A} (fn : Txn → A * option error) (db : DB)
  : DB * (A * option error) :=
  (db, fn (NewTransaction db false)).

End badger.

(** ** net/http, as far as the handlers use it *)

Module http.

Abbreviation Header := (gmap string (list string)).

(** [h.Get(key)] for a key in canonical form: the first value, or the
    empty string. *)
Definition Get (h : Header) (key : string) : string :=
  match h !! key with
  | Some (v :: _) => v
  | _ => ""%string
  end.

Definition Set_ (h : Header) (key value : string) : Header :=
  <[key := [value]]> h.

(** A request: the method, the variables the router has extracted from the
    URL, the header, and the body, which is a reader. *)
Record Request : Type := {
  Method : string;
  Vars : gmap string string;
  ReqHeader : Header;
  Body : io.Reader;
}.

(** What a handler has written to its [ResponseWriter]: the header map,
    the status code once the header is written, and the body. *)
Record ResponseWriter : Type := {
  RespHeader : Header;
  Code : option N;
  Written : list byte;
}.

Definition NewRecorder : ResponseWriter :=
  {| RespHeader := ∅; Code := None; Written := [] |}.

Definition StatusOK : N := 200.
Definition StatusBadRequest : N := 400.
Definition StatusNotFound : N := 404.
Definition StatusMethodNotAllowed : N := 405.
Definition StatusInternalServerError : N := 500.

Definition SetHeader (key value : string) (w : ResponseWriter) : ResponseWriter :=
  {| RespHeader := Set_ (RespHeader w) key value;
     Code := Code w; Written := Written w |}.

(** [w.WriteHeader(code)]: the first call fixes the status. *)
Definition WriteHeader (code : N) (w : ResponseWriter) : ResponseWriter :=
  {| RespHeader := RespHeader w;
     Code := match Code w with Some c => Some c | None => Some code end;
     Written := Written w |}.

(** [w.Write(b)]: writes the header with [StatusOK] if it is not written
    yet, then the bytes. *)
Definition Write (b : list byte) (w : ResponseWriter) : ResponseWriter :=
  let w := WriteHeader StatusOK w in
  {| RespHeader := RespHeader w; Code := Code w; Written := Written w ++ b |}.

(** [http.Error(w, error, code)] *)
Definition Error (msg : string) (code : N) (w : ResponseWriter) : ResponseWriter :=
  let w := SetHeader "Content-Type" "text/plain; charset=utf-8" w in
  let w := SetHeader "X-Content-Type-Options" "nosniff" w in
  let w := WriteHeader code w in
  Write (bytes msg ++ [x0a]) w.

End http.

(** ** main.go *)

(** [type DataValue struct], with the JSON names and options of its tags. *)
Record DataValue : Type := {
  Content : string;              (* json:"content" *)
  ContentType : string;          (* json:"content_type" *)
  Data : option (list byte);     (* json:"data,omitempty" *)
}.

#[global] Instance DataValue_eq_dec : EqDecision DataValue.
Proof. solve_decision. Defined.

(** [len(b)] of a slice; the nil slice has length zero. *)
Definition slice_len (b : option (list byte)) : nat :=
  match b with
  | Some l => length l
  | None => O
  end.

(** [json.Marshal(value)] for a [DataValue]: the struct encoder over the
    three fields.  Strings are written by [appendString]; the byte slice
    is left out when its length is zero ([omitempty]) and written as
    base64 text otherwise.  No value of this type makes [Marshal] fail. *)
Definition Marshal (v : DataValue) : list byte * option error :=
  (json.structEncode
     [ {| json.fname := "content"; json.omitEmpty := false;
          json.isEmptyValue := (String.length (Content v) =? 0)%nat;
          json.encoded := json.appendString (bytes (Content v)) |};
       {| json.fname := "content_type"; json.omitEmpty := false;
          json.isEmptyValue := (String.length (ContentType v) =? 0)%nat;
          json.encoded := json.appendString (bytes (ContentType v)) |};
       {| json.fname := "data"; json.omitEmpty := true;
          json.isEmptyValue := (slice_len (Data v) =? 0)%nat;
          json.encoded :=
            match Data v with
            | Some b => json.encodeByteSlice b
            | None => bytes "null"
            end |} ],
   None).

(** The zero value, [var dataValue DataValue]. *)
Definition zeroDataValue : DataValue :=
  {| Content := ""; ContentType := ""; Data := None |}.

(** The member loop of [d.object] for a [*DataValue]: the member is
    stored in the field whose name matches its key, and skipped when
    there is none. *)
Definition storeMember (st : DataValue * option error)
    (m : list byte * json.value) : DataValue * option error :=
  let '(dv, saved) := st in
  let '(key, v) := m in
  if json.equalFold key "content" then
    let '(s, saved) := json.storeString v (Content dv) saved in
    ({| Content := s; ContentType := ContentType dv; Data := Data dv |}, saved)
  else if json.equalFold key "content_type" then
    let '(s, saved) := json.storeString v (ContentType dv) saved in
    ({| Content := Content dv; ContentType := s; Data := Data dv |}, saved)
  else if json.equalFold key "data" then
    let '(b, saved) := json.storeBytes v (Data dv) saved in
    ({| Content := Content dv; ContentType := ContentType dv; Data := b |}, saved)
  else (dv, saved).

(** [d.unmarshal(&dataValue)] on a scanned value: an object is stored
    member by member, [null] changes nothing, any other value is an
    [UnmarshalTypeError].  The result is the variable after the call and
    the error returned. *)
Definition unmarshalValue (v : json.value) (dv : DataValue)
  : DataValue * option error :=
  match v with
  | json.Object ms => fold_left storeMember ms (dv, None)
  | json.Null => (dv, None)
  | _ => (dv, Some UnmarshalTypeError)
  end.

(** [json.Unmarshal(val, &dataValue)] *)
Definition Unmarshal (val : list byte) (dv : DataValue) : DataValue * option error :=
  match json.scanDocument val with
  | Some v => unmarshalValue v dv
  | None => (dv, Some SyntaxError)
  end.

(** [json.NewDecoder(r.Body).Decode(&dataValue)] *)
Definition Decode (body : io.Reader) (dv : DataValue) : DataValue * option error :=
  match json.readValue body with
  | inl v => unmarshalValue v dv
  | inr err => (dv, Some err)
  end.

(** [json.NewEncoder(w).Encode(response)] for the [map[string]string]
    responses: the members in the order of their keys, then a line feed. *)
Fixpoint insertSorted (kv : string * string) (l : list (string * string))
  : list (string * string) :=
  match l with
  | [] => [kv]
  | kv' :: l' =>
      if String.leb (fst kv) (fst kv') then kv :: l
      else kv' :: insertSorted kv l'
  end.

Definition encodeMap (m : list (string * string)) : list byte :=
  json.structEncode
    (map (fun kv => {| json.fname := fst kv; json.omitEmpty := false;
                       json.isEmptyValue := false;
                       json.encoded := json.appendString (bytes (snd kv)) |})
         (fold_right insertSorted [] m))
  ++ [x0a].

Definition Encode (m : list (string * string)) (w : http.ResponseWriter)
  : http.ResponseWriter :=
  http.Write (encodeMap m) w.

(** [fmt.Sprintf] with the verb %d on a length *)
Definition itoa (n : nat) : string := NilZero.string_of_uint (Nat.to_uint n).

(** [type Server struct { db *badger.DB }]: every method takes the store
    and returns it as the method leaves it, before its Go results. *)

(** [func (s *Server) storeValue(key string, value DataValue) error] *)
Definition storeValue (key : string) (value : DataValue) (db : badger.DB)
  : badger.DB * option error :=
  badger.Update (fun txn =>
    let '(data, err) := Marshal value in
    match err with
    | Some err => (txn, Some err)
    | None => badger.Set_ (bytes key) data txn
    end) db.

(** [func (s *Server) deleteValue(key string) error] *)
Definition deleteValue (key : string) (db : badger.DB) : badger.DB * option error :=
  badger.Update (fun txn => badger.Delete (bytes key) txn) db.

(** [func (s *Server) getValue(key string)], which returns a pointer to a
    [DataValue] and an error: the pointer is nil ([None]) unless the
    callback has assigned it. *)
Definition getValue (key : string) (db : badger.DB)
  : badger.DB * (option DataValue * option error) :=
  badger.View (fun txn =>
    let '(item, err) := badger.Get (bytes key) txn in
    match item, err with
    | Some item, None =>
        badger.Value item (fun val =>
          let '(dataValue, err) := Unmarshal val zeroDataValue in
          match err with
          | Some err => (None, Some err)
          | None => (Some dataValue, None)
          end)
    | _, Some err => (None, Some err)
    | None, None => (None, None)
    end) db.

Local Open Scope string_scope.

(** [func (s *Server) initializeSampleData()]: the three samples are
    stored; an error is logged and the loop goes on.  Go ranges over the
    map in no fixed order; the keys differ, so the order does not show in
    the store. *)
Definition samples : list (string * DataValue) :=
  [ ("alphabet/soup",
     {| Content := "Delicious alphabet soup recipe";
        ContentType := "text/plain"; Data := None |});
    ("config/settings.json",
     {| Content := string_of_list_byte
                     (bytes "{" ++ x22 :: bytes "theme" ++ x22 :: bytes ": "
                      ++ x22 :: bytes "dark" ++ x22 :: bytes ", "
                      ++ x22 :: bytes "language" ++ x22 :: bytes ": "
                      ++ x22 :: bytes "en" ++ x22 :: bytes "}");
        ContentType := "application/json"; Data := None |});
    ("docs/readme",
     {| Content := string_of_list_byte
                     (bytes "# Welcome to the API" ++ x0a :: x0a
                      :: bytes "This is a sample readme file.");
        ContentType := "text/markdown"; Data := None |}) ].

Definition initializeSampleData (db : badger.DB) : badger.DB :=
  fold_left (fun db kv => fst (storeValue (fst kv) (snd kv) db)) samples db.

(** [func (s *Server) handleGet(w, r, path)] *)
Definition handleGet (w : http.ResponseWriter) (r : http.Request) (path : string)
    (db : badger.DB) : http.ResponseWriter * badger.DB :=
  let '(db, (value, err)) := getValue path db in
  match value, err with
  | _, Some err =>
      if decide (err = ErrKeyNotFound) then
        (http.Error ("Path '" ++ path ++ "' not found") http.StatusNotFound w, db)
      else (http.Error "Database error" http.StatusInternalServerError w, db)
  | Some value, None =>
      let w := http.SetHeader "Content-Type" (ContentType value) w in
      if (0 <? slice_len (Data value))%nat then
        (http.Write (default [] (Data value)) w, db)
      else (http.Write (bytes (Content value)) w, db)
  | None, None => (w, db) (* not reached: [getValue] returns no nil pointer
                             without an error, see [getValue_nil_error] *)
  end.

(** [func (s *Server) handlePost(w, r, path)] *)
Definition handlePost (w : http.ResponseWriter) (r : http.Request) (path : string)
    (db : badger.DB) : http.ResponseWriter * badger.DB :=
  let '(dataValue, err) := Decode (http.Body r) zeroDataValue in
  match err with
  | Some _ => (http.Error "Invalid JSON" http.StatusBadRequest w, db)
  | None =>
      if decide (ContentType dataValue = "") then
        (http.Error "content_type is required" http.StatusBadRequest w, db)
      else
        match storeValue path dataValue db with
        | (db, Some _) =>
            (http.Error "Failed to store data" http.StatusInternalServerError w, db)
        | (db, None) =>
            let w := http.SetHeader "Content-Type" "application/json" w in
            (Encode [ ("status", "success");
                      ("message", "Data stored at path: " ++ path) ] w, db)
        end
  end.

(** [func (s *Server) handlePut(w, r, path)]; [io.ReadAll] returns a
    slice that is not nil, also for an empty body. *)
Definition handlePut (w : http.ResponseWriter) (r : http.Request) (path : string)
    (db : badger.DB) : http.ResponseWriter * badger.DB :=
  let '(body, err) := io.ReadAll (http.Body r) in
  match err with
  | Some _ => (http.Error "Failed to read body" http.StatusBadRequest w, db)
  | None =>
      let contentType := http.Get (http.ReqHeader r) "Content-Type" in
      let contentType :=
        if decide (contentType = "") then "application/octet-stream"
        else contentType in
      let dataValue :=
        {| Content := ""; ContentType := contentType; Data := Some body |} in
      match storeValue path dataValue db with
      | (db, Some _) =>
          (http.Error "Failed to store data" http.StatusInternalServerError w, db)
      | (db, None) =>
          let w := http.SetHeader "Content-Type" "application/json" w in
          (Encode [ ("status", "success");
                    ("message", "Data stored at path: " ++ path);
                    ("size", itoa (length body) ++ " bytes") ] w, db)
      end
  end.

(** [func (s *Server) handleDelete(w, r, path)] *)
Definition handleDelete (w : http.ResponseWriter) (r : http.Request) (path : string)
    (db : badger.DB) : http.ResponseWriter * badger.DB :=
  let '(db, (_, err)) := getValue path db in
  match err with
  | Some err =>
      if decide (err = ErrKeyNotFound) then
        (http.Error ("Path '" ++ path ++ "' not found") http.StatusNotFound w, db)
      else (http.Error "Database error" http.StatusInternalServerError w, db)
  | None =>
      match deleteValue path db with
      | (db, Some _) =>
          (http.Error "Failed to delete data" http.StatusInternalServerError w, db)
      | (db, None) =>
          let w := http.SetHeader "Content-Type" "application/json" w in
          (Encode [ ("status", "success");
                    ("message", "Data deleted at path: " ++ path) ] w, db)
      end
  end.

(** [func (s *Server) handlePath(w, r)] *)
Definition handlePath (w : http.ResponseWriter) (r : http.Request)
    (db : badger.DB) : http.ResponseWriter * badger.DB :=
  let path := default "" (http.Vars r !! "path") in
  if decide (path = "") then
    (http.Error "Path is required" http.StatusBadRequest w, db)
  else if decide (http.Method r = "GET") then handleGet w r path db
  else if decide (http.Method r = "POST") then handlePost w r path db
  else if decide (http.Method r = "PUT") then handlePut w r path db
  else if decide (http.Method r = "DELETE") then handleDelete w r path db
  else (http.Error "Method not allowed" http.StatusMethodNotAllowed w, db).

(** * Specification vocabulary

    Definitions that the statements below use: they describe inputs and
    expected results and are not part of the program. *)

Local Close Scope string_scope.
Local Open Scope N_scope.

(** A decoded rune is valid unless it is the [(RuneError, 1)] of an invalid
    encoding. *)
Definition valid_rune (r : N) (size : nat) : bool :=
  negb ((r =? utf8.RuneError) && (size =? 1)%nat).

(** Every byte that is not part of a valid UTF-8 encoding replaced by the
    encoding of U+FFFD: what a string becomes when [appendString] writes it
    and the reader unquotes it. *)
Fixpoint toValidUTF8_loop (fuel : nat) (s : list byte) : list byte :=
  match fuel, s with
  | _, [] => []
  | O, _ :: _ => []
  | S fuel, _ :: _ =>
      let '(r, size) := utf8.DecodeRune s in
      if valid_rune r size then firstn size s ++ toValidUTF8_loop fuel (skipn size s)
      else utf8.EncodeRune utf8.RuneError ++ toValidUTF8_loop fuel (skipn 1 s)
  end.

Definition toValidUTF8 (s : list byte) : list byte := toValidUTF8_loop (length s) s.

(** A string is valid text when it is valid UTF-8. *)
Definition validText (s : string) : Prop := utf8.Valid (bytes s) = true.

(** A byte slice of length zero read back: the nil slice. *)
Definition nonEmpty (b : option (list byte)) : option (list byte) :=
  match b with
  | Some (c :: l) => Some (c :: l)
  | _ => None
  end.

(** The value that [Unmarshal] reads from the bytes [Marshal] has written
    for [v]. *)
Definition readBack (v : DataValue) : DataValue :=
  {| Content := string_of_list_byte (toValidUTF8 (bytes (Content v)));
     ContentType := string_of_list_byte (toValidUTF8 (bytes (ContentType v)));
     Data := nonEmpty (Data v) |}.

(** The first check of [txn.modify] that an entry fails in a read-write
    transaction, [None] when it passes them all. *)
Definition rejects (key : list byte) (val : option (list byte)) : option error :=
  if badger.len key =? 0 then Some ErrEmptyKey
  else if badger.HasPrefix key badger.badgerPrefix then Some ErrInvalidKey
  else if badger.maxKeySize <? badger.len key then Some ErrExceedsSize
  else if badger.ValueLogFileSize <? badger.len (default [] val) then Some ErrExceedsSize
  else None.

(** The keys that [txn.modify] accepts: not empty, without the reserved
    prefix, of at most [maxKeySize] bytes. *)
Definition admits (key : list byte) : bool :=
  negb (badger.len key =? 0)
  && negb (badger.HasPrefix key badger.badgerPrefix)
  && (badger.len key <=? badger.maxKeySize).

Definition keys_admitted (db : badger.DB) : Prop :=
  forall k, is_Some (db !! k) -> rejects k None = None.

(** What [getValue] makes of the stored bytes, or of their absence. *)
Definition fetched (stored : option (list byte)) : option DataValue * option error :=
  match stored with
  | None => (None, Some ErrKeyNotFound)
  | Some data =>
      match Unmarshal data zeroDataValue with
      | (_, Some err) => (None, Some err)
      | (dataValue, None) => (Some dataValue, None)
      end
  end.

(** Store operations and their histories. *)
Inductive operation : Type :=
| OpPut (p : string) (v : DataValue)
| OpDelete (p : string)
| OpGet (p : string).

Definition perform (db : badger.DB) (o : operation) : badger.DB :=
  match o with
  | OpPut p v => fst (storeValue p v db)
  | OpDelete p => fst (deleteValue p db)
  | OpGet p => fst (getValue p db)
  end.

(** The store after the operations of [h], in order, on the empty store. *)
Definition after (h : list operation) : badger.DB := fold_left perform h ∅.

(** Whether [p] counts as written after one more operation: a put of [p]
    writes it, a delete of [p] unwrites it. *)
Definition mark (p : string) (w : bool) (o : operation) : bool :=
  match o with
  | OpPut q _ => if decide (q = p) then true else w
  | OpDelete q => if decide (q = p) then false else w
  | OpGet _ => w
  end.

(** [written p h]: the history [h] has a put of [p] with no delete of [p]
    after it. *)
Definition written (p : string) (h : list operation) : bool :=
  fold_left (mark p) h false.

(** The value that [handlePut] builds from a request whose body it has
    read. *)
Definition putValue (r : http.Request) : DataValue :=
  {| Content := "";
     ContentType :=
       if decide (http.Get (http.ReqHeader r) "Content-Type" = ""%string)
       then "application/octet-stream"
       else http.Get (http.ReqHeader r) "Content-Type";
     Data := Some (io.delivered (http.Body r)) |}.

(** Concrete inputs.  A request whose body arrives in full. *)
Definition request (method path : string) (header : http.Header) (body : list byte)
  : http.Request :=
  {| http.Method := method; http.Vars := {[ "path"%string := path ]};
     http.ReqHeader := header; http.Body := io.NewReader body |}.

(** What [handlePut] stores for a request with an empty body and no
    Content-Type header. *)
Definition emptyBody : DataValue :=
  {| Content := ""; ContentType := "application/octet-stream"; Data := Some [] |}.

Definition sample : DataValue :=
  {| Content := "# hi"; ContentType := "text/markdown"; Data := None |}.

Definition logo : DataValue :=
  {| Content := "logo"; ContentType := "image/png"; Data := Some [x89; x50; x4e; x47] |}.

Definition both : DataValue :=
  {| Content := "fallback text"; ContentType := "image/png";
     Data := Some [x89; x50; x4e; x47] |}.

(** Histories, seeding and serving: what the further properties speak of. *)

(** Whether the engine accepts the put of [v] at [p]. *)
Definition accepted (p : string) (v : DataValue) : bool :=
  bool_decide (rejects (bytes p) (Some (fst (Marshal v))) = None).

(** The value a history leaves at [p], one operation at a time: an
    accepted put of [p] sets it, a delete of [p] clears it. *)
Definition record (p : string) (cur : option DataValue) (o : operation)
  : option DataValue :=
  match o with
  | OpPut q v => if decide (q = p) then (if accepted q v then Some v else cur) else cur
  | OpDelete q => if decide (q = p) then None else cur
  | OpGet _ => cur
  end.

Definition lastPut (p : string) (h : list operation) : option DataValue :=
  fold_left (record p) h None.

(** The loop of [initializeSampleData] over the entries in the order of
    [l]. *)
Definition storeAll (l : list (string * DataValue)) (db : badger.DB) : badger.DB :=
  fold_left (fun db kv => fst (storeValue (fst kv) (snd kv) db)) l db.

(** Every entry of the store is the encoding of a value with a content
    type. *)
Definition decodable (db : badger.DB) : Prop :=
  forall k data, db !! k = Some data ->
    exists v, Unmarshal data zeroDataValue = (v, None) /\ ContentType v <> ""%string.

(** The store after the handler has answered the requests of [rs], in
    order. *)
Definition serveAll (rs : list http.Request) (db : badger.DB) : badger.DB :=
  fold_left (fun db r => snd (handlePath http.NewRecorder r db)) rs db.

(** ** Proof vocabulary *)

(** The rows of [utf8.first], by the range of the byte. *)
Inductive first_spec (a : N) : N -> Prop :=
| first_as : a < 0x80 -> first_spec a 0xF0
| first_xx : 0x80 <= a < 0xC2 \/ 0xF5 <= a -> first_spec a 0xF1
| first_s1 : 0xC2 <= a < 0xE0 -> first_spec a 0x02
| first_s2 : a = 0xE0 -> first_spec a 0x13
| first_s3 : 0xE1 <= a < 0xED \/ 0xEE <= a < 0xF0 -> first_spec a 0x03
| first_s4 : a = 0xED -> first_spec a 0x23
| first_s5 : a = 0xF0 -> first_spec a 0x34
| first_s6 : 0xF1 <= a < 0xF4 -> first_spec a 0x04
| first_s7 : a = 0xF4 -> first_spec a 0x44.

(** The first two bytes of a three-byte and of a four-byte encoding. *)
Definition lead3 (a0 a1 : N) : Prop :=
  (a0 = 0xE0 /\ 0xA0 <= a1 <= 0xBF)
  \/ ((0xE1 <= a0 < 0xED \/ 0xEE <= a0 < 0xF0) /\ 0x80 <= a1 <= 0xBF)
  \/ (a0 = 0xED /\ 0x80 <= a1 <= 0x9F).

Definition lead4 (a0 a1 : N) : Prop :=
  (a0 = 0xF0 /\ 0x90 <= a1 <= 0xBF)
  \/ (0xF1 <= a0 < 0xF4 /\ 0x80 <= a1 <= 0xBF)
  \/ (a0 = 0xF4 /\ 0x80 <= a1 <= 0x8F).

(** The rune of an encoding of two, three and four bytes, in arithmetic. *)
Definition rune2 (a0 a1 : N) : N := a0 mod 32 * 64 + a1 mod 64.
Definition rune3 (a0 a1 a2 : N) : N := a0 mod 16 * 4096 + a1 mod 64 * 64 + a2 mod 64.
Definition rune4 (a0 a1 a2 a3 : N) : N :=
  a0 mod 8 * 262144 + a1 mod 64 * 4096 + a2 mod 64 * 64 + a3 mod 64.

(** [decoded p r size]: [p] begins with a valid encoding of [r] in [size]
    bytes. *)
Inductive decoded (p : list byte) (r : N) (size : nat) : Prop :=
| decoded_1 b0 q :
    p = b0 :: q -> Byte.to_N b0 < 0x80 -> r = Byte.to_N b0 -> size = 1%nat ->
    decoded p r size
| decoded_2 b0 b1 q :
    p = b0 :: b1 :: q ->
    0xC2 <= Byte.to_N b0 < 0xE0 -> 0x80 <= Byte.to_N b1 <= 0xBF ->
    r = rune2 (Byte.to_N b0) (Byte.to_N b1) -> size = 2%nat ->
    decoded p r size
| decoded_3 b0 b1 b2 q :
    p = b0 :: b1 :: b2 :: q ->
    lead3 (Byte.to_N b0) (Byte.to_N b1) -> 0x80 <= Byte.to_N b2 <= 0xBF ->
    r = rune3 (Byte.to_N b0) (Byte.to_N b1) (Byte.to_N b2) -> size = 3%nat ->
    decoded p r size
| decoded_4 b0 b1 b2 b3 q :
    p = b0 :: b1 :: b2 :: b3 :: q ->
    lead4 (Byte.to_N b0) (Byte.to_N b1) -> 0x80 <= Byte.to_N b2 <= 0xBF ->
    0x80 <= Byte.to_N b3 <= 0xBF ->
    r = rune4 (Byte.to_N b0) (Byte.to_N b1) (Byte.to_N b2) (Byte.to_N b3) ->
    size = 4%nat ->
    decoded p r size.

(** A character that a JSON string holds as it is. *)
Definition plain (c : byte) : Prop :=
  0x20 <= Byte.to_N c < 0x80 /\ Byte.to_N c <> 0x22 /\ Byte.to_N c <> 0x5C.

(** [quoted txt t]: [txt] is a text between quotes that unquotes to [t],
    whatever follows it. *)
Definition quoted (txt t : list byte) : Prop :=
  forall rest, exists body, txt ++ rest = x22 :: body ++ x22 :: rest
                            /\ json.unquote (body ++ x22 :: rest) = Some (t, rest).

(** The end of the bytes [Marshal] writes: the member of the byte slice,
    if it is written, and the closing brace. *)
Definition dataMember (D : option (list byte)) (rest : list byte) : list byte :=
  match D with
  | Some (b :: l) =>
      x2c :: json.appendString (bytes "data") ++ x3a
          :: json.encodeByteSlice (b :: l) ++ x7d :: rest
  | _ => x7d :: rest
  end.

(** [wellFormed t]: [t] is valid UTF-8, whatever fuel [Valid_loop] is given
    beyond the length of [t]. *)
Definition wellFormed (t : list byte) : Prop :=
  forall fuel, (length t <= fuel)%nat -> utf8.Valid_loop fuel t = true.

(** The strings among the members of an object are valid UTF-8. *)
Definition validMember (m : list byte * json.value) : Prop :=
  forall t, snd m = json.Str t -> utf8.Valid t = true.

Definition validValue (dv : DataValue) : Prop :=
  validText (Content dv) /\ validText (ContentType dv).

Definition asciiByte (c : byte) : Prop := Byte.to_N c < 0x80.

(** * Proofs *)

Ltac Zify.zify_post_hook ::= Z.to_euclidean_division_equations.

#[local] Arguments Marshal : simpl never.

(** ** Bytes and bit arithmetic

    [bits] turns shifts and masks into multiplications, divisions and
    remainders, [lor_add] a bitwise or of disjoint parts into a sum, and
    [bool_to_prop] boolean tests in the hypotheses into propositions. *)

Lemma lor_shiftl_add (h l k : N) : l < 2 ^ k -> N.lor (h * 2 ^ k) l = h * 2 ^ k + l.
Proof.
  intros Hl.
  assert (Hd : N.land (h * 2 ^ k) l = 0).
  { apply N.bits_inj. intros i. rewrite N.land_spec, N.bits_0.
    destruct (N.lt_ge_cases i k) as [Hi|Hi].
    - rewrite N.mul_pow2_bits_low by assumption. reflexivity.
    - destruct (N.eq_dec l 0) as [->|Hne].
      + rewrite N.bits_0. apply andb_false_r.
      + rewrite (N.bits_above_log2 l i); [apply andb_false_r|].
        apply N.log2_lt_pow2 in Hl; lia. }
  rewrite <- N.lxor_lor, <- N.add_nocarry_lxor; auto.
Qed.

Lemma lor_disjoint (a b k : N) : a mod 2 ^ k = 0 -> b < 2 ^ k -> N.lor a b = a + b.
Proof.
  intros Ha Hb.
  assert (Hk : 2 ^ k <> 0) by (apply N.pow_nonzero; lia).
  pose proof (N.div_mod a (2 ^ k) Hk) as E. rewrite Ha, N.add_0_r, N.mul_comm in E.
  rewrite E. apply lor_shiftl_add. assumption.
Qed.

Lemma to_N_lt (b : byte) : Byte.to_N b < 256.
Proof. pose proof (Byte.to_N_bounded b). lia. Qed.

Lemma u8_to_N (b : byte) : u8 (Byte.to_N b) = b.
Proof.
  unfold u8. change 0xFF with (N.ones 8). rewrite N.land_ones.
  rewrite N.mod_small by apply to_N_lt. rewrite Byte.of_to_N. reflexivity.
Qed.

Lemma u8_eq (n : N) (b : byte) : n = Byte.to_N b -> u8 n = b.
Proof. intros ->. apply u8_to_N. Qed.

Lemma to_N_u8 (n : N) : Byte.to_N (u8 n) = n mod 256.
Proof.
  unfold u8. change 0xFF with (N.ones 8). rewrite N.land_ones.
  change (2 ^ 8) with 256.
  destruct (Byte.of_N (n mod 256)) eqn:E.
  - apply Byte.to_of_N in E. exact E.
  - apply Byte.of_N_None_iff in E. pose proof (N.mod_upper_bound n 256). lia.
Qed.

Ltac bits :=
  repeat first
    [ rewrite N.shiftl_mul_pow2
    | rewrite N.shiftr_div_pow2
    | progress change 0xFF with (N.ones 8)
    | progress change 0x3F with (N.ones 6)
    | progress change 0x1F with (N.ones 5)
    | progress change 0x0F with (N.ones 4)
    | progress change 0x07 with (N.ones 3)
    | rewrite N.land_ones ];
  repeat match goal with
  | |- context [2 ^ ?k] => let v := eval compute in (2 ^ k) in change (2 ^ k) with v
  end.

Lemma lor_disjoint' (m a b k : N) : m = 2 ^ k -> a mod m = 0 -> b < m -> N.lor a b = a + b.
Proof. intros ->. apply lor_disjoint. Qed.

Ltac lor_k a b k :=
  let m := eval compute in (2 ^ k) in
  rewrite (lor_disjoint' m a b k) by first [reflexivity | lia].

Ltac lor_add :=
  repeat match goal with
  | |- context [N.lor ?a ?b] =>
      first [ lor_k a b 6 | lor_k a b 12 | lor_k a b 18 | lor_k a b 5
            | lor_k a b 4 | lor_k a b 3 | lor_k a b 7 | lor_k a b 8 | lor_k a b 16 ]
  end.

Ltac bool_to_prop :=
  repeat match goal with
  | H : (_ && _) = true |- _ => apply andb_true_iff in H; destruct H
  | H : (_ || _) = false |- _ => apply orb_false_iff in H; destruct H
  | H : (_ || _) = true |- _ => apply orb_true_iff in H; destruct H
  | H : (_ && _) = false |- _ => apply andb_false_iff in H; destruct H
  | H : negb _ = true |- _ => apply negb_true_iff in H
  | H : negb _ = false |- _ => apply negb_false_iff in H
  | H : (_ <? _) = true |- _ => apply N.ltb_lt in H
  | H : (_ <? _) = false |- _ => apply N.ltb_ge in H
  | H : (_ <=? _) = true |- _ => apply N.leb_le in H
  | H : (_ <=? _) = false |- _ => apply N.leb_gt in H
  | H : (_ =? _) = true |- _ => apply N.eqb_eq in H
  | H : (_ =? _) = false |- _ => apply N.eqb_neq in H
  end.

(** ** unicode/utf8: decoding and encoding are inverse on valid encodings *)

Lemma at_0 b p : utf8.at_ (b :: p) 0 = Byte.to_N b.
Proof. reflexivity. Qed.
Lemma at_S b p i : utf8.at_ (b :: p) (S i) = utf8.at_ p i.
Proof. reflexivity. Qed.

Lemma first_case (a : N) : first_spec a (utf8.first a).
Proof.
  unfold utf8.first.
  repeat match goal with
  | |- context [if ?c then _ else _] => destruct c eqn:?
  end; bool_to_prop;
  first [ apply first_as; lia | apply first_xx; lia | apply first_s1; lia
        | apply first_s2; lia | apply first_s3; lia | apply first_s4; lia
        | apply first_s5; lia | apply first_s6; lia | apply first_s7; lia ].
Qed.

Lemma EncodeRune_1 (r : N) : r <= 0x7F -> utf8.EncodeRune r = [u8 r].
Proof.
  intros H. unfold utf8.EncodeRune, utf8.rune1Max.
  destruct (N.leb_spec r 0x7F); [reflexivity | lia].
Qed.

Lemma EncodeRune_2 (r : N) :
  0x80 <= r <= 0x7FF ->
  utf8.EncodeRune r = [u8 (192 + r / 64); u8 (128 + r mod 64)].
Proof.
  intros H. unfold utf8.EncodeRune, utf8.rune1Max, utf8.rune2Max, utf8.t2, utf8.tx, utf8.maskx.
  destruct (N.leb_spec r 0x7F); [lia|].
  destruct (N.leb_spec r 0x7FF); [|lia].
  repeat f_equal; bits; lor_add; lia.
Qed.

Lemma encode3_spec (r : N) :
  r <= 0xFFFF ->
  utf8.encode3 r =
    [u8 (224 + r / 4096); u8 (128 + (r / 64) mod 64); u8 (128 + r mod 64)].
Proof.
  intros H. unfold utf8.encode3, utf8.t3, utf8.tx, utf8.maskx.
  repeat f_equal; bits; lor_add; lia.
Qed.

Lemma EncodeRune_3 (r : N) :
  0x800 <= r <= 0xFFFF -> ~ (0xD800 <= r <= 0xDFFF) ->
  utf8.EncodeRune r =
    [u8 (224 + r / 4096); u8 (128 + (r / 64) mod 64); u8 (128 + r mod 64)].
Proof.
  intros H Hs. unfold utf8.EncodeRune, utf8.rune1Max, utf8.rune2Max, utf8.rune3Max,
    utf8.MaxRune, utf8.surrogateMin, utf8.surrogateMax.
  destruct (N.leb_spec r 0x7F); [lia|].
  destruct (N.leb_spec r 0x7FF); [lia|].
  destruct (N.ltb_spec 0x10FFFF r); [lia|].
  destruct (N.leb_spec 0xD800 r), (N.leb_spec r 0xDFFF); cbn [andb orb]; try lia.
  all: destruct (N.leb_spec r 0xFFFF); [|lia]; apply encode3_spec; lia.
Qed.

Lemma EncodeRune_4 (r : N) :
  0x10000 <= r <= 0x10FFFF ->
  utf8.EncodeRune r =
    [u8 (240 + r / 262144); u8 (128 + (r / 4096) mod 64);
     u8 (128 + (r / 64) mod 64); u8 (128 + r mod 64)].
Proof.
  intros H. unfold utf8.EncodeRune, utf8.rune1Max, utf8.rune2Max, utf8.rune3Max,
    utf8.MaxRune, utf8.surrogateMin, utf8.surrogateMax, utf8.t4, utf8.tx, utf8.maskx.
  destruct (N.leb_spec r 0x7F); [lia|].
  destruct (N.leb_spec r 0x7FF); [lia|].
  destruct (N.ltb_spec 0x10FFFF r); [lia|].
  destruct (N.leb_spec 0xD800 r), (N.leb_spec r 0xDFFF); cbn [andb orb]; try lia.
  all: destruct (N.leb_spec r 0xFFFF); [lia|].
  all: repeat f_equal; bits; lor_add; lia.
Qed.

Ltac decode_start n :=
  unfold utf8.DecodeRune in *;
  match goal with
  | |- context [N.of_nat (length ?l)] =>
      set (n := N.of_nat (length l));
      assert (N.of_nat (length l) = n) by reflexivity
  | H : context [N.of_nat (length ?l)] |- _ =>
      set (n := N.of_nat (length l)) in *;
      assert (N.of_nat (length l) = n) by reflexivity
  end;
  cbn [length] in *; clearbody n;
  unfold utf8.at_, utf8.as_, utf8.locb, utf8.hicb, utf8.mask2, utf8.mask3,
    utf8.mask4, utf8.maskx in *; cbn [nth] in *.

Ltac ev t := let v := eval vm_compute in t in change t with v in *.

Ltac closed_eval :=
  repeat match goal with
  | |- context [N.land (N.pos ?p) (N.pos ?q)] => ev (N.land (N.pos p) (N.pos q))
  | |- context [N.shiftr (N.pos ?p) (N.pos ?q)] => ev (N.shiftr (N.pos p) (N.pos q))
  | |- context [N.odd (N.pos ?p)] => ev (N.odd (N.pos p))
  | |- context [N.leb (N.pos ?p) (N.pos ?q)] => ev (N.leb (N.pos p) (N.pos q))
  | |- context [utf8.acceptRanges (N.pos ?p)] => ev (utf8.acceptRanges (N.pos p))
  | |- context [utf8.acceptRanges N0] => ev (utf8.acceptRanges N0)
  | H : context [N.land (N.pos ?p) (N.pos ?q)] |- _ => ev (N.land (N.pos p) (N.pos q))
  | H : context [N.shiftr (N.pos ?p) (N.pos ?q)] |- _ => ev (N.shiftr (N.pos p) (N.pos q))
  | H : context [N.odd (N.pos ?p)] |- _ => ev (N.odd (N.pos p))
  | H : context [N.leb (N.pos ?p) (N.pos ?q)] |- _ => ev (N.leb (N.pos p) (N.pos q))
  | H : context [utf8.acceptRanges (N.pos ?p)] |- _ => ev (utf8.acceptRanges (N.pos p))
  | H : context [utf8.acceptRanges N0] |- _ => ev (utf8.acceptRanges N0)
  end; cbn [fst snd] in *; cbv beta iota in *.

Ltac ifs_goal :=
  repeat match goal with
  | |- context [if ?c then _ else _] => destruct c eqn:?
  end; bool_to_prop.

Lemma DecodeRune_1 (b0 : byte) (q : list byte) :
  Byte.to_N b0 < 0x80 ->
  utf8.DecodeRune (b0 :: q) = (Byte.to_N b0, 1%nat).
Proof.
  intros H0. decode_start n.
  destruct (N.ltb_spec n 1); [lia|].
  destruct (first_case (Byte.to_N b0)); try lia. closed_eval. reflexivity.
Qed.

Lemma DecodeRune_2 (b0 b1 : byte) (q : list byte) :
  0xC2 <= Byte.to_N b0 < 0xE0 -> 0x80 <= Byte.to_N b1 <= 0xBF ->
  utf8.DecodeRune (b0 :: b1 :: q) = (rune2 (Byte.to_N b0) (Byte.to_N b1), 2%nat).
Proof.
  intros H0 H1. decode_start n.
  destruct (N.ltb_spec n 1); [lia|].
  destruct (first_case (Byte.to_N b0)); try lia. closed_eval.
  ifs_goal; try lia.
  unfold rune2, utf8.mask2, utf8.maskx. f_equal. bits. lor_add. reflexivity.
Qed.

Lemma DecodeRune_3 (b0 b1 b2 : byte) (q : list byte) :
  lead3 (Byte.to_N b0) (Byte.to_N b1) -> 0x80 <= Byte.to_N b2 <= 0xBF ->
  utf8.DecodeRune (b0 :: b1 :: b2 :: q)
  = (rune3 (Byte.to_N b0) (Byte.to_N b1) (Byte.to_N b2), 3%nat).
Proof.
  intros H0 H2. unfold lead3 in H0. decode_start n.
  destruct (N.ltb_spec n 1); [lia|].
  destruct (first_case (Byte.to_N b0)); try lia; closed_eval.
  all: ifs_goal; try lia.
  all: unfold rune3, utf8.mask3, utf8.maskx; f_equal; bits; lor_add; reflexivity.
Qed.

Lemma DecodeRune_4 (b0 b1 b2 b3 : byte) (q : list byte) :
  lead4 (Byte.to_N b0) (Byte.to_N b1) -> 0x80 <= Byte.to_N b2 <= 0xBF ->
  0x80 <= Byte.to_N b3 <= 0xBF ->
  utf8.DecodeRune (b0 :: b1 :: b2 :: b3 :: q)
  = (rune4 (Byte.to_N b0) (Byte.to_N b1) (Byte.to_N b2) (Byte.to_N b3), 4%nat).
Proof.
  intros H0 H2 H3. unfold lead4 in H0. decode_start n.
  destruct (N.ltb_spec n 1); [lia|].
  destruct (first_case (Byte.to_N b0)); try lia; closed_eval.
  all: ifs_goal; try lia.
  all: unfold rune4, utf8.mask4, utf8.maskx; f_equal; bits; lor_add; reflexivity.
Qed.

Ltac ifs_hyp H :=
  repeat match type of H with
  | context [if ?c then _ else _] => destruct c eqn:?
  end; bool_to_prop.

Lemma DecodeRune_inv (p : list byte) (r : N) (size : nat) :
  utf8.DecodeRune p = (r, size) ->
  valid_rune r size = true ->
  p <> [] ->
  decoded p r size.
Proof.
  intros H Hv Hp. unfold valid_rune in Hv.
  destruct p as [|b0 p]; [congruence|clear Hp].
  destruct (N.ltb_spec (Byte.to_N b0) 0x80) as [Hlt|Hge].
  { rewrite DecodeRune_1 in H by assumption. injection H as <- <-.
    eapply decoded_1; eauto. }
  destruct p as [|b1 [|b2 [|b3 q]]].
  all: decode_start n.
  all: destruct (N.ltb_spec n 1); [lia|].
  all: destruct (first_case (Byte.to_N b0)); try lia; closed_eval.
  all: revert Hv; ifs_hyp H; try lia.
  all: injection H as <- <-; intros Hv; try discriminate Hv.
  all: first
    [ eapply decoded_2;
      [reflexivity | lia | lia | unfold rune2; bits; lor_add; reflexivity | reflexivity]
    | eapply decoded_3;
      [reflexivity | unfold lead3; lia | lia
      | unfold rune3; bits; lor_add; reflexivity | reflexivity]
    | eapply decoded_4;
      [reflexivity | unfold lead4; lia | lia | lia
      | unfold rune4; bits; lor_add; reflexivity | reflexivity] ].
Qed.

Lemma decoded_sound (p : list byte) (r : N) (size : nat) :
  decoded p r size ->
  utf8.EncodeRune r = firstn size p
  /\ (1 <= size <= length p)%nat
  /\ (size <= 4)%nat
  /\ forall q, utf8.DecodeRune (firstn size p ++ q) = (r, size).
Proof.
  intros [b0 q -> H0 -> -> | b0 b1 q -> H0 H1 -> ->
         | b0 b1 b2 q -> H0 H2 -> -> | b0 b1 b2 b3 q -> H0 H2 H3 -> ->].
  - split; [|split; [cbn; lia|split; [lia|]]].
    + rewrite EncodeRune_1 by lia. cbn. f_equal. apply u8_to_N.
    + intros t. cbn. apply DecodeRune_1. assumption.
  - pose proof (to_N_lt b0). pose proof (to_N_lt b1).
    split; [|split; [cbn; lia|split; [lia|]]].
    + rewrite EncodeRune_2 by (unfold rune2; lia). cbn.
      repeat f_equal; apply u8_eq; unfold rune2; lia.
    + intros t. cbn. apply DecodeRune_2; assumption.
  - pose proof (to_N_lt b0). pose proof (to_N_lt b1). pose proof (to_N_lt b2).
    split; [|split; [cbn; lia|split; [lia|]]].
    + assert (Hl := H0). unfold lead3 in Hl.
      rewrite EncodeRune_3 by (unfold rune3; lia). cbn.
      repeat f_equal; apply u8_eq; unfold rune3; lia.
    + intros t. cbn. apply DecodeRune_3; assumption.
  - pose proof (to_N_lt b0). pose proof (to_N_lt b1). pose proof (to_N_lt b2).
    pose proof (to_N_lt b3).
    split; [|split; [cbn; lia|split; [lia|]]].
    + assert (Hl := H0). unfold lead4 in Hl.
      rewrite EncodeRune_4 by (unfold rune4; lia). cbn.
      repeat f_equal; apply u8_eq; unfold rune4; lia.
    + intros t. cbn. apply DecodeRune_4; assumption.
Qed.

Lemma valid_rune_false (r : N) (size : nat) :
  valid_rune r size = false -> r = utf8.RuneError /\ size = 1%nat.
Proof.
  unfold valid_rune. intros H. apply negb_false_iff, andb_true_iff in H.
  destruct H as [H1 H2]. apply N.eqb_eq in H1. apply Nat.eqb_eq in H2. auto.
Qed.

Lemma DecodeRune_app (p q : list byte) (r : N) (size : nat) :
  p <> [] -> utf8.DecodeRune p = (r, size) -> valid_rune r size = true ->
  utf8.DecodeRune (firstn size p ++ q) = (r, size).
Proof.
  intros Hp H Hv. apply decoded_sound. apply DecodeRune_inv; assumption.
Qed.

Lemma decoded_firstn (p : list byte) (r : N) (size : nat) (k : nat) :
  (4 <= k)%nat -> decoded p r size -> utf8.DecodeRune (firstn k p) = (r, size).
Proof.
  intros Hk Hd. destruct (decoded_sound _ _ _ Hd) as (_ & Hs & H4 & Happ).
  rewrite <- (firstn_skipn size (firstn k p)).
  rewrite firstn_firstn. replace (Nat.min size k) with size by lia. apply Happ.
Qed.

Lemma decoded_of_firstn (p : list byte) (r : N) (size : nat) (k : nat) :
  (4 <= k)%nat -> decoded (firstn k p) r size -> utf8.DecodeRune p = (r, size).
Proof.
  intros Hk Hd. destruct (decoded_sound _ _ _ Hd) as (_ & Hs & H4 & Happ).
  rewrite <- (firstn_skipn size p).
  specialize (Happ (skipn size p)).
  rewrite firstn_firstn in Happ. replace (Nat.min size k) with size in Happ by lia.
  exact Happ.
Qed.

Lemma DecodeRune_firstn (p : list byte) (k : nat) :
  (4 <= k)%nat -> utf8.DecodeRune (firstn k p) = utf8.DecodeRune p.
Proof.
  intros Hk. destruct p as [|b0 p]; [destruct k; reflexivity|].
  assert (Hne : firstn k (b0 :: p) <> []) by (destruct k; [lia|discriminate]).
  destruct (utf8.DecodeRune (b0 :: p)) as [r size] eqn:E.
  destruct (valid_rune r size) eqn:V.
  - apply decoded_firstn; [assumption|]. apply DecodeRune_inv; [assumption..|discriminate].
  - destruct (utf8.DecodeRune (firstn k (b0 :: p))) as [r' size'] eqn:E'.
    destruct (valid_rune r' size') eqn:V'.
    + assert (Hd : decoded (firstn k (b0 :: p)) r' size') by (apply DecodeRune_inv; assumption).
      apply decoded_of_firstn in Hd; [|assumption]. congruence.
    + apply valid_rune_false in V, V'. destruct V, V'. congruence.
Qed.

(** ** encoding/json: a string that is written unquotes to its valid form *)

Lemma to_N_inj (a b : byte) : Byte.to_N a = Byte.to_N b -> a = b.
Proof.
  intros H. apply (f_equal Byte.of_N) in H. rewrite !Byte.of_to_N in H. congruence.
Qed.

Lemma eqb_to_N (a b : byte) : Byte.eqb a b = (Byte.to_N a =? Byte.to_N b).
Proof.
  destruct (Byte.eqb a b) eqn:E.
  - apply Byte.byte_dec_bl in E. subst. symmetry. apply N.eqb_refl.
  - symmetry. apply N.eqb_neq. intros H. apply to_N_inj in H. subst.
    rewrite (Byte.byte_dec_lb eq_refl) in E. discriminate.
Qed.

Lemma eqb_neq_N (a b : byte) : Byte.to_N a <> Byte.to_N b -> Byte.eqb a b = false.
Proof. intros H. rewrite eqb_to_N. apply N.eqb_neq. assumption. Qed.

Lemma htmlSafe_range (c : N) :
  json.htmlSafeSet c = true -> 0x20 <= c < 0x80 /\ c <> 0x22 /\ c <> 0x5C.
Proof.
  unfold json.htmlSafeSet. intros H. bool_to_prop. lia.
Qed.

Lemma unquote_plain (f : nat) (c : byte) (t : list byte) :
  0x20 <= Byte.to_N c < 0x80 -> Byte.to_N c <> 0x22 -> Byte.to_N c <> 0x5C ->
  json.unquote_loop (S f) (c :: t) = json.emit [c] (json.unquote_loop f t).
Proof.
  intros Hr Hq Hb. cbn [json.unquote_loop].
  rewrite (eqb_neq_N c x5c), (eqb_neq_N c x22) by (cbn; lia).
  unfold utf8.RuneSelf.
  destruct (N.ltb_spec (Byte.to_N c) 0x20); [lia|].
  destruct (N.ltb_spec (Byte.to_N c) 0x80); [reflexivity|lia].
Qed.

Lemma unquote_multibyte (f : nat) (c : byte) (t : list byte) :
  0x80 <= Byte.to_N c ->
  json.unquote_loop (S f) (c :: t) =
    json.emit (utf8.EncodeRune (utf8.DecodeRune (c :: t)).1)
              (json.unquote_loop f (skipn (utf8.DecodeRune (c :: t)).2 (c :: t))).
Proof.
  intros Hr. cbn [json.unquote_loop].
  rewrite (eqb_neq_N c x5c), (eqb_neq_N c x22) by (cbn; lia).
  unfold utf8.RuneSelf.
  destruct (N.ltb_spec (Byte.to_N c) 0x20); [lia|].
  destruct (N.ltb_spec (Byte.to_N c) 0x80); [lia|].
  destruct (utf8.DecodeRune (c :: t)); reflexivity.
Qed.

Lemma unquote_escape (f : nat) (b : byte) (t : list byte) :
  Byte.to_N b < 0x80 -> json.htmlSafeSet (Byte.to_N b) = false ->
  json.unquote_loop (S f) (json.escape b ++ t) = json.emit [b] (json.unquote_loop f t).
Proof.
  intros Hlt Hs.
  destruct b; try (exfalso; vm_compute in Hs; discriminate Hs);
    try (exfalso; vm_compute in Hlt; discriminate Hlt); reflexivity.
Qed.

Lemma unquote_ufffd (f : nat) (t : list byte) :
  json.unquote_loop (S f) (x5c :: x75 :: x66 :: x66 :: x66 :: x64 :: t)
  = json.emit (utf8.EncodeRune utf8.RuneError) (json.unquote_loop f t).
Proof. reflexivity. Qed.

Lemma unquote_u2028 (f : nat) (t : list byte) :
  json.unquote_loop (S f) (x5c :: x75 :: x32 :: x30 :: x32 :: x38 :: t)
  = json.emit (utf8.EncodeRune 0x2028) (json.unquote_loop f t).
Proof. reflexivity. Qed.

Lemma unquote_u2029 (f : nat) (t : list byte) :
  json.unquote_loop (S f) (x5c :: x75 :: x32 :: x30 :: x32 :: x39 :: t)
  = json.emit (utf8.EncodeRune 0x2029) (json.unquote_loop f t).
Proof. reflexivity. Qed.

Lemma emit_Some (out t rest : list byte) :
  json.emit out (Some (t, rest)) = Some (out ++ t, rest).
Proof. reflexivity. Qed.

Lemma valid_rune_ascii (c : N) : c < 0x80 -> valid_rune c 1 = true.
Proof.
  intros H. unfold valid_rune, utf8.RuneError.
  destruct (N.eqb_spec c 0xFFFD); [lia|reflexivity].
Qed.

Lemma unquote_appendString_loop (fuel : nat) :
  forall (s : list byte) (fuel' : nat) (rest : list byte),
    (length s <= fuel)%nat ->
    (length (json.appendString_loop fuel s) < fuel')%nat ->
    json.unquote_loop fuel' (json.appendString_loop fuel s ++ x22 :: rest)
    = Some (toValidUTF8_loop fuel s, rest).
Proof.
  induction fuel as [|f IH]; intros s fuel' rest Hs Hf.
  { destruct s; [|cbn in Hs; lia]. destruct fuel'; [cbn in Hf; lia|]. reflexivity. }
  destruct s as [|b tl].
  { destruct fuel'; [cbn in Hf; lia|]. reflexivity. }
  cbn [length] in Hs.
  cbn [json.appendString_loop toValidUTF8_loop] in *.
  unfold utf8.RuneSelf in *.
  destruct (N.ltb_spec (Byte.to_N b) 0x80) as [Hlt|Hge].
  - (* ASCII *)
    rewrite (DecodeRune_1 b tl Hlt), valid_rune_ascii by assumption.
    cbn [firstn skipn].
    destruct (json.htmlSafeSet (Byte.to_N b)) eqn:Hsafe.
    + apply htmlSafe_range in Hsafe.
      destruct fuel' as [|f']; [cbn in Hf; lia|].
      cbn [app length] in *.
      rewrite unquote_plain by lia.
      rewrite IH by lia. reflexivity.
    + destruct fuel' as [|f']; [lia|].
      rewrite <- app_assoc, unquote_escape by assumption.
      rewrite IH; [reflexivity|lia|].
      rewrite length_app in Hf.
      assert (1 <= length (json.escape b))%nat.
      { unfold json.escape. repeat match goal with |- context [if ?c then _ else _] => destruct c end;
          cbn; lia. }
      lia.
  - (* multi-byte *)
    rewrite DecodeRune_firstn in Hf |- * by (unfold utf8.UTFMax; lia).
    destruct (utf8.DecodeRune (b :: tl)) as [c size] eqn:E.
    unfold valid_rune at 1.
    destruct ((c =? utf8.RuneError) && (size =? 1)%nat) eqn:V'; cbn [negb] in *;
      [assert (V : valid_rune c size = false) by (unfold valid_rune; rewrite V'; reflexivity)
      |assert (V : valid_rune c size = true) by (unfold valid_rune; rewrite V'; reflexivity)];
      clear V'; cycle 1.
    + assert (Hd : decoded (b :: tl) c size) by (apply DecodeRune_inv; [assumption..|discriminate]).
      destruct (decoded_sound _ _ _ Hd) as (Henc & Hsz & H4 & Happ).
      assert (Hlen : (length (skipn size (b :: tl)) <= f)%nat)
        by (rewrite length_skipn; cbn [length]; cbn [length] in Hsz; lia).
      destruct fuel' as [|f']; [lia|].
      destruct ((c =? 0x2028) || (c =? 0x2029)) eqn:Hsep.
      * apply orb_true_iff in Hsep.
        destruct Hsep as [Hc|Hc]; apply N.eqb_eq in Hc; subst c.
        -- change (json.hex (N.land 0x2028 0xF)) with x38 in *.
           match type of Hf with context [bytes ?x ++ _] =>
             change (bytes x) with [x5c; x75; x32; x30; x32] in *
           end.
           cbn [app length] in *.
           rewrite unquote_u2028, IH by lia.
           rewrite emit_Some, Henc. reflexivity.
        -- change (json.hex (N.land 0x2029 0xF)) with x39 in *.
           match type of Hf with context [bytes ?x ++ _] =>
             change (bytes x) with [x5c; x75; x32; x30; x32] in *
           end.
           cbn [app length] in *.
           rewrite unquote_u2029, IH by lia.
           rewrite emit_Some, Henc. reflexivity.
      * rewrite <- app_assoc.
        assert (Hcons : firstn size (b :: tl) = b :: firstn (size - 1) tl).
        { destruct size; [lia|]. cbn. rewrite Nat.sub_0_r. reflexivity. }
        rewrite Hcons at 1. cbn [app].
        rewrite unquote_multibyte by assumption.
        change (b :: (firstn (size - 1) tl ++ ?x)) with ((b :: firstn (size - 1) tl) ++ x).
        rewrite <- Hcons, Happ. cbn [fst snd].
        rewrite skipn_app, skipn_all2 by (rewrite length_firstn; lia).
        rewrite length_firstn. replace (size - Nat.min size (length (b :: tl)))%nat with 0%nat by lia.
        cbn [skipn app].
        rewrite length_app, length_firstn in Hf.
        rewrite skipn_O, (Nat.min_l size) in * by lia.
        rewrite IH by lia. rewrite emit_Some, Henc. reflexivity.
    + apply valid_rune_false in V. destruct V as [-> ->].
      cbn [skipn] in *.
      destruct fuel' as [|f']; [lia|].
      match type of Hf with context [bytes ?x ++ _] =>
        change (bytes x) with [x5c; x75; x66; x66; x66; x64] in *
      end.
      cbn [app length] in *. rewrite skipn_O in *.
      rewrite unquote_ufffd, IH by lia.
      reflexivity.
Qed.

Lemma toValidUTF8_loop_valid (fuel : nat) :
  forall s : list byte, utf8.Valid_loop fuel s = true -> toValidUTF8_loop fuel s = s.
Proof.
  induction fuel as [|f IH]; intros s H.
  - destruct s; [reflexivity|discriminate].
  - destruct s as [|b tl]; [reflexivity|].
    cbn [utf8.Valid_loop toValidUTF8_loop] in *.
    destruct (utf8.DecodeRune (b :: tl)) as [r size].
    unfold valid_rune.
    destruct ((r =? utf8.RuneError) && (size =? 1)%nat); [discriminate|].
    cbn [negb]. rewrite IH by assumption. apply firstn_skipn.
Qed.

Lemma toValidUTF8_valid (s : list byte) :
  utf8.Valid s = true -> toValidUTF8 s = s.
Proof. apply toValidUTF8_loop_valid. Qed.

Lemma unquote_loop_plain (s rest : list byte) :
  Forall plain s ->
  forall fuel, (length s < fuel)%nat ->
  json.unquote_loop fuel (s ++ x22 :: rest) = Some (s, rest).
Proof.
  induction 1 as [|c s Hc Hs IH]; intros fuel Hf.
  - destruct fuel; [cbn in Hf; lia|]. reflexivity.
  - destruct fuel as [|f]; [cbn in Hf; lia|]. cbn [length app] in *.
    destruct Hc as (? & ? & ?).
    rewrite unquote_plain by assumption. rewrite IH by lia. reflexivity.
Qed.

Lemma unquote_plain_text (s rest : list byte) :
  Forall plain s -> json.unquote (s ++ x22 :: rest) = Some (s, rest).
Proof.
  intros H. apply unquote_loop_plain; [assumption|]. rewrite length_app. cbn. lia.
Qed.

Lemma unquote_appendString (s rest : list byte) :
  json.unquote (json.appendString_loop (length s) s ++ x22 :: rest)
  = Some (toValidUTF8 s, rest).
Proof.
  apply unquote_appendString_loop; [lia|]. rewrite length_app. cbn. lia.
Qed.

(** ** encoding/base64: decoding undoes encoding *)

Lemma sextet_lt (val k : N) : base64.sextet val k < 64.
Proof. unfold base64.sextet. bits. lia. Qed.

Lemma decodeMap_encode (i : N) : i < 64 -> base64.decodeMap (base64.encode i) = Some i.
Proof.
  intros Hi.
  assert (H : forallb (fun j => match base64.decodeMap (base64.encode j) with
                                | Some k => k =? j
                                | None => false
                                end) (map N.of_nat (seq 0 64)) = true) by (vm_compute; reflexivity).
  rewrite forallb_forall in H. specialize (H i).
  destruct (base64.decodeMap (base64.encode i)) as [k|].
  - f_equal. apply N.eqb_eq, H. rewrite <- (N2Nat.id i). apply in_map, in_seq. lia.
  - discriminate H. rewrite <- (N2Nat.id i). apply in_map, in_seq. lia.
Qed.

Lemma encode_plain (i : N) : i < 64 -> plain (base64.encode i) /\ base64.isNewline (base64.encode i) = false.
Proof.
  intros Hi.
  assert (H : forallb (fun j => let c := Byte.to_N (base64.encode j) in
                 (0x20 <=? c) && (c <? 0x80) && negb (c =? 0x22) && negb (c =? 0x5C)
                 && negb (base64.isNewline (base64.encode j)))
                (map N.of_nat (seq 0 64)) = true) by (vm_compute; reflexivity).
  rewrite forallb_forall in H. specialize (H i).
  cbv zeta in H. unfold plain.
  assert (Hin : In i (map N.of_nat (seq 0 64))) by (rewrite <- (N2Nat.id i); apply in_map, in_seq; lia).
  specialize (H Hin). bool_to_prop. split; [lia|assumption].
Qed.

Lemma u8_eq_mod (n : N) (b : byte) : n mod 256 = Byte.to_N b -> u8 n = b.
Proof. intros H. apply to_N_inj. rewrite to_N_u8. exact H. Qed.

Lemma sextets_join (val : N) :
  val < 16777216 ->
  (val / 262144) mod 64 * 262144 + (val / 4096) mod 64 * 4096
  + (val / 64) mod 64 * 64 + (val / 1) mod 64 = val.
Proof. intros H. lia. Qed.

Lemma quantum_3 (a b c : byte) :
  let val := N.lor (N.lor (N.shiftl (Byte.to_N a) 16) (N.shiftl (Byte.to_N b) 8)) (Byte.to_N c) in
  base64.quantum (base64.sextet val 18) (base64.sextet val 12)
                 (base64.sextet val 6) (base64.sextet val 0) = (a, b, c).
Proof.
  pose proof (to_N_lt a). pose proof (to_N_lt b). pose proof (to_N_lt c).
  cbv zeta. unfold base64.quantum, base64.sextet.
  bits. lor_add. rewrite sextets_join by lia. repeat f_equal; apply u8_eq_mod; lia.
Qed.

Lemma quantum_2 (a b : byte) :
  let val := N.lor (N.shiftl (Byte.to_N a) 16) (N.shiftl (Byte.to_N b) 8) in
  exists o, base64.quantum (base64.sextet val 18) (base64.sextet val 12)
                           (base64.sextet val 6) 0 = (a, b, o).
Proof.
  pose proof (to_N_lt a). pose proof (to_N_lt b).
  cbv zeta. unfold base64.quantum, base64.sextet. eexists.
  bits. lor_add. rewrite N.add_0_r.
  replace (to_N a * 65536 + to_N b * 256) with (to_N a * 65536 + to_N b * 256 + 0) by lia.
  repeat f_equal; apply u8_eq_mod; lia.
Qed.

Lemma quantum_1 (a : byte) :
  let val := N.shiftl (Byte.to_N a) 16 in
  exists o1 o2, base64.quantum (base64.sextet val 18) (base64.sextet val 12) 0 0 = (a, o1, o2).
Proof.
  pose proof (to_N_lt a).
  cbv zeta. unfold base64.quantum, base64.sextet. do 2 eexists.
  bits. lor_add. repeat f_equal; apply u8_eq; lia.
Qed.

Lemma list_ind3 {A} (P : list A -> Prop) :
  P [] -> (forall a, P [a]) -> (forall a b, P [a; b]) ->
  (forall a b c l, P l -> P (a :: b :: c :: l)) ->
  forall l, P l.
Proof.
  intros H0 H1 H2 H3.
  fix IH 1. intros [|a [|b [|c l]]]; [apply H0 | apply H1 | apply H2 | apply H3, IH].
Qed.

Lemma Encode_chars (src : list byte) :
  Forall plain (base64.Encode src)
  /\ List.filter (fun c => negb (base64.isNewline c)) (base64.Encode src) = base64.Encode src.
Proof.
  assert (Hpad : plain base64.padChar /\ base64.isNewline base64.padChar = false)
    by (unfold plain; cbn; split; [lia|reflexivity]).
  destruct Hpad as [Hp Hn].
  induction src as [|a|a b|a b c l [IH1 IH2]] using list_ind3; cbn [base64.Encode].
  - split; [constructor|reflexivity].
  - split.
    + repeat match goal with
             | |- Forall _ (_ :: _) => constructor
             | |- Forall _ [] => constructor
             end; first [apply encode_plain, sextet_lt | exact Hp].
    + cbn [List.filter]. rewrite !(proj2 (encode_plain _ (sextet_lt _ _))), !Hn. reflexivity.
  - split.
    + repeat match goal with
             | |- Forall _ (_ :: _) => constructor
             | |- Forall _ [] => constructor
             end; first [apply encode_plain, sextet_lt | exact Hp].
    + cbn [List.filter]. rewrite !(proj2 (encode_plain _ (sextet_lt _ _))), !Hn. reflexivity.
  - split.
    + repeat match goal with
             | |- Forall _ (_ :: _) => constructor
             end; first [apply encode_plain, sextet_lt | assumption].
    + cbn [List.filter]. rewrite !(proj2 (encode_plain _ (sextet_lt _ _))). cbn [negb].
      rewrite IH2. reflexivity.
Qed.

Lemma decode_quanta_Encode (src : list byte) :
  base64.decode_quanta (base64.Encode src) = Some src.
Proof.
  assert (Hpad : base64.decodeMap base64.padChar = None) by reflexivity.
  induction src as [|a|a b|a b c l IH] using list_ind3; cbn [base64.Encode].
  - reflexivity.
  - cbn [base64.decode_quanta].
    rewrite !decodeMap_encode by apply sextet_lt. rewrite Hpad.
    change (Byte.eqb base64.padChar base64.padChar) with true. cbn [andb].
    destruct (quantum_1 a) as (o1 & o2 & ->). reflexivity.
  - cbn [base64.decode_quanta].
    rewrite !decodeMap_encode by apply sextet_lt. rewrite Hpad.
    change (Byte.eqb base64.padChar base64.padChar) with true. cbn [andb].
    destruct (quantum_2 a b) as (o & ->). reflexivity.
  - cbn [base64.decode_quanta].
    rewrite !decodeMap_encode by apply sextet_lt.
    rewrite quantum_3, IH. reflexivity.
Qed.

Lemma Decode_Encode (src : list byte) : base64.Decode (base64.Encode src) = Some src.
Proof.
  unfold base64.Decode. rewrite (proj2 (Encode_chars src)). apply decode_quanta_Encode.
Qed.

(** ** encoding/json: the scan does not run out of fuel *)

Section ScanFuel.
Local Open Scope nat_scope.

Lemma skipSpace_length (s : list byte) : length (json.skipSpace s) <= length s.
Proof.
  induction s as [|c s IH]; cbn; [lia|]. destruct (json.isSpace c); cbn; lia.
Qed.

Lemma skipSpace_cons (s tl : list byte) (c : byte) :
  json.skipSpace s = c :: tl -> length tl < length s.
Proof. intros H. pose proof (skipSpace_length s) as L. rewrite H in L. cbn in L. lia. Qed.

Lemma unquote_loop_length (fuel : nat) (s t rest : list byte) :
  json.unquote_loop fuel s = Some (t, rest) -> length rest <= length s.
Proof.
  revert s t rest. induction fuel as [|fuel IH]; intros s t rest;
    destruct s as [|c tl]; cbn [json.unquote_loop]; try discriminate.
  assert (E : forall out k u,
             json.emit out (json.unquote_loop fuel (skipn k u)) = Some (t, rest) ->
             length rest <= length u).
  { intros out k u H.
    destruct (json.unquote_loop fuel (skipn k u)) as [[t' r']|] eqn:Hr; cbn in H;
      [|discriminate].
    injection H as _ ->. apply IH in Hr. rewrite length_skipn in Hr. lia. }
  pose proof (fun out u => E out 0 u) as E0. cbn [skipn] in E0.
  destruct (Byte.eqb c x5c).
  - destruct tl as [|e tl2]; [discriminate|].
    destruct (json.unescape e).
    + intros H. apply E0 in H. cbn. lia.
    + destruct (Byte.eqb e x75); [|discriminate].
      destruct (json.getu4 _); [|discriminate].
      destruct (utf16.IsSurrogate _); [destruct (negb _)|];
        rewrite ?skipn_skipn; intros H; apply E in H; exact H.
  - destruct (Byte.eqb c x22).
    + intros [= _ <-]. cbn. lia.
    + destruct (_ <? 32)%N; [discriminate|].
      destruct (_ <? utf8.RuneSelf)%N.
      * intros H. apply E0 in H. cbn; lia.
      * destruct (utf8.DecodeRune _) as [rr size]. intros H. apply E in H. exact H.
Qed.

Lemma digits_length (s : list byte) : length (snd (json.digits s)) <= length s.
Proof.
  induction s as [|c s IH]; cbn; [lia|].
  destruct (json.isDigit c); [|cbn; lia].
  destruct (json.digits s) as [ds r]. cbn in *. lia.
Qed.

Lemma scanNumber_length (s lit rest : list byte) :
  json.scanNumber s = Some (lit, rest) -> length rest <= length s.
Proof.
  unfold json.scanNumber.
  set (p := match s with
            | c :: tl => if Byte.eqb c x2d then ([c], tl) else ([], s)
            | [] => ([], [])
            end).
  assert (Hp : length (snd p) <= length s).
  { subst p. destruct s as [|c tl]; [cbn; lia|]. destruct (Byte.eqb c x2d); cbn; lia. }
  destruct p as [sign s1]. cbn [snd] in Hp.
  match goal with |- match ?i with _ => _ end = _ -> _ => set (int := i) end.
  assert (Hi : forall ip s2, int = Some (ip, s2) -> length s2 <= length s).
  { subst int. intros ip s2. destruct s1 as [|c tl]; [discriminate|].
    destruct (Byte.eqb c x30); [intros [= _ <-]; cbn in *; lia|].
    destruct (json.isDigit c); [|discriminate].
    pose proof (digits_length tl) as L. destruct (json.digits tl) as [ds r].
    intros [= _ <-]. cbn in *. lia. }
  destruct int as [[ip s2]|]; [|discriminate]. specialize (Hi _ _ eq_refl).
  match goal with |- match ?i with _ => _ end = _ -> _ => set (frac := i) end.
  assert (Hf : forall fp s3, frac = Some (fp, s3) -> length s3 <= length s).
  { subst frac. intros fp s3. destruct s2 as [|c tl]; [intros [= _ <-]; cbn; lia|].
    destruct (Byte.eqb c x2e); [|intros [= _ <-]; exact Hi].
    pose proof (digits_length tl) as L. destruct (json.digits tl) as [[|d ds] r];
      [discriminate|]. intros [= _ <-]. cbn in *. lia. }
  destruct frac as [[fp s3]|]; [|discriminate]. specialize (Hf _ _ eq_refl).
  match goal with |- match ?i with _ => _ end = _ -> _ => set (exp := i) end.
  assert (He : forall ep s4, exp = Some (ep, s4) -> length s4 <= length s).
  { subst exp. intros ep s4. destruct s3 as [|c tl]; [intros [= _ <-]; cbn; lia|].
    destruct (Byte.eqb c x65 || Byte.eqb c x45); [|intros [= _ <-]; exact Hf].
    set (q := match tl with
              | d :: tl' =>
                  if Byte.eqb d x2b || Byte.eqb d x2d then ([d], tl') else ([], tl)
              | [] => ([], [])
              end).
    assert (Hq : length (snd q) <= length tl).
    { subst q. destruct tl as [|d tl']; [cbn; lia|].
      destruct (Byte.eqb d x2b || Byte.eqb d x2d); cbn; lia. }
    destruct q as [sg tl1]. cbn [snd] in Hq.
    pose proof (digits_length tl1) as L. destruct (json.digits tl1) as [[|d ds] r];
      [discriminate|]. intros [= _ <-]. cbn in *. lia. }
  destruct exp as [[ep s4]|]; [|discriminate]. intros [= _ <-]. eauto.
Qed.

Lemma stripPrefix_length (lit s r : list byte) :
  json.stripPrefix lit s = Some r -> length r <= length s.
Proof.
  revert s. induction lit as [|a lit IH]; intros s; cbn.
  - intros [= <-]. lia.
  - destruct s as [|b s]; [discriminate|]. destruct (Byte.eqb a b); [|discriminate].
    intros H. apply IH in H. cbn. lia.
Qed.

Lemma scanLiteral_length (s rest : list byte) (v : json.value) :
  json.scanLiteral s = Some (v, rest) -> length rest <= length s.
Proof.
  unfold json.scanLiteral.
  repeat match goal with
         | |- context [json.stripPrefix ?l s] =>
             let H := fresh in
             destruct (json.stripPrefix l s) eqn:H;
             [intros [= _ <-]; eapply stripPrefix_length; exact H|]
         end.
  discriminate.
Qed.

Lemma unquote_length (s t rest : list byte) :
  json.unquote s = Some (t, rest) -> length rest <= length s.
Proof. apply unquote_loop_length. Qed.

(** What is left after a value is no longer than what was there. *)
Lemma parse_length (fuel : nat) :
  (forall depth s v rest,
      json.parseValue fuel depth s = Some (v, rest) -> length rest <= length s)
  /\ (forall depth s ms rest,
      json.parseMembers fuel depth s = Some (ms, rest) -> length rest <= length s)
  /\ (forall depth s es rest,
      json.parseElements fuel depth s = Some (es, rest) -> length rest <= length s).
Proof.
  induction fuel as [|fuel (IHv & IHm & IHe)]; [repeat split; discriminate|].
  repeat split; intros depth s.
  - intros v rest. cbn [json.parseValue].
    destruct (json.skipSpace s) as [|c tl] eqn:Hs; [discriminate|].
    apply skipSpace_cons in Hs.
    destruct (Byte.eqb c x7b); [|destruct (Byte.eqb c x5b); [|destruct (Byte.eqb c x22);
      [|destruct (Byte.eqb c x2d || json.isDigit c)]]].
    + destruct (_ <=? depth)%N; [discriminate|].
      destruct (json.skipSpace tl) as [|c' tl'] eqn:Ht; [discriminate|].
      apply skipSpace_cons in Ht.
      destruct (Byte.eqb c' x7d); [intros [= _ <-]; lia|].
      destruct (json.parseMembers fuel _ tl) as [[ms r]|] eqn:Hm; [|discriminate].
      intros [= _ <-]. apply IHm in Hm. lia.
    + destruct (_ <=? depth)%N; [discriminate|].
      destruct (json.skipSpace tl) as [|c' tl'] eqn:Ht; [discriminate|].
      apply skipSpace_cons in Ht.
      destruct (Byte.eqb c' x5d); [intros [= _ <-]; lia|].
      destruct (json.parseElements fuel _ tl) as [[es r]|] eqn:He; [|discriminate].
      intros [= _ <-]. apply IHe in He. lia.
    + destruct (json.unquote tl) as [[t r]|] eqn:Hu; [|discriminate].
      intros [= _ <-]. apply unquote_length in Hu. lia.
    + destruct (json.scanNumber (c :: tl)) as [[lit r]|] eqn:Hn; [|discriminate].
      intros [= _ <-]. apply scanNumber_length in Hn. cbn in Hn. lia.
    + intros H. apply scanLiteral_length in H. cbn in H. lia.
  - intros ms rest. cbn [json.parseMembers].
    destruct (json.skipSpace s) as [|q tl] eqn:Hs; [discriminate|].
    apply skipSpace_cons in Hs.
    destruct (Byte.eqb q x22); [|discriminate].
    destruct (json.unquote tl) as [[key r1]|] eqn:Hu; [|discriminate].
    apply unquote_length in Hu.
    destruct (json.skipSpace r1) as [|colon r2] eqn:H1; [discriminate|].
    apply skipSpace_cons in H1.
    destruct (Byte.eqb colon x3a); [|discriminate].
    destruct (json.parseValue fuel depth r2) as [[v r3]|] eqn:Hv; [|discriminate].
    apply IHv in Hv.
    destruct (json.skipSpace r3) as [|sep r4] eqn:H3; [discriminate|].
    apply skipSpace_cons in H3.
    destruct (Byte.eqb sep x2c).
    + destruct (json.parseMembers fuel depth r4) as [[ms' r5]|] eqn:Hm; [|discriminate].
      intros [= _ <-]. apply IHm in Hm. lia.
    + destruct (Byte.eqb sep x7d); [|discriminate]. intros [= _ <-]. lia.
  - intros es rest. cbn [json.parseElements].
    destruct (json.parseValue fuel depth s) as [[v r1]|] eqn:Hv; [|discriminate].
    apply IHv in Hv.
    destruct (json.skipSpace r1) as [|sep r2] eqn:H1; [discriminate|].
    apply skipSpace_cons in H1.
    destruct (Byte.eqb sep x2c).
    + destruct (json.parseElements fuel depth r2) as [[es' r3]|] eqn:He; [|discriminate].
      intros [= _ <-]. apply IHe in He. lia.
    + destruct (Byte.eqb sep x5d); [|discriminate]. intros [= _ <-]. lia.
Qed.

(** Fuel that covers the input is never used up: more fuel gives the same
    result. *)
Lemma parse_fuel (fuel : nat) :
  (forall depth s fuel', 2 * length s <= fuel -> fuel <= fuel' ->
      json.parseValue fuel' depth s = json.parseValue fuel depth s)
  /\ (forall depth s fuel', 2 * length s <= fuel -> fuel <= fuel' ->
      json.parseMembers fuel' depth s = json.parseMembers fuel depth s)
  /\ (forall depth s fuel', 2 * length s + 1 <= fuel -> fuel <= fuel' ->
      json.parseElements fuel' depth s = json.parseElements fuel depth s).
Proof.
  induction fuel as [|fuel (IHv & IHm & IHe)].
  - repeat split; intros depth s fuel' Hs _; [| |lia];
      (destruct s; [|cbn in Hs; lia]); destruct fuel'; reflexivity.
  - repeat split; intros depth s [|fuel'] Hs Hf; try lia.
    + cbn [json.parseValue].
      destruct (json.skipSpace s) as [|c tl] eqn:Hk; [reflexivity|].
      apply skipSpace_cons in Hk.
      rewrite (IHm (depth + 1)%N tl fuel'), (IHe (depth + 1)%N tl fuel') by lia.
      reflexivity.
    + cbn [json.parseMembers].
      destruct (json.skipSpace s) as [|q tl] eqn:Hk; [reflexivity|].
      apply skipSpace_cons in Hk.
      destruct (Byte.eqb q x22); [|reflexivity].
      destruct (json.unquote tl) as [[key r1]|] eqn:Hu; [|reflexivity].
      apply unquote_length in Hu.
      destruct (json.skipSpace r1) as [|colon r2] eqn:H1; [reflexivity|].
      apply skipSpace_cons in H1.
      destruct (Byte.eqb colon x3a); [|reflexivity].
      rewrite (IHv depth r2 fuel') by lia.
      destruct (json.parseValue fuel depth r2) as [[v r3]|] eqn:Hv; [|reflexivity].
      apply (proj1 (parse_length fuel)) in Hv.
      destruct (json.skipSpace r3) as [|sep r4] eqn:H3; [reflexivity|].
      apply skipSpace_cons in H3.
      rewrite (IHm depth r4 fuel') by lia. reflexivity.
    + cbn [json.parseElements].
      rewrite (IHv depth s fuel') by lia.
      destruct (json.parseValue fuel depth s) as [[v r1]|] eqn:Hv; [|reflexivity].
      apply (proj1 (parse_length fuel)) in Hv.
      destruct (json.skipSpace r1) as [|sep r2] eqn:H1; [reflexivity|].
      apply skipSpace_cons in H1.
      rewrite (IHe depth r2 fuel') by lia. reflexivity.
Qed.

(** The scan of a document does not depend on its fuel. *)
Lemma parseValue_fuel (fuel : nat) (depth : N) (s : list byte) :
  json.fuelFor s <= fuel ->
  json.parseValue fuel depth s = json.parseValue (json.fuelFor s) depth s.
Proof.
  intros H. unfold json.fuelFor in *.
  rewrite (proj1 (parse_fuel (2 * length s)) depth s fuel) by lia.
  rewrite (proj1 (parse_fuel (2 * length s)) depth s (S (S (2 * length s)))) by lia.
  reflexivity.
Qed.

End ScanFuel.

(** ** encoding/json: the reader on the bytes [Marshal] writes *)

Lemma skipSpace_head (c : byte) (tl : list byte) :
  json.isSpace c = false -> json.skipSpace (c :: tl) = c :: tl.
Proof. intros H. cbn [json.skipSpace]. rewrite H. reflexivity. Qed.

Lemma appendString_app (s rest : list byte) :
  json.appendString s ++ rest
  = x22 :: json.appendString_loop (length s) s ++ x22 :: rest.
Proof. unfold json.appendString. cbn [app]. rewrite <- app_assoc. reflexivity. Qed.

Lemma encodeByteSlice_app (d rest : list byte) :
  json.encodeByteSlice d ++ rest = x22 :: base64.Encode d ++ x22 :: rest.
Proof. unfold json.encodeByteSlice. cbn [app]. rewrite <- app_assoc. reflexivity. Qed.

Lemma quoted_appendString (s : list byte) : quoted (json.appendString s) (toValidUTF8 s).
Proof.
  intros rest. eexists. split; [apply appendString_app|apply unquote_appendString].
Qed.

Lemma quoted_encodeByteSlice (d : list byte) :
  quoted (json.encodeByteSlice d) (base64.Encode d).
Proof.
  intros rest. eexists. split; [apply encodeByteSlice_app|].
  apply unquote_plain_text, Encode_chars.
Qed.

Lemma parseValue_quoted (txt t rest : list byte) (fuel : nat) (depth : N) :
  quoted txt t ->
  json.parseValue (S fuel) depth (txt ++ rest) = Some (json.Str t, rest).
Proof.
  intros H. destruct (H rest) as (body & -> & Hu).
  cbn [json.parseValue]. rewrite skipSpace_head by reflexivity.
  change (Byte.eqb x22 x7b) with false. change (Byte.eqb x22 x5b) with false.
  change (Byte.eqb x22 x22) with true. cbv iota. rewrite Hu. reflexivity.
Qed.

Lemma parseMembers_more (key k val t rest : list byte) (fuel : nat) (depth : N) :
  quoted key k -> quoted val t ->
  json.parseMembers (S (S fuel)) depth (key ++ x3a :: val ++ x2c :: rest)
  = match json.parseMembers (S fuel) depth rest with
    | Some (ms, r) => Some ((k, json.Str t) :: ms, r)
    | None => None
    end.
Proof.
  intros Hk Hv. destruct (Hk (x3a :: val ++ x2c :: rest)) as (body & -> & Hu).
  cbn [json.parseMembers]. rewrite skipSpace_head by reflexivity.
  change (Byte.eqb x22 x22) with true. cbv iota. rewrite Hu.
  rewrite skipSpace_head by reflexivity.
  change (Byte.eqb x3a x3a) with true. cbv iota.
  rewrite (parseValue_quoted val t) by assumption.
  rewrite skipSpace_head by reflexivity.
  change (Byte.eqb x2c x2c) with true. cbv iota. reflexivity.
Qed.

Lemma parseMembers_last (key k val t rest : list byte) (fuel : nat) (depth : N) :
  quoted key k -> quoted val t ->
  json.parseMembers (S (S fuel)) depth (key ++ x3a :: val ++ x7d :: rest)
  = Some ([(k, json.Str t)], rest).
Proof.
  intros Hk Hv. destruct (Hk (x3a :: val ++ x7d :: rest)) as (body & -> & Hu).
  cbn [json.parseMembers]. rewrite skipSpace_head by reflexivity.
  change (Byte.eqb x22 x22) with true. cbv iota. rewrite Hu.
  rewrite skipSpace_head by reflexivity.
  change (Byte.eqb x3a x3a) with true. cbv iota.
  rewrite (parseValue_quoted val t) by assumption.
  rewrite skipSpace_head by reflexivity.
  change (Byte.eqb x7d x2c) with false. change (Byte.eqb x7d x7d) with true.
  cbv iota. reflexivity.
Qed.

Lemma parseValue_object (tl : list byte) (fuel : nat) :
  (exists c tl', tl = c :: tl' /\ json.isSpace c = false /\ Byte.eqb c x7d = false) ->
  json.parseValue (S fuel) 0 (x7b :: tl)
  = match json.parseMembers fuel 1 tl with
    | Some (ms, r) => Some (json.Object ms, r)
    | None => None
    end.
Proof.
  intros (c & tl' & -> & Hs & Hc).
  cbn [json.parseValue]. rewrite skipSpace_head by reflexivity.
  change (Byte.eqb x7b x7b) with true. cbv iota.
  change (json.maxNestingDepth <=? 0) with false. cbv iota.
  rewrite skipSpace_head by assumption. rewrite Hc. reflexivity.
Qed.

Lemma key_content : quoted (json.appendString (bytes "content")) (bytes "content").
Proof. exact (quoted_appendString (bytes "content")). Qed.
Lemma key_content_type :
  quoted (json.appendString (bytes "content_type")) (bytes "content_type").
Proof. exact (quoted_appendString (bytes "content_type")). Qed.
Lemma key_data : quoted (json.appendString (bytes "data")) (bytes "data").
Proof. exact (quoted_appendString (bytes "data")). Qed.

Lemma string_bytes (s : string) : string_of_list_byte (bytes s) = s.
Proof. apply string_of_list_byte_of_string. Qed.

Lemma Marshal_bytes (C CT : string) (D : option (list byte)) :
  fst (Marshal {| Content := C; ContentType := CT; Data := D |})
  = x7b :: json.appendString (bytes "content") ++ x3a
        :: json.appendString (bytes C) ++ x2c
        :: json.appendString (bytes "content_type") ++ x3a
        :: json.appendString (bytes CT) ++ dataMember D [].
Proof.
  unfold Marshal, json.structEncode, dataMember.
  cbn [fst Content ContentType Data json.encodeFields json.omitEmpty
       json.isEmptyValue json.fname json.encoded andb].
  destruct D as [[|b l]|]; cbn [slice_len length Nat.eqb];
    change (Byte.eqb x2c x7b) with false; cbv iota;
    repeat first [rewrite <- app_assoc | progress cbn [app]]; reflexivity.
Qed.

Lemma fold_content : json.equalFold (bytes "content") "content" = true.
Proof. vm_compute. reflexivity. Qed.
Lemma fold_content_type_1 : json.equalFold (bytes "content_type") "content" = false.
Proof. vm_compute. reflexivity. Qed.
Lemma fold_content_type : json.equalFold (bytes "content_type") "content_type" = true.
Proof. vm_compute. reflexivity. Qed.
Lemma fold_data_1 : json.equalFold (bytes "data") "content" = false.
Proof. vm_compute. reflexivity. Qed.
Lemma fold_data_2 : json.equalFold (bytes "data") "content_type" = false.
Proof. vm_compute. reflexivity. Qed.
Lemma fold_data : json.equalFold (bytes "data") "data" = true.
Proof. vm_compute. reflexivity. Qed.

Lemma scan_Marshal (C CT : string) (D : option (list byte)) :
  json.scanDocument (fst (Marshal {| Content := C; ContentType := CT; Data := D |}))
  = Some (json.Object
      ((bytes "content", json.Str (toValidUTF8 (bytes C)))
       :: (bytes "content_type", json.Str (toValidUTF8 (bytes CT)))
       :: match D with
          | Some (b :: l) => [(bytes "data", json.Str (base64.Encode (b :: l)))]
          | _ => []
          end)).
Proof.
  unfold json.scanDocument. rewrite Marshal_bytes.
  set (T := json.appendString (bytes "content") ++ _).
  assert (Hlen : exists f, json.fuelFor (x7b :: T) = S (S (S (S (S (S f)))))).
  { unfold json.fuelFor. subst T. cbn [length]. rewrite length_app.
    change (length (json.appendString (bytes "content"))) with 9%nat.
    match goal with
    | |- context [(9 + ?n)%nat] => exists (2 * n + 16)%nat
    end. lia. }
  destruct Hlen as [f ->].
  rewrite parseValue_object; cycle 1.
  { subst T. rewrite appendString_app. do 2 eexists. split; [reflexivity|]. split; reflexivity. }
  subst T.
  rewrite (parseMembers_more _ _ _ _ _ _ _ key_content (quoted_appendString _)).
  destruct D as [[|b l]|]; unfold dataMember.
  - rewrite (parseMembers_last _ _ _ _ _ _ _ key_content_type (quoted_appendString _)).
    reflexivity.
  - rewrite (parseMembers_more _ _ _ _ _ _ _ key_content_type (quoted_appendString _)).
    rewrite (parseMembers_last _ _ _ _ _ _ _ key_data (quoted_encodeByteSlice _)).
    reflexivity.
  - rewrite (parseMembers_last _ _ _ _ _ _ _ key_content_type (quoted_appendString _)).
    reflexivity.
Qed.

(** [Marshal] never fails, and [Unmarshal] reads back from its bytes the
    value [readBack v], for every [v]. *)
Theorem Unmarshal_Marshal (v : DataValue) :
  snd (Marshal v) = None /\
  Unmarshal (fst (Marshal v)) zeroDataValue = (readBack v, None).
Proof.
  split; [reflexivity|].
  destruct v as [C CT D]. unfold Unmarshal. rewrite scan_Marshal.
  unfold unmarshalValue, readBack. cbn [Content ContentType Data].
  destruct D as [[|b l]|]; cbn [fold_left];
    repeat first
      [ progress cbn [storeMember json.storeString json.storeBytes
                      Content ContentType Data zeroDataValue]
      | rewrite fold_content | rewrite fold_content_type_1
      | rewrite fold_content_type | rewrite fold_data_1 | rewrite fold_data_2
      | rewrite fold_data | rewrite Decode_Encode ];
    reflexivity.
Qed.

(** ** The store operations in closed form *)

Lemma Commit_one (db : badger.DB) (key : list byte) (w : option (list byte)) :
  badger.Commit {| badger.txn_db := db; badger.pendingWrites := <[key := w]> ∅;
                   badger.update := true |}
  = badger.apply_write key w db.
Proof.
  unfold badger.Commit. cbn [badger.txn_db badger.pendingWrites].
  rewrite insert_empty. apply map_fold_singleton.
Qed.

Lemma Update_modify (key : list byte) (val : option (list byte)) (db : badger.DB) :
  badger.Update (badger.modify key val) db
  = match rejects key val with
    | Some e => (db, Some e)
    | None => (badger.apply_write key val db, None)
    end.
Proof.
  unfold badger.Update, badger.modify, rejects, badger.NewTransaction.
  cbn [badger.update negb badger.txn_db badger.pendingWrites].
  repeat match goal with |- context [if ?c then _ else _] => destruct c end;
    try reflexivity.
  rewrite Commit_one. reflexivity.
Qed.

Lemma storeValue_spec (key : string) (value : DataValue) (db : badger.DB) :
  storeValue key value db
  = match rejects (bytes key) (Some (fst (Marshal value))) with
    | Some e => (db, Some e)
    | None => (<[bytes key := fst (Marshal value)]> db, None)
    end.
Proof.
  unfold storeValue.
  change (fun txn => let '(data, err) := Marshal value in
                     match err with
                     | Some err => (txn, Some err)
                     | None => badger.Set_ (bytes key) data txn
                     end)
    with (badger.modify (bytes key) (Some (fst (Marshal value)))).
  apply Update_modify.
Qed.

Lemma deleteValue_spec (key : string) (db : badger.DB) :
  deleteValue key db
  = match rejects (bytes key) None with
    | Some e => (db, Some e)
    | None => (delete (bytes key) db, None)
    end.
Proof. unfold deleteValue. apply (Update_modify (bytes key) None). Qed.

Lemma bytes_nil (s : string) : bytes s = [] <-> s = ""%string.
Proof.
  split; [|intros ->; reflexivity].
  destruct s; [reflexivity|discriminate].
Qed.

Lemma len_bytes_0 (s : string) : (badger.len (bytes s) =? 0) = bool_decide (s = ""%string).
Proof.
  destruct s; [reflexivity|]. unfold badger.len, bytes.
  rewrite bool_decide_eq_false_2 by discriminate. apply N.eqb_neq.
  change (list_byte_of_string (String a s)) with (byte_of_ascii a :: list_byte_of_string s).
  cbn [length]. lia.
Qed.

Lemma bytes_inj (s t : string) : bytes s = bytes t -> s = t.
Proof.
  intros H. apply (f_equal string_of_list_byte) in H.
  unfold bytes in H. rewrite !string_of_list_byte_of_string in H. exact H.
Qed.

Lemma getValue_spec (key : string) (db : badger.DB) :
  getValue key db
  = (db, if bool_decide (key = ""%string) then (None, Some ErrEmptyKey)
         else fetched (db !! bytes key)).
Proof.
  unfold getValue, badger.View, badger.Get, badger.NewTransaction, fetched, badger.Value.
  cbn [badger.update badger.txn_db]. rewrite len_bytes_0.
  destruct (bool_decide (key = ""%string)); [reflexivity|].
  destruct (db !! bytes key) as [data|]; [|reflexivity].
  destruct (Unmarshal data zeroDataValue) as [dv [e|]]; reflexivity.
Qed.

Lemma rejects_None_key (key : string) (val : option (list byte)) :
  rejects (bytes key) val = None -> key <> ""%string.
Proof.
  unfold rejects. rewrite len_bytes_0. intros H ->. discriminate H.
Qed.

Lemma rejects_delete (key : list byte) :
  rejects key None = None <-> admits key = true.
Proof.
  unfold rejects, admits, badger.len. cbn [default length].
  destruct (N.eqb_spec (N.of_nat (length key)) 0); cbn [negb andb]; [split; discriminate|].
  destruct (badger.HasPrefix key badger.badgerPrefix); cbn [negb andb]; [split; discriminate|].
  destruct (N.ltb_spec badger.maxKeySize (N.of_nat (length key))),
           (N.leb_spec (N.of_nat (length key)) badger.maxKeySize); try lia;
    split; try discriminate; reflexivity.
Qed.

Lemma rejects_put_key (key val : list byte) :
  rejects key (Some val) = None -> rejects key None = None.
Proof.
  unfold rejects.
  change (badger.ValueLogFileSize <? badger.len (default [] None)) with false.
  repeat match goal with |- context [if ?c then _ else _] => destruct c end;
    try discriminate; reflexivity.
Qed.

Lemma rejects_not_found (key : list byte) (val : option (list byte)) :
  rejects key val <> Some ErrKeyNotFound.
Proof.
  unfold rejects.
  repeat match goal with |- context [if ?c then _ else _] => destruct c end;
    discriminate.
Qed.

Lemma fetched_Marshal (v : DataValue) :
  fetched (Some (fst (Marshal v))) = (Some (readBack v), None).
Proof.
  unfold fetched. rewrite (proj2 (Unmarshal_Marshal v)). reflexivity.
Qed.

(** ** The value codec *)

Lemma readBack_valid (v : DataValue) :
  validText (Content v) -> validText (ContentType v) ->
  readBack v = {| Content := Content v; ContentType := ContentType v;
                  Data := nonEmpty (Data v) |}.
Proof.
  unfold validText, readBack. intros HC HT.
  rewrite !toValidUTF8_valid, !string_bytes by assumption. reflexivity.
Qed.

Lemma nonEmpty_id (b : option (list byte)) : b <> Some [] -> nonEmpty b = b.
Proof. destruct b as [[|c l]|]; [congruence|reflexivity..]. Qed.

(** C1, counterexample.  The value that a PUT request with an empty body
    stores has a byte slice that is empty and not nil; the encoder leaves
    the member out ([omitempty]), and the decoder returns the nil slice:
    the distinction between an empty and an absent [Data] is lost. *)
Lemma codec_empty_binary_counterexample :
  Unmarshal (fst (Marshal emptyBody)) zeroDataValue
  = ({| Content := ""; ContentType := "application/octet-stream"; Data := None |}, None)
  /\ {| Content := ""; ContentType := "application/octet-stream"; Data := None |}
     <> emptyBody.
Proof. split; [vm_compute; reflexivity|discriminate]. Qed.

(** C1, as amended.  For every [DataValue] whose [Content] and
    [ContentType] are valid UTF-8, [Marshal] succeeds and [Unmarshal] of
    its bytes succeeds with the same [Content] and [ContentType]; [Data]
    is the same when it was absent or not empty, and absent when it was
    empty.  So the value read is the value written unless [Data] was an
    empty slice. *)
Theorem codec_roundtrip (v : DataValue) :
  validText (Content v) -> validText (ContentType v) ->
  snd (Marshal v) = None
  /\ Unmarshal (fst (Marshal v)) zeroDataValue
     = ({| Content := Content v; ContentType := ContentType v;
           Data := nonEmpty (Data v) |}, None)
  /\ (Data v <> Some [] -> Unmarshal (fst (Marshal v)) zeroDataValue = (v, None)).
Proof.
  intros HC HT. destruct (Unmarshal_Marshal v) as [Hm Hu].
  rewrite Hu, readBack_valid by assumption.
  split; [assumption|split; [reflexivity|]].
  intros Hd. rewrite nonEmpty_id by assumption. destruct v; reflexivity.
Qed.

(** C1, witness: a value with text and four bytes of data. *)
Lemma codec_roundtrip_witness :
  Unmarshal (fst (Marshal logo)) zeroDataValue = (logo, None).
Proof.
  apply (codec_roundtrip logo); [vm_compute; reflexivity | vm_compute; reflexivity | discriminate].
Defined.

(** ** The path store *)

Lemma put_success (p : string) (v : DataValue) (db : badger.DB) :
  snd (storeValue p v db) = None ->
  storeValue p v db = (<[bytes p := fst (Marshal v)]> db, None)
  /\ rejects (bytes p) (Some (fst (Marshal v))) = None.
Proof.
  rewrite storeValue_spec.
  destruct (rejects (bytes p) (Some (Marshal v).1)); [discriminate|auto].
Qed.

Lemma get_put (p : string) (v : DataValue) (db : badger.DB) :
  snd (storeValue p v db) = None ->
  snd (getValue p (fst (storeValue p v db))) = (Some (readBack v), None).
Proof.
  intros H. apply put_success in H. destruct H as [E R]. rewrite E. cbn [fst].
  rewrite getValue_spec. cbn [snd]. apply rejects_None_key in R.
  rewrite bool_decide_eq_false_2 by assumption.
  rewrite lookup_insert_eq. apply fetched_Marshal.
Qed.

(** C2, counterexample.  The put of a value with an empty byte slice
    succeeds, and the following get returns a value with no byte slice,
    which is not the value put. *)
Lemma read_after_write_counterexample :
  snd (storeValue "uploads/empty" emptyBody ∅) = None
  /\ snd (getValue "uploads/empty" (fst (storeValue "uploads/empty" emptyBody ∅)))
     = (Some {| Content := ""; ContentType := "application/octet-stream"; Data := None |},
        None)
  /\ {| Content := ""; ContentType := "application/octet-stream"; Data := None |}
     <> emptyBody.
Proof. split; [|split]; [vm_compute; reflexivity..|discriminate]. Qed.

(** C2, as amended.  For every path that is not empty and every value
    whose text fields are valid UTF-8: when [storeValue] returns no error,
    [getValue] on the store it leaves returns no error and a value with
    the same [Content] and [ContentType], and with the same [Data] except
    that an empty slice is returned as absent. *)
Theorem read_after_write (p : string) (v : DataValue) (db : badger.DB) :
  p <> ""%string -> validText (Content v) -> validText (ContentType v) ->
  snd (storeValue p v db) = None ->
  snd (getValue p (fst (storeValue p v db)))
  = (Some {| Content := Content v; ContentType := ContentType v;
             Data := nonEmpty (Data v) |}, None)
  /\ (Data v <> Some [] ->
      snd (getValue p (fst (storeValue p v db))) = (Some v, None)).
Proof.
  intros _ HC HT Hput.
  rewrite (get_put _ _ _ Hput), readBack_valid by assumption.
  split; [reflexivity|]. intros Hd. rewrite nonEmpty_id by assumption.
  destruct v; reflexivity.
Qed.

(** C2, witness: scenario B of the specification. *)
Lemma read_after_write_witness :
  snd (getValue "images/logo" (fst (storeValue "images/logo" logo ∅)))
  = (Some logo, None).
Proof.
  apply (read_after_write "images/logo" logo ∅);
    [discriminate | vm_compute; reflexivity | vm_compute; reflexivity
    | vm_compute; reflexivity | discriminate].
Defined.

Lemma put_put (p : string) (v1 v2 : DataValue) (db : badger.DB) :
  snd (storeValue p v1 db) = None ->
  snd (storeValue p v2 (fst (storeValue p v1 db))) = None ->
  storeValue p v2 (fst (storeValue p v1 db)) = storeValue p v2 db.
Proof.
  intros H1 H2. apply put_success in H1. destruct H1 as [E1 _]. rewrite E1 in *.
  cbn [fst] in *. rewrite !storeValue_spec in *.
  destruct (rejects (bytes p) (Some (Marshal v2).1)); [discriminate|].
  rewrite insert_insert_eq. reflexivity.
Qed.

(** C3, counterexample.  After a put and a second put, of a value with
    an empty byte slice, the get returns a value with no byte slice, which
    is not the second value. *)
Lemma overwrite_counterexample :
  snd (storeValue "uploads/file" logo ∅) = None
  /\ snd (storeValue "uploads/file" emptyBody (fst (storeValue "uploads/file" logo ∅))) = None
  /\ snd (getValue "uploads/file"
            (fst (storeValue "uploads/file" emptyBody
                    (fst (storeValue "uploads/file" logo ∅)))))
     = (Some {| Content := ""; ContentType := "application/octet-stream"; Data := None |},
        None)
  /\ {| Content := ""; ContentType := "application/octet-stream"; Data := None |}
     <> emptyBody.
Proof. repeat split; try (vm_compute; reflexivity). discriminate. Qed.

(** C3, as amended.  For every path that is not empty, every [v1] and
    every [v2] whose text fields are valid UTF-8: after a put of [v1] and
    a put of [v2] that both succeed, the get returns [v2] (an empty [Data]
    as absent), and the store is the one that the put of [v2] alone
    leaves: nothing of [v1] remains. *)
Theorem overwrite_last_write_wins (p : string) (v1 v2 : DataValue) (db : badger.DB) :
  p <> ""%string -> validText (Content v2) -> validText (ContentType v2) ->
  snd (storeValue p v1 db) = None ->
  snd (storeValue p v2 (fst (storeValue p v1 db))) = None ->
  let db2 := fst (storeValue p v2 (fst (storeValue p v1 db))) in
  snd (getValue p db2)
  = (Some {| Content := Content v2; ContentType := ContentType v2;
             Data := nonEmpty (Data v2) |}, None)
  /\ (Data v2 <> Some [] -> snd (getValue p db2) = (Some v2, None))
  /\ db2 = fst (storeValue p v2 db).
Proof.
  intros _ HC HT H1 H2 db2. subst db2.
  rewrite (get_put _ _ _ H2), readBack_valid by assumption.
  split; [reflexivity|split].
  - intros Hd. rewrite nonEmpty_id by assumption. destruct v2; reflexivity.
  - rewrite put_put by assumption. reflexivity.
Qed.

(** C3, witness: a text value overwritten by a binary one. *)
Lemma overwrite_last_write_wins_witness :
  snd (getValue "docs/readme"
         (fst (storeValue "docs/readme" logo (fst (storeValue "docs/readme" sample ∅)))))
  = (Some logo, None).
Proof.
  apply (overwrite_last_write_wins "docs/readme" sample logo ∅);
    [discriminate | vm_compute; reflexivity | vm_compute; reflexivity
    | vm_compute; reflexivity | vm_compute; reflexivity | discriminate].
Defined.

(** C4.  For every path that is not empty and every value: after a put
    that succeeds, the delete of the path succeeds, and the get that
    follows returns [ErrKeyNotFound] (and no value). *)
Theorem delete_visibility (p : string) (v : DataValue) (db : badger.DB) :
  p <> ""%string ->
  snd (storeValue p v db) = None ->
  snd (deleteValue p (fst (storeValue p v db))) = None
  /\ snd (getValue p (fst (deleteValue p (fst (storeValue p v db)))))
     = (None, Some ErrKeyNotFound).
Proof.
  intros Hp Hs. apply put_success in Hs. destruct Hs as [_ R].
  apply rejects_put_key in R. rewrite deleteValue_spec, R. cbn [fst snd].
  split; [reflexivity|].
  rewrite getValue_spec. cbn [snd].
  rewrite bool_decide_eq_false_2 by assumption.
  rewrite lookup_delete_eq. reflexivity.
Qed.

(** C4, witness. *)
Lemma delete_visibility_witness :
  snd (getValue "docs/readme"
         (fst (deleteValue "docs/readme" (fst (storeValue "docs/readme" sample ∅)))))
  = (None, Some ErrKeyNotFound).
Proof.
  apply (delete_visibility "docs/readme" sample ∅);
    [discriminate | vm_compute; reflexivity].
Defined.

(** ** Histories of store operations *)

Lemma perform_invariant (p : string) (o : operation) (db : badger.DB) (w : bool) :
  keys_admitted db -> (w = false -> db !! bytes p = None) ->
  keys_admitted (perform db o)
  /\ (mark p w o = false -> perform db o !! bytes p = None).
Proof.
  intros Hk Hw. destruct o as [q v|q|q]; cbn [perform mark].
  - rewrite storeValue_spec.
    destruct (rejects (bytes q) (Some (Marshal v).1)) eqn:R; cbn [fst].
    + split; [assumption|]. destruct (decide (q = p)); [discriminate|assumption].
    + split.
      * intros k [x Hx]. destruct (decide (bytes q = k)) as [<-|Hne].
        -- eapply rejects_put_key, R.
        -- rewrite lookup_insert_ne in Hx by assumption. apply Hk. eauto.
      * destruct (decide (q = p)) as [->|Hne]; [discriminate|].
        intros Hf. rewrite lookup_insert_ne; [auto|].
        intros E. apply bytes_inj in E. contradiction.
  - rewrite deleteValue_spec.
    destruct (rejects (bytes q) None) eqn:R; cbn [fst].
    + split; [assumption|]. destruct (decide (q = p)) as [->|Hne]; [|assumption].
      intros _. destruct (db !! bytes p) eqn:E; [|reflexivity].
      rewrite Hk in R by eauto. discriminate.
    + split.
      * intros k [x Hx]. destruct (decide (bytes q = k)) as [<-|Hne].
        -- rewrite lookup_delete_eq in Hx. discriminate.
        -- rewrite lookup_delete_ne in Hx by assumption. apply Hk. eauto.
      * destruct (decide (q = p)) as [->|Hne].
        -- intros _. apply lookup_delete_eq.
        -- intros Hf. rewrite lookup_delete_ne; [auto|].
           intros E. apply bytes_inj in E. contradiction.
  - rewrite getValue_spec. cbn [fst]. auto.
Qed.

Lemma unwritten_absent (p : string) (h : list operation) :
  forall (db : badger.DB) (w : bool),
    keys_admitted db -> (w = false -> db !! bytes p = None) ->
    fold_left (mark p) h w = false ->
    fold_left perform h db !! bytes p = None.
Proof.
  induction h as [|o h IH]; intros db w Hk Hw Hf; cbn [fold_left] in *.
  - auto.
  - destruct (perform_invariant p o db w Hk Hw) as [Hk' Hw'].
    eapply IH; eauto.
Qed.

Lemma get_absent (p : string) (db : badger.DB) :
  p <> ""%string -> db !! bytes p = None ->
  snd (getValue p db) = (None, Some ErrKeyNotFound).
Proof.
  intros Hp Ha. rewrite getValue_spec. cbn [snd].
  rewrite bool_decide_eq_false_2 by assumption. rewrite Ha. reflexivity.
Qed.

Lemma getValue_nil_error (p : string) (db : badger.DB) :
  snd (getValue p db) <> (None, None).
Proof.
  rewrite getValue_spec. cbn [snd]. destruct (bool_decide (p = ""%string)); [discriminate|].
  unfold fetched. destruct (db !! bytes p); [|discriminate].
  destruct (Unmarshal l zeroDataValue) as [? [?|]]; discriminate.
Qed.

Lemma getValue_store (p : string) (db : badger.DB) : fst (getValue p db) = db.
Proof. rewrite getValue_spec. reflexivity. Qed.

Lemma getValue_eta (p : string) (db : badger.DB) :
  getValue p db = (db, snd (getValue p db)).
Proof. rewrite getValue_spec. reflexivity. Qed.

(** C5.  For every path [p] that is not empty and every history of puts,
    deletes and gets on the empty store in which [p] was never put, or
    was deleted after its last put: the get of [p] returns
    [ErrKeyNotFound] with no value, and [handleGet] answers 404.  For
    every store, [handleGet] answers 404 exactly when the error of the
    get is [ErrKeyNotFound]: no other error is taken for it. *)
Theorem missing_key_not_found (p : string) (h : list operation) :
  p <> ""%string -> written p h = false ->
  snd (getValue p (after h)) = (None, Some ErrKeyNotFound)
  /\ (forall r,
        http.Code (fst (handleGet http.NewRecorder r p (after h)))
        = Some http.StatusNotFound)
  /\ (forall r db,
        http.Code (fst (handleGet http.NewRecorder r p db)) = Some http.StatusNotFound
        <-> snd (snd (getValue p db)) = Some ErrKeyNotFound).
Proof.
  intros Hp Hw.
  assert (Ha : after h !! bytes p = None).
  { eapply unwritten_absent; [| |exact Hw]; [intros k [x Hx]|intros _];
      rewrite lookup_empty in *; [discriminate|reflexivity]. }
  pose proof (get_absent p _ Hp Ha) as Hg.
  split; [exact Hg|split].
  - intros r. unfold handleGet. rewrite getValue_eta, Hg.
    rewrite decide_True by reflexivity. reflexivity.
  - intros r db. unfold handleGet. rewrite getValue_eta.
    pose proof (getValue_nil_error p db) as Hn.
    destruct (snd (getValue p db)) as [[value|] [err|]]; cbn [snd].
    + destruct (decide (err = ErrKeyNotFound)) as [->|Hne]; cbn; split; intros H;
        first [reflexivity | congruence | discriminate H].
    + destruct (0 <? slice_len (Data value))%nat; cbn; split; discriminate.
    + destruct (decide (err = ErrKeyNotFound)) as [->|Hne]; cbn; split; intros H;
        first [reflexivity | congruence | discriminate H].
    + congruence.
Qed.

(** C5, witness: a path that was put and then deleted. *)
Lemma missing_key_not_found_witness :
  snd (getValue "docs/readme"
         (after [OpPut "docs/readme" sample; OpPut "images/logo" logo;
                 OpDelete "docs/readme"; OpGet "images/logo"]))
  = (None, Some ErrKeyNotFound).
Proof.
  apply (missing_key_not_found "docs/readme"); [discriminate | vm_compute; reflexivity].
Defined.

(** ** The request handlers *)

(** C6.  When the get returns a value, the body of the response of
    [handleGet] is the [Data] of the value if it is not empty, whatever
    the [Content], and the bytes of the [Content] otherwise; the
    Content-Type header is the [ContentType] of the value, and the status
    is 200. *)
Theorem read_path_content_precedence
    (r : http.Request) (path : string) (db : badger.DB) (value : DataValue) :
  snd (getValue path db) = (Some value, None) ->
  let w := fst (handleGet http.NewRecorder r path db) in
  http.Written w
  = match Data value with
    | Some (b :: l) => b :: l
    | _ => bytes (Content value)
    end
  /\ http.Get (http.RespHeader w) "Content-Type" = ContentType value
  /\ http.Code w = Some http.StatusOK.
Proof.
  intros Hg w. subst w. unfold handleGet. rewrite getValue_eta, Hg.
  destruct value as [C CT [[|b l]|]]; cbn [Data ContentType Content slice_len length Nat.ltb Nat.leb default fst];
    repeat split; unfold http.Get, http.Write, http.SetHeader, http.WriteHeader, http.Set_;
    cbn [http.RespHeader http.Written http.Code http.NewRecorder app];
    rewrite ?lookup_insert_eq; reflexivity.
Qed.

(** C6, witness: a stored value with both text and binary data is served
    as its binary data. *)
Lemma read_path_content_precedence_witness :
  http.Written (fst (handleGet http.NewRecorder (request "GET" "images/logo" ∅ [])
                       "images/logo" (fst (storeValue "images/logo" both ∅))))
  = [x89; x50; x4e; x47].
Proof.
  apply (read_path_content_precedence (request "GET" "images/logo" ∅ []) "images/logo"
           (fst (storeValue "images/logo" both ∅)) both).
  vm_compute. reflexivity.
Defined.

(** C7.  When the body of a POST request decodes to a value whose
    [ContentType] is empty, [handlePost] answers 400 and returns the store
    as it was: the response is one of the two 400 errors that come before
    the call of [storeValue]. *)
Theorem post_requires_content_type (r : http.Request) (path : string) (db : badger.DB) :
  ContentType (fst (Decode (http.Body r) zeroDataValue)) = ""%string ->
  http.Code (fst (handlePost http.NewRecorder r path db)) = Some http.StatusBadRequest
  /\ snd (handlePost http.NewRecorder r path db) = db
  /\ forall w,
       handlePost w r path db
       = (http.Error (match snd (Decode (http.Body r) zeroDataValue) with
                      | Some _ => "Invalid JSON"
                      | None => "content_type is required"
                      end) http.StatusBadRequest w, db).
Proof.
  intros H. unfold handlePost.
  destruct (Decode (http.Body r) zeroDataValue) as [dv [err|]]; cbn [fst snd] in *.
  - repeat split; reflexivity.
  - rewrite decide_True by assumption. repeat split; intros;
      rewrite ?decide_True by assumption; reflexivity.
Qed.

(** C7, witness: the body is an object with a content and an empty
    content_type. *)
Lemma post_requires_content_type_witness :
  http.Code (fst (handlePost http.NewRecorder
                    (request "POST" "docs/readme" ∅
                       (x7b :: x22 :: bytes "content" ++ x22 :: x3a :: x22 :: bytes "hello"
                        ++ x22 :: x2c :: x22 :: bytes "content_type" ++ x22 :: x3a
                        :: x22 :: x22 :: [x7d]))
                    "docs/readme" ∅))
  = Some http.StatusBadRequest.
Proof.
  apply post_requires_content_type. vm_compute. reflexivity.
Defined.

Lemma Header_Get_absent (h : http.Header) (key : string) : h !! key = None -> http.Get h key = ""%string.
Proof. unfold http.Get. intros ->. reflexivity. Qed.

Lemma handlePut_store (w : http.ResponseWriter) (r : http.Request) (path : string)
    (db : badger.DB) :
  handlePut w r path db
  = match io.readError (http.Body r) with
    | Some _ => (http.Error "Failed to read body" http.StatusBadRequest w, db)
    | None =>
        match storeValue path (putValue r) db with
        | (db', Some _) =>
            (http.Error "Failed to store data" http.StatusInternalServerError w, db')
        | (db', None) =>
            (Encode [ ("status", "success");
                      ("message", "Data stored at path: " ++ path);
                      ("size", itoa (length (io.delivered (http.Body r))) ++ " bytes") ]%string
               (http.SetHeader "Content-Type" "application/json" w), db')
        end
    end.
Proof. unfold handlePut, io.ReadAll. destruct (io.readError (http.Body r)); reflexivity. Qed.

(** C8, counterexample.  Four PUT requests on the empty store.  With an
    empty body and no Content-Type the answer is 200 and the stored value
    has no [Data], not the empty body.  With the Content-Type 0xff, which
    is not valid UTF-8, the answer is 200 and the stored [ContentType] is
    U+FFFD, not the header.  To a path with the reserved prefix of the
    engine the answer is 500, and with a body that ends in an error it is
    400; nothing is stored in either case. *)
Lemma put_raw_body_counterexample :
  let stored (r : http.Request) (path : string) :=
    snd (getValue path (snd (handlePut http.NewRecorder r path ∅))) in
  let answer (r : http.Request) (path : string) :=
    http.Code (fst (handlePut http.NewRecorder r path ∅)) in
  let empty := request "PUT" "uploads/empty" ∅ [] in
  let odd := request "PUT" "blob" {[ "Content-Type"%string := [string_of_list_byte [xff]] ]}
               [x01] in
  let reserved := request "PUT" "!badger!x" ∅ [x01] in
  let cut :=
    {| http.Method := "PUT"; http.Vars := {[ "path"%string := "blob"%string ]};
       http.ReqHeader := ∅;
       http.Body := {| io.delivered := [x01]; io.ended := Some ErrUnexpectedEOF |} |} in
  (answer empty "uploads/empty"%string = Some http.StatusOK
   /\ stored empty "uploads/empty"%string
      = (Some {| Content := ""; ContentType := "application/octet-stream"; Data := None |},
         None))
  /\ (answer odd "blob"%string = Some http.StatusOK
      /\ stored odd "blob"%string
         = (Some {| Content := ""; ContentType := string_of_list_byte [xef; xbf; xbd];
                    Data := Some [x01] |}, None))
  /\ (answer reserved "!badger!x"%string = Some http.StatusInternalServerError
      /\ stored reserved "!badger!x"%string = (None, Some ErrKeyNotFound))
  /\ (answer cut "blob"%string = Some http.StatusBadRequest
      /\ stored cut "blob"%string = (None, Some ErrKeyNotFound)).
Proof. vm_compute. repeat split; reflexivity. Qed.

(** C8, as amended.  When [handlePut] answers 200, the body was read to
    its end and the value that [getValue] then returns at the path has an
    empty [Content]; its [Data] is the body of the request when the body
    is not empty, and nil when it is empty; its [ContentType] is the
    Content-Type header with every byte that is not part of a valid UTF-8
    encoding replaced by U+FFFD, so the header itself when it is not empty
    and valid UTF-8, and it is application/octet-stream when the header is
    empty or absent.  When [handlePut] answers anything else, the store is
    as it was. *)
Theorem put_raw_body_default (r : http.Request) (path : string) (db : badger.DB) :
  let header := http.Get (http.ReqHeader r) "Content-Type" in
  let body := io.delivered (http.Body r) in
  let answer := http.Code (fst (handlePut http.NewRecorder r path db)) in
  (answer = Some http.StatusOK ->
   exists value : DataValue,
     (forall w, snd (getValue path (snd (handlePut w r path db))) = (Some value, None))
     /\ io.ReadAll (http.Body r) = (body, None)
     /\ Content value = ""%string
     /\ Data value = match body with [] => None | _ :: _ => Some body end
     /\ ContentType value
        = string_of_list_byte
            (toValidUTF8 (bytes (if decide (header = ""%string)
                                 then "application/octet-stream"%string else header)))
     /\ (header <> ""%string -> validText header -> ContentType value = header)
     /\ (header = ""%string -> ContentType value = "application/octet-stream"%string)
     /\ (http.ReqHeader r !! "Content-Type"%string = None ->
         ContentType value = "application/octet-stream"%string))
  /\ (answer <> Some http.StatusOK ->
      forall w, snd (handlePut w r path db) = db).
Proof.
  intros header body answer. subst answer. split.
  - rewrite handlePut_store.
    destruct (io.readError (http.Body r)) as [e|] eqn:Hr; [discriminate|].
    destruct (storeValue path (putValue r) db) as [db' [failure|]] eqn:Hs; [discriminate|].
    intros _.
    assert (Hs' : snd (storeValue path (putValue r) db) = None) by (rewrite Hs; reflexivity).
    pose proof (get_put path (putValue r) db Hs') as Hg. rewrite Hs in Hg. cbn [fst] in Hg.
    exists (readBack (putValue r)). split.
    { intros w. rewrite handlePut_store, Hr, Hs. exact Hg. }
    split; [unfold io.ReadAll; rewrite Hr; reflexivity|].
    split; [reflexivity|].
    split; [unfold readBack, putValue; cbn [Data nonEmpty]; fold body; destruct body;
            reflexivity|].
    assert (Hct : ContentType (readBack (putValue r))
                  = string_of_list_byte
                      (toValidUTF8 (bytes (if decide (header = ""%string)
                                           then "application/octet-stream"%string
                                           else header)))) by reflexivity.
    split; [exact Hct|]. rewrite Hct.
    split; [|split].
    + intros Hne Hv. rewrite decide_False by assumption.
      rewrite toValidUTF8_valid by exact Hv. apply string_bytes.
    + intros He. rewrite decide_True by assumption. reflexivity.
    + intros Ha. rewrite decide_True by (subst header; apply Header_Get_absent, Ha).
      reflexivity.
  - intros Hne w. rewrite handlePut_store in *.
    destruct (io.readError (http.Body r)); [reflexivity|].
    rewrite storeValue_spec in *.
    destruct (rejects (bytes path) (Some (Marshal (putValue r)).1)); [reflexivity|].
    contradiction Hne. reflexivity.
Qed.

(** C8, witness: a PUT of four bytes as image/png is answered 200, and
    the get returns these bytes and this content type. *)
Lemma put_raw_body_default_witness :
  let r := request "PUT" "images/logo" {[ "Content-Type"%string := ["image/png"%string] ]}
             [x89; x50; x4e; x47] in
  snd (getValue "images/logo" (snd (handlePut http.NewRecorder r "images/logo" ∅)))
  = (Some {| Content := ""; ContentType := "image/png"; Data := Some [x89; x50; x4e; x47] |},
     None).
Proof.
  intros r.
  destruct (put_raw_body_default r "images/logo" ∅) as [H _].
  destruct H as (value & Hg & _ & HC & HD & _ & HT & _); [vm_compute; reflexivity|].
  rewrite Hg. destruct value as [C CT D]. cbn [Content Data ContentType] in *.
  rewrite HC, HD, HT; [reflexivity | discriminate | vm_compute; reflexivity].
Defined.

(** C9.  [getValue] returns the store it was given: every key has the
    value, or the absence, it had before; so does [handleGet]. *)
Theorem get_is_side_effect_free (p : string) (db : badger.DB) :
  fst (getValue p db) = db
  /\ (forall k, fst (getValue p db) !! k = db !! k)
  /\ (forall w r, snd (handleGet w r p db) = db).
Proof.
  split; [apply getValue_store|split].
  - intros k. rewrite getValue_store. reflexivity.
  - intros w r. unfold handleGet. rewrite getValue_eta.
    destruct (snd (getValue p db)) as [[value|] [err|]].
    + destruct (decide (err = ErrKeyNotFound)); reflexivity.
    + destruct (0 <? slice_len (Data value))%nat; reflexivity.
    + destruct (decide (err = ErrKeyNotFound)); reflexivity.
    + reflexivity.
Qed.

(** C10, counterexample.  A key with the reserved prefix of the engine is
    refused by [txn.Delete]: [deleteValue] returns [ErrInvalidKey], not
    success. *)
Lemma delete_reserved_key_counterexample :
  snd (deleteValue "!badger!x" ∅) = Some ErrInvalidKey
  /\ Some ErrInvalidKey <> (None : option error).
Proof. split; [vm_compute; reflexivity|discriminate]. Qed.

Lemma handleDelete_404 (r : http.Request) (key : string) (db : badger.DB) :
  http.Code (fst (handleDelete http.NewRecorder r key db)) = Some http.StatusNotFound
  <-> snd (snd (getValue key db)) = Some ErrKeyNotFound.
Proof.
  unfold handleDelete. rewrite getValue_eta.
  destruct (snd (getValue key db)) as [value [err|]]; cbn [snd].
  - destruct (decide (err = ErrKeyNotFound)) as [->|Hne]; cbn; split; intros H;
      first [reflexivity | congruence | discriminate H].
  - destruct (deleteValue key db) as [db' [e|]]; cbn; split; discriminate.
Qed.

(** C10, as amended.  For every key that the engine admits (not empty,
    without the reserved prefix, at most 65000 bytes), [deleteValue]
    succeeds whether or not the key holds a value; on an absent key it
    leaves the store as it was, and [handleDelete] answers 404 without
    changing the store.  For no key does [deleteValue] return
    [ErrKeyNotFound], and for every key [handleDelete] answers 404 exactly
    when the error of its get is [ErrKeyNotFound]. *)
Theorem delete_absent_is_noop (key : string) (db : badger.DB) :
  admits (bytes key) = true ->
  deleteValue key db = (delete (bytes key) db, None)
  /\ (db !! bytes key = None ->
      deleteValue key db = (db, None)
      /\ forall w r,
           handleDelete w r key db
           = (http.Error ("Path '" ++ key ++ "' not found") http.StatusNotFound w, db))
  /\ (forall key' db', snd (deleteValue key' db') = Some ErrKeyNotFound -> False)
  /\ (forall r key' db',
        http.Code (fst (handleDelete http.NewRecorder r key' db'))
        = Some http.StatusNotFound
        <-> snd (snd (getValue key' db')) = Some ErrKeyNotFound).
Proof.
  intros Ha. assert (R := proj2 (rejects_delete (bytes key)) Ha).
  assert (Hk : key <> ""%string) by (eapply rejects_None_key, R).
  assert (Hd : deleteValue key db = (delete (bytes key) db, None))
    by (rewrite deleteValue_spec, R; reflexivity).
  split; [exact Hd|split; [|split]].
  - intros Hn. split.
    + rewrite Hd, delete_id by assumption. reflexivity.
    + intros w r. unfold handleDelete. rewrite getValue_eta, (get_absent key db Hk Hn).
      rewrite decide_True by reflexivity. reflexivity.
  - intros key' db'. rewrite deleteValue_spec.
    pose proof (rejects_not_found (bytes key') None).
    destruct (rejects (bytes key') None); cbn [snd]; congruence.
  - intros r key' db'. apply handleDelete_404.
Qed.

(** C10, witness: the delete of an absent key on the empty store. *)
Lemma delete_absent_is_noop_witness :
  deleteValue "docs/readme" ∅ = (∅, None).
Proof.
  destruct (delete_absent_is_noop "docs/readme" ∅) as (_ & H & _);
    [vm_compute; reflexivity|].
  apply H, lookup_empty.
Defined.

(** ** Further properties *)

(** The codec in general: [Marshal] never fails, and [Unmarshal] of the
    bytes it writes for [v] never fails and returns [v] with every byte of
    [Content] and [ContentType] that is not part of a valid UTF-8 encoding
    replaced by U+FFFD and with an empty [Data] replaced by the nil
    slice. *)
Theorem codec_normal_form (v : DataValue) :
  snd (Marshal v) = None
  /\ Unmarshal (fst (Marshal v)) zeroDataValue = (readBack v, None).
Proof. apply Unmarshal_Marshal. Qed.

(** [getValue] returns a value or an error, never a nil pointer without an
    error: [handleGet] does not dereference nil. *)
Theorem getValue_value_or_error (p : string) (db : badger.DB) :
  (exists v, snd (getValue p db) = (Some v, None))
  \/ (exists e, snd (getValue p db) = (None, Some e)).
Proof.
  rewrite getValue_spec. cbn [snd]. destruct (bool_decide (p = ""%string)); [eauto|].
  unfold fetched. destruct (db !! bytes p) as [data|]; [|eauto].
  destruct (Unmarshal data zeroDataValue) as [dv [e|]]; eauto.
Qed.

(** A put and a delete at one path leave the value at every other path as
    it was. *)
Theorem other_paths_unchanged (p q : string) (v : DataValue) (db : badger.DB) :
  p <> q ->
  snd (getValue q (fst (storeValue p v db))) = snd (getValue q db)
  /\ snd (getValue q (fst (deleteValue p db))) = snd (getValue q db).
Proof.
  intros Hne.
  assert (Hb : bytes p <> bytes q) by (intros E; apply bytes_inj in E; contradiction).
  rewrite storeValue_spec, deleteValue_spec, !getValue_spec.
  destruct (rejects (bytes p) (Some (Marshal v).1)), (rejects (bytes p) None);
    cbn [fst snd]; rewrite ?lookup_insert_ne, ?lookup_delete_ne by assumption;
    split; reflexivity.
Qed.

Lemma other_paths_unchanged_witness :
  snd (getValue "docs/readme" (fst (storeValue "images/logo" logo (after [OpPut "docs/readme" sample]))))
  = snd (getValue "docs/readme" (after [OpPut "docs/readme" sample])).
Proof.
  destruct (other_paths_unchanged "images/logo" "docs/readme" logo
              (after [OpPut "docs/readme" sample])) as [H _]; [discriminate|].
  exact H.
Defined.

(** A request without a path is answered 400 and a request with a method
    other than GET, POST, PUT and DELETE 405; neither changes the store. *)
Theorem handlePath_rejections (w : http.ResponseWriter) (r : http.Request) (db : badger.DB) :
  (default ""%string (http.Vars r !! "path"%string) = ""%string ->
   handlePath w r db = (http.Error "Path is required" http.StatusBadRequest w, db))
  /\ (default ""%string (http.Vars r !! "path"%string) <> ""%string ->
      http.Method r <> "GET"%string -> http.Method r <> "POST"%string ->
      http.Method r <> "PUT"%string -> http.Method r <> "DELETE"%string ->
      handlePath w r db
      = (http.Error "Method not allowed" http.StatusMethodNotAllowed w, db)).
Proof.
  unfold handlePath. split.
  - intros H. rewrite decide_True by assumption. reflexivity.
  - intros H H1 H2 H3 H4. rewrite !decide_False by assumption. reflexivity.
Qed.

(** The errors of a GET: 404 with the path in the message when the get
    reports [ErrKeyNotFound], 500 for every other error of the get; stored
    bytes that are not one JSON document are such an error. *)
Theorem handleGet_errors (w : http.ResponseWriter) (r : http.Request) (path : string)
    (db : badger.DB) :
  (snd (snd (getValue path db)) = Some ErrKeyNotFound ->
   handleGet w r path db
   = (http.Error ("Path '" ++ path ++ "' not found") http.StatusNotFound w, db))
  /\ (forall e, snd (snd (getValue path db)) = Some e -> e <> ErrKeyNotFound ->
      handleGet w r path db
      = (http.Error "Database error" http.StatusInternalServerError w, db))
  /\ (forall data, path <> ""%string -> db !! bytes path = Some data ->
      json.scanDocument data = None ->
      handleGet w r path db
      = (http.Error "Database error" http.StatusInternalServerError w, db)).
Proof.
  assert (H404 : snd (snd (getValue path db)) = Some ErrKeyNotFound ->
                 handleGet w r path db
                 = (http.Error ("Path '" ++ path ++ "' not found") http.StatusNotFound w, db)).
  { unfold handleGet. rewrite getValue_eta.
    destruct (snd (getValue path db)) as [value [err|]]; cbn [snd]; [|discriminate].
    intros [= ->]. rewrite decide_True by reflexivity. destruct value; reflexivity. }
  assert (H500 : forall e, snd (snd (getValue path db)) = Some e -> e <> ErrKeyNotFound ->
                 handleGet w r path db
                 = (http.Error "Database error" http.StatusInternalServerError w, db)).
  { intros e. unfold handleGet. rewrite getValue_eta.
    destruct (snd (getValue path db)) as [value [err|]]; cbn [snd]; [|discriminate].
    intros [= ->] Hne. rewrite decide_False by assumption. destruct value; reflexivity. }
  split; [exact H404|split; [exact H500|]].
  intros data Hp Hd Hs. apply (H500 SyntaxError); [|discriminate].
  rewrite getValue_spec. cbn [snd]. rewrite bool_decide_eq_false_2 by assumption.
  unfold fetched. rewrite Hd. unfold Unmarshal. rewrite Hs. reflexivity.
Qed.

(** A DELETE after a put that succeeded answers 200 and removes the path;
    a second DELETE answers 404 from the check of [handleDelete] and
    leaves the store as it is. *)
Theorem delete_twice (r : http.Request) (p : string) (v : DataValue) (db : badger.DB) :
  snd (storeValue p v db) = None ->
  let once := handleDelete http.NewRecorder r p (fst (storeValue p v db)) in
  http.Code (fst once) = Some http.StatusOK
  /\ snd once = delete (bytes p) db
  /\ forall w,
       handleDelete w r p (snd once)
       = (http.Error ("Path '" ++ p ++ "' not found") http.StatusNotFound w, snd once).
Proof.
  intros Hs once.
  assert (Hg := get_put p v db Hs).
  apply put_success in Hs. destruct Hs as [E R].
  assert (Hp : p <> ""%string) by (eapply rejects_None_key, R).
  apply rejects_put_key in R.
  assert (Ho : once = (http.Write (encodeMap [("status", "success");
                                               ("message", "Data deleted at path: " ++ p)]%string)
                         (http.SetHeader "Content-Type" "application/json" http.NewRecorder),
                       delete (bytes p) db)).
  { subst once. unfold handleDelete. rewrite getValue_eta, Hg.
    rewrite deleteValue_spec, R, E. cbn [fst snd]. rewrite delete_insert_eq. reflexivity. }
  rewrite Ho. cbn [fst snd]. split; [reflexivity|split; [reflexivity|]].
  intros w. unfold handleDelete. rewrite getValue_eta.
  rewrite (get_absent p _ Hp (lookup_delete_eq db (bytes p))).
  rewrite decide_True by reflexivity. reflexivity.
Qed.

Lemma delete_twice_witness :
  http.Code (fst (handleDelete http.NewRecorder (request "DELETE" "docs/readme" ∅ [])
                    "docs/readme" (fst (storeValue "docs/readme" sample ∅))))
  = Some http.StatusOK.
Proof.
  destruct (delete_twice (request "DELETE" "docs/readme" ∅ []) "docs/readme" sample ∅)
    as [H _]; [vm_compute; reflexivity|].
  exact H.
Defined.

(** *** Text that the decoder returns is valid UTF-8 *)

Lemma wellFormed_Valid (t : list byte) : wellFormed t -> utf8.Valid t = true.
Proof. intros H. apply H. lia. Qed.

Lemma wellFormed_nil : wellFormed [].
Proof. intros [|fuel] _; reflexivity. Qed.

Lemma wellFormed_chunk (c q : list byte) (r : N) (size : nat) :
  c <> [] -> length c = size ->
  utf8.DecodeRune (c ++ q) = (r, size) -> valid_rune r size = true ->
  wellFormed q -> wellFormed (c ++ q).
Proof.
  intros Hc Hl Hd Hv Hq fuel Hf.
  destruct c as [|b c]; [contradiction|]. cbn [app length] in *.
  destruct fuel as [|fuel]; [lia|].
  cbn [utf8.Valid_loop].
  rewrite Hd. unfold valid_rune in Hv. apply negb_true_iff in Hv. rewrite Hv.
  assert (Hsk : skipn size (b :: c ++ q) = q).
  { rewrite <- Hl. change (S (length c)) with (length (b :: c)).
    change (b :: c ++ q) with ((b :: c) ++ q).
    rewrite skipn_app, skipn_all, Nat.sub_diag. reflexivity. }
  rewrite Hsk.
  apply Hq. rewrite length_app in Hf. lia.
Qed.

Lemma EncodeRune_chunk (r : N) (q : list byte) :
  exists r' size,
    utf8.EncodeRune r <> [] /\ length (utf8.EncodeRune r) = size
    /\ utf8.DecodeRune (utf8.EncodeRune r ++ q) = (r', size)
    /\ valid_rune r' size = true.
Proof.
  assert (Herr : forall x, utf8.EncodeRune x = [xef; xbf; xbd] ->
            exists r' size,
              utf8.EncodeRune x <> [] /\ length (utf8.EncodeRune x) = size
              /\ utf8.DecodeRune (utf8.EncodeRune x ++ q) = (r', size)
              /\ valid_rune r' size = true).
  { intros x ->. do 2 eexists. split; [discriminate|]. split; [reflexivity|].
    split; [apply DecodeRune_3|reflexivity].
    - right. left. cbn. lia.
    - cbn. lia. }
  destruct (N.le_gt_cases r 0x7F) as [H1|H1].
  { rewrite EncodeRune_1 by assumption. do 2 eexists.
    split; [discriminate|]. split; [reflexivity|].
    assert (Hb : Byte.to_N (u8 r) = r) by (rewrite to_N_u8; lia).
    split; [apply DecodeRune_1; lia|].
    rewrite Hb. unfold valid_rune.
    destruct (N.eqb_spec r utf8.RuneError) as [E|E]; [|reflexivity].
    unfold utf8.RuneError in E. lia. }
  destruct (N.le_gt_cases r 0x7FF) as [H2|H2].
  { rewrite EncodeRune_2 by lia. do 2 eexists.
    split; [discriminate|]. split; [reflexivity|].
    split; [apply DecodeRune_2; rewrite to_N_u8; lia|].
    unfold valid_rune. rewrite andb_false_r. reflexivity. }
  destruct (N.le_gt_cases r 0xFFFF) as [H3|H3].
  { destruct (N.le_gt_cases 0xD800 r) as [Ha|Ha];
      [destruct (N.le_gt_cases r 0xDFFF) as [Hb|Hb]|].
    - apply Herr. unfold utf8.EncodeRune.
      destruct (N.leb_spec r utf8.rune1Max); [unfold utf8.rune1Max in *; lia|].
      destruct (N.leb_spec r utf8.rune2Max); [unfold utf8.rune2Max in *; lia|].
      destruct (N.leb_spec utf8.surrogateMin r); [|unfold utf8.surrogateMin in *; lia].
      destruct (N.leb_spec r utf8.surrogateMax); [|unfold utf8.surrogateMax in *; lia].
      rewrite orb_true_r. reflexivity.
    - rewrite EncodeRune_3 by lia. do 2 eexists.
      split; [discriminate|]. split; [reflexivity|].
      split; [apply DecodeRune_3; [unfold lead3|]; rewrite ?to_N_u8; lia|].
      unfold valid_rune. rewrite andb_false_r. reflexivity.
    - rewrite EncodeRune_3 by lia. do 2 eexists.
      split; [discriminate|]. split; [reflexivity|].
      split; [apply DecodeRune_3; [unfold lead3|]; rewrite ?to_N_u8; lia|].
      unfold valid_rune. rewrite andb_false_r. reflexivity. }
  destruct (N.le_gt_cases r 0x10FFFF) as [H4|H4].
  { rewrite EncodeRune_4 by lia. do 2 eexists.
    split; [discriminate|]. split; [reflexivity|].
    split; [apply DecodeRune_4; [unfold lead4| |]; rewrite ?to_N_u8; lia|].
    unfold valid_rune. rewrite andb_false_r. reflexivity. }
  apply Herr. unfold utf8.EncodeRune.
  destruct (N.leb_spec r utf8.rune1Max); [unfold utf8.rune1Max in *; lia|].
  destruct (N.leb_spec r utf8.rune2Max); [unfold utf8.rune2Max in *; lia|].
  destruct (N.ltb_spec utf8.MaxRune r); [|unfold utf8.MaxRune in *; lia].
  reflexivity.
Qed.

Lemma wellFormed_rune (r : N) (q : list byte) :
  wellFormed q -> wellFormed (utf8.EncodeRune r ++ q).
Proof.
  intros Hq. destruct (EncodeRune_chunk r q) as (r' & size & Hn & Hl & Hd & Hv).
  eapply wellFormed_chunk; eassumption.
Qed.

Lemma wellFormed_ascii (c : byte) (q : list byte) :
  Byte.to_N c < 0x80 -> wellFormed q -> wellFormed (c :: q).
Proof.
  intros Hc Hq. pose proof (wellFormed_rune (Byte.to_N c) q Hq) as H.
  rewrite EncodeRune_1, u8_to_N in H by lia. exact H.
Qed.

Lemma toValidUTF8_loop_wellFormed (fuel : nat) :
  forall s, wellFormed (toValidUTF8_loop fuel s).
Proof.
  induction fuel as [|fuel IH]; intros [|c tl]; cbn [toValidUTF8_loop];
    try apply wellFormed_nil.
  destruct (utf8.DecodeRune (c :: tl)) as [r size] eqn:E.
  destruct (valid_rune r size) eqn:V.
  - apply DecodeRune_inv in E; [|exact V|discriminate].
    apply decoded_sound in E. destruct E as (<- & _).
    apply wellFormed_rune, IH.
  - apply wellFormed_rune, IH.
Qed.

Lemma toValidUTF8_wellFormed (s : list byte) : utf8.Valid (toValidUTF8 s) = true.
Proof. apply wellFormed_Valid, toValidUTF8_loop_wellFormed. Qed.

Lemma unescape_ascii (e b : byte) : json.unescape e = Some b -> Byte.to_N b < 0x80.
Proof.
  unfold json.unescape.
  repeat match goal with |- context [if ?c then _ else _] => destruct c end;
    intros [= <-]; cbn; lia.
Qed.

Lemma emit_wellFormed (out : list byte) (r : option (list byte * list byte))
    (t rest : list byte) :
  json.emit out r = Some (t, rest) ->
  (forall q, wellFormed q -> wellFormed (out ++ q)) ->
  (forall t', r = Some (t', rest) -> wellFormed t') ->
  wellFormed t.
Proof.
  destruct r as [[t' rest']|]; cbn [json.emit]; [|discriminate].
  intros [= <- <-] Ho Ht. apply Ho, Ht. reflexivity.
Qed.

Lemma unquote_loop_wellFormed (fuel : nat) :
  forall s t rest, json.unquote_loop fuel s = Some (t, rest) -> wellFormed t.
Proof.
  induction fuel as [|fuel IH]; intros s t rest;
    destruct s as [|c tl]; cbn [json.unquote_loop]; try discriminate.
  assert (E : forall r u, json.emit (utf8.EncodeRune r) (json.unquote_loop fuel u)
                          = Some (t, rest) -> wellFormed t).
  { intros r u H. eapply emit_wellFormed; [exact H|apply wellFormed_rune|].
    intros t' Ht'. eapply IH, Ht'. }
  assert (A : forall b u, Byte.to_N b < 0x80 ->
                json.emit [b] (json.unquote_loop fuel u) = Some (t, rest) -> wellFormed t).
  { intros b u Hb H. eapply emit_wellFormed; [exact H| |].
    - intros q Hq. apply wellFormed_ascii; assumption.
    - intros t' Ht'. eapply IH, Ht'. }
  destruct (Byte.eqb c x5c).
  - destruct tl as [|e tl2]; [discriminate|].
    destruct (json.unescape e) as [b|] eqn:Hu.
    + apply A. eapply unescape_ascii, Hu.
    + destruct (Byte.eqb e x75); [|discriminate].
      destruct (json.getu4 _); [|discriminate].
      destruct (utf16.IsSurrogate _); [destruct (negb _)|]; apply E.
  - destruct (Byte.eqb c x22).
    + intros [= <- _]. apply wellFormed_nil.
    + destruct (_ <? 32); [discriminate|].
      destruct (N.ltb_spec (Byte.to_N c) utf8.RuneSelf) as [Hc|Hc].
      * apply A. exact Hc.
      * destruct (utf8.DecodeRune _) as [rr size]. apply E.
Qed.

Lemma unquote_wellFormed (s t rest : list byte) :
  json.unquote s = Some (t, rest) -> utf8.Valid t = true.
Proof. intros H. eapply wellFormed_Valid, unquote_loop_wellFormed, H. Qed.

Lemma scanLiteral_not_Str (s rest t : list byte) :
  json.scanLiteral s <> Some (json.Str t, rest).
Proof.
  unfold json.scanLiteral.
  repeat match goal with |- context [json.stripPrefix ?l s] =>
           destruct (json.stripPrefix l s) end; discriminate.
Qed.

Lemma parse_validMembers (fuel : nat) :
  (forall depth s t rest,
      json.parseValue fuel depth s = Some (json.Str t, rest) -> utf8.Valid t = true)
  /\ (forall depth s ms rest,
      json.parseMembers fuel depth s = Some (ms, rest) -> Forall validMember ms).
Proof.
  induction fuel as [|fuel (IHv & IHm)]; [split; discriminate|].
  split; intros depth s.
  - intros t rest. cbn [json.parseValue].
    destruct (json.skipSpace s) as [|c tl]; [discriminate|].
    destruct (Byte.eqb c x7b).
    { destruct (_ <=? depth); [discriminate|].
      destruct (json.skipSpace tl) as [|c' tl']; [discriminate|].
      destruct (Byte.eqb c' x7d); [discriminate|].
      destruct (json.parseMembers fuel _ tl) as [[ms r]|]; discriminate. }
    destruct (Byte.eqb c x5b).
    { destruct (_ <=? depth); [discriminate|].
      destruct (json.skipSpace tl) as [|c' tl']; [discriminate|].
      destruct (Byte.eqb c' x5d); [discriminate|].
      destruct (json.parseElements fuel _ tl) as [[es r]|]; discriminate. }
    destruct (Byte.eqb c x22).
    { destruct (json.unquote tl) as [[t' r]|] eqn:Hu; [|discriminate].
      intros [= <- _]. eapply unquote_wellFormed, Hu. }
    destruct (Byte.eqb c x2d || json.isDigit c).
    { destruct (json.scanNumber (c :: tl)) as [[lit r]|]; discriminate. }
    intros H. exfalso. eapply scanLiteral_not_Str, H.
  - intros ms rest. cbn [json.parseMembers].
    destruct (json.skipSpace s) as [|q tl]; [discriminate|].
    destruct (Byte.eqb q x22); [|discriminate].
    destruct (json.unquote tl) as [[key r1]|]; [|discriminate].
    destruct (json.skipSpace r1) as [|colon r2]; [discriminate|].
    destruct (Byte.eqb colon x3a); [|discriminate].
    destruct (json.parseValue fuel depth r2) as [[v r3]|] eqn:Hv; [|discriminate].
    assert (Hm : validMember (key, v)).
    { intros t Ht. cbn [snd] in Ht. subst v. eapply IHv, Hv. }
    destruct (json.skipSpace r3) as [|sep r4]; [discriminate|].
    destruct (Byte.eqb sep x2c).
    + destruct (json.parseMembers fuel depth r4) as [[ms' r5]|] eqn:Hms; [|discriminate].
      intros [= <- _]. constructor; [exact Hm|eapply IHm, Hms].
    + destruct (Byte.eqb sep x7d); [|discriminate].
      intros [= <- _]. constructor; [exact Hm|constructor].
Qed.

Lemma parseValue_Object_valid (fuel : nat) (depth : N) (s rest : list byte)
    (ms : list (list byte * json.value)) :
  json.parseValue fuel depth s = Some (json.Object ms, rest) -> Forall validMember ms.
Proof.
  destruct fuel as [|fuel]; [discriminate|]. cbn [json.parseValue].
  destruct (json.skipSpace s) as [|c tl]; [discriminate|].
  destruct (Byte.eqb c x7b).
  { destruct (_ <=? depth); [discriminate|].
    destruct (json.skipSpace tl) as [|c' tl']; [discriminate|].
    destruct (Byte.eqb c' x7d); [intros [= <- _]; constructor|].
    destruct (json.parseMembers fuel _ tl) as [[ms' r]|] eqn:Hm; [|discriminate].
    intros [= <- _]. eapply (proj2 (parse_validMembers fuel)), Hm. }
  destruct (Byte.eqb c x5b).
  { destruct (_ <=? depth); [discriminate|].
    destruct (json.skipSpace tl) as [|c' tl']; [discriminate|].
    destruct (Byte.eqb c' x5d); [discriminate|].
    destruct (json.parseElements fuel _ tl) as [[es r]|]; discriminate. }
  destruct (Byte.eqb c x22).
  { destruct (json.unquote tl) as [[t' r]|]; discriminate. }
  destruct (Byte.eqb c x2d || json.isDigit c).
  { destruct (json.scanNumber (c :: tl)) as [[lit r]|]; discriminate. }
  unfold json.scanLiteral.
  repeat match goal with |- context [json.stripPrefix ?l ?s] =>
           destruct (json.stripPrefix l s) end; discriminate.
Qed.

Lemma storeMember_valid (st : DataValue * option error) (m : list byte * json.value) :
  validMember m -> validValue (fst st) -> validValue (fst (storeMember st m)).
Proof.
  destruct st as [dv saved], m as [key v]. intros Hm [HC HT].
  assert (Hs : forall old saved', validText old ->
                 validText (fst (json.storeString v old saved'))).
  { intros old saved' Ho. destruct v; cbn [json.storeString fst]; try exact Ho.
    unfold validText. rewrite list_byte_of_string_of_list_byte. apply Hm. reflexivity. }
  cbn [storeMember fst].
  destruct (json.equalFold key "content").
  { pose proof (Hs (Content dv) saved HC) as H.
    destruct (json.storeString v (Content dv) saved). split; [exact H|exact HT]. }
  destruct (json.equalFold key "content_type").
  { pose proof (Hs (ContentType dv) saved HT) as H.
    destruct (json.storeString v (ContentType dv) saved). split; [exact HC|exact H]. }
  destruct (json.equalFold key "data").
  { destruct (json.storeBytes v (Data dv) saved). split; [exact HC|exact HT]. }
  split; [exact HC|exact HT].
Qed.

Lemma storeMembers_valid (ms : list (list byte * json.value)) :
  Forall validMember ms ->
  forall st, validValue (fst st) -> validValue (fst (fold_left storeMember ms st)).
Proof.
  induction 1 as [|m ms Hm _ IH]; intros st Hst; [exact Hst|].
  cbn [fold_left]. apply IH, storeMember_valid; assumption.
Qed.

Lemma unmarshalValue_valid (v : json.value) (dv : DataValue) :
  (forall ms, v = json.Object ms -> Forall validMember ms) ->
  validValue dv -> validValue (fst (unmarshalValue v dv)).
Proof.
  intros Hv Hd. destruct v; cbn [unmarshalValue fst]; try exact Hd.
  apply (storeMembers_valid members (Hv _ eq_refl) (dv, None)). exact Hd.
Qed.

Lemma validValue_zero : validValue zeroDataValue.
Proof. split; reflexivity. Qed.

Lemma Unmarshal_valid (data : list byte) :
  validValue (fst (Unmarshal data zeroDataValue)).
Proof.
  unfold Unmarshal, json.scanDocument.
  destruct (json.parseValue _ 0 data) as [[v rest]|] eqn:Hp; [|apply validValue_zero].
  destruct (json.skipSpace rest); [|apply validValue_zero].
  apply unmarshalValue_valid; [|apply validValue_zero].
  intros ms ->. eapply parseValue_Object_valid, Hp.
Qed.

Lemma Decode_valid (body : io.Reader) :
  validValue (fst (Decode body zeroDataValue)).
Proof.
  unfold Decode, json.readValue.
  destruct (json.skipSpace (io.delivered body));
    [destruct (io.readError body); apply validValue_zero|].
  destruct (json.parseValue _ 0 (io.delivered body)) as [[v rest]|] eqn:Hp;
    [|apply validValue_zero].
  assert (Hv : validValue (fst (unmarshalValue v zeroDataValue))).
  { apply unmarshalValue_valid; [|apply validValue_zero].
    intros ms ->. eapply parseValue_Object_valid, Hp. }
  destruct v; try exact Hv;
    destruct rest as [|c rest]; try exact Hv;
    destruct (io.readError body); first [exact Hv | apply validValue_zero].
Qed.

(** *** The store as a map from paths to values *)

Lemma history_step (p : string) (o : operation) (db : badger.DB) (cur : option DataValue) :
  keys_admitted db ->
  db !! bytes p = option_map (fun v => fst (Marshal v)) cur ->
  keys_admitted (perform db o)
  /\ perform db o !! bytes p = option_map (fun v => fst (Marshal v)) (record p cur o).
Proof.
  intros Hk Hc.
  split; [apply (perform_invariant p o db true Hk); discriminate|].
  destruct o as [q v|q|q]; cbn [perform record].
  - rewrite storeValue_spec. unfold accepted.
    destruct (rejects (bytes q) (Some (Marshal v).1)) eqn:R; cbn [fst].
    + rewrite bool_decide_eq_false_2 by discriminate.
      destruct (decide (q = p)); assumption.
    + rewrite bool_decide_eq_true_2 by reflexivity.
      destruct (decide (q = p)) as [->|Hne]; [apply lookup_insert_eq|].
      rewrite lookup_insert_ne; [assumption|].
      intros E. apply bytes_inj in E. contradiction.
  - rewrite deleteValue_spec.
    destruct (rejects (bytes q) None) eqn:R; cbn [fst].
    + destruct (decide (q = p)) as [->|Hne]; [|assumption].
      destruct (db !! bytes p) eqn:E; [|reflexivity].
      rewrite Hk in R by eauto. discriminate.
    + destruct (decide (q = p)) as [->|Hne]; [apply lookup_delete_eq|].
      rewrite lookup_delete_ne; [assumption|].
      intros E. apply bytes_inj in E. contradiction.
  - rewrite getValue_spec. assumption.
Qed.

Lemma history_fold (p : string) (h : list operation) :
  forall (db : badger.DB) (cur : option DataValue),
    keys_admitted db ->
    db !! bytes p = option_map (fun v => fst (Marshal v)) cur ->
    fold_left perform h db !! bytes p
    = option_map (fun v => fst (Marshal v)) (fold_left (record p) h cur).
Proof.
  induction h as [|o h IH]; intros db cur Hk Hc; cbn [fold_left]; [assumption|].
  destruct (history_step p o db cur Hk Hc) as [Hk' Hc']. apply IH; assumption.
Qed.

Lemma keys_admitted_empty : keys_admitted ∅.
Proof. intros k [x Hx]. rewrite lookup_empty in Hx. discriminate. Qed.

(** The store is a map from paths to values: after any history of puts,
    deletes and gets on the empty store, the get of a path returns the
    value of the last put of the path that the engine accepted, as it is
    read back, unless a delete of the path came after it; then, and when
    there was no such put, it returns [ErrKeyNotFound]. *)
Theorem store_is_a_map (p : string) (h : list operation) :
  snd (getValue p (after h))
  = if decide (p = ""%string) then (None, Some ErrEmptyKey)
    else match lastPut p h with
         | Some v => (Some (readBack v), None)
         | None => (None, Some ErrKeyNotFound)
         end.
Proof.
  rewrite getValue_spec. cbn [snd].
  destruct (decide (p = ""%string)) as [->|Hp]; [reflexivity|].
  rewrite bool_decide_eq_false_2 by assumption.
  unfold after, lastPut.
  rewrite (history_fold p h ∅ None keys_admitted_empty (lookup_empty _)).
  destruct (fold_left (record p) h None) as [v|]; cbn [option_map].
  - apply fetched_Marshal.
  - reflexivity.
Qed.

(** A write that fails changes nothing, and it fails for the key or for
    the size of the entry only: [storeValue] and [deleteValue] return
    [ErrEmptyKey] for the empty key, [ErrInvalidKey] for a key with the
    reserved prefix, [ErrExceedsSize] for a key of more than 65000 bytes
    and, for a put, for an encoding of more than 2^30 - 1 bytes; every
    other write succeeds, whatever the store holds. *)
Theorem failed_write_changes_nothing (p : string) (v : DataValue) (db : badger.DB) :
  (snd (storeValue p v db) <> None -> fst (storeValue p v db) = db)
  /\ (snd (deleteValue p db) <> None -> fst (deleteValue p db) = db)
  /\ snd (storeValue p v db)
     = (if decide (p = ""%string) then Some ErrEmptyKey
        else if badger.HasPrefix (bytes p) (bytes "!badger!") then Some ErrInvalidKey
        else if 65000 <? badger.len (bytes p) then Some ErrExceedsSize
        else if 2 ^ 30 - 1 <? badger.len (fst (Marshal v)) then Some ErrExceedsSize
        else None)
  /\ snd (deleteValue p db)
     = (if decide (p = ""%string) then Some ErrEmptyKey
        else if badger.HasPrefix (bytes p) (bytes "!badger!") then Some ErrInvalidKey
        else if 65000 <? badger.len (bytes p) then Some ErrExceedsSize
        else None).
Proof.
  rewrite storeValue_spec, deleteValue_spec.
  assert (K : forall val,
             rejects (bytes p) val
             = if decide (p = ""%string) then Some ErrEmptyKey
               else if badger.HasPrefix (bytes p) (bytes "!badger!") then Some ErrInvalidKey
               else if 65000 <? badger.len (bytes p) then Some ErrExceedsSize
               else if 2 ^ 30 - 1 <? badger.len (default [] val) then Some ErrExceedsSize
               else None).
  { intros val. unfold rejects. rewrite len_bytes_0.
    destruct (decide (p = ""%string)) as [->|Hp];
      [rewrite bool_decide_eq_true_2 by reflexivity; reflexivity|].
    rewrite bool_decide_eq_false_2 by assumption. reflexivity. }
  split; [|split; [|split]].
  - destruct (rejects (bytes p) (Some (Marshal v).1)); cbn [fst snd]; intros H;
      [reflexivity|congruence].
  - destruct (rejects (bytes p) None); cbn [fst snd]; intros H;
      [reflexivity|congruence].
  - pose proof (K (Some (fst (Marshal v)))) as K1. cbn [default from_option id] in K1.
    rewrite <- K1. destruct (rejects (bytes p) (Some (Marshal v).1)); reflexivity.
  - pose proof (K None) as K2.
    change (2 ^ 30 - 1 <? badger.len (default [] None)) with false in K2.
    rewrite <- K2. destruct (rejects (bytes p) None); reflexivity.
Qed.

(** *** Writes at different paths, and the seeding *)

Lemma bytes_ne (p q : string) : p <> q -> bytes p <> bytes q.
Proof. intros H E. apply bytes_inj in E. contradiction. Qed.

Lemma store_store_comm (p q : string) (v u : DataValue) (db : badger.DB) :
  p <> q ->
  fst (storeValue p v (fst (storeValue q u db)))
  = fst (storeValue q u (fst (storeValue p v db))).
Proof.
  intros H. apply bytes_ne in H. rewrite !storeValue_spec.
  destruct (rejects (bytes p) (Some (Marshal v).1)),
           (rejects (bytes q) (Some (Marshal u).1)); cbn [fst]; try reflexivity.
  apply insert_insert_ne. assumption.
Qed.

(** Writes at different paths commute: two puts, a put and a delete, two
    deletes leave the same store in either order, whether or not they
    succeed. *)
Theorem writes_commute (p q : string) (v u : DataValue) (db : badger.DB) :
  p <> q ->
  fst (storeValue p v (fst (storeValue q u db)))
  = fst (storeValue q u (fst (storeValue p v db)))
  /\ fst (storeValue p v (fst (deleteValue q db)))
     = fst (deleteValue q (fst (storeValue p v db)))
  /\ fst (deleteValue p (fst (deleteValue q db)))
     = fst (deleteValue q (fst (deleteValue p db))).
Proof.
  intros H. split; [apply store_store_comm; assumption|].
  apply bytes_ne in H. rewrite !storeValue_spec, !deleteValue_spec.
  destruct (rejects (bytes p) (Some (Marshal v).1)), (rejects (bytes p) None),
           (rejects (bytes q) None); cbn [fst]; split; try reflexivity;
    first [apply insert_delete_ne; assumption | apply delete_delete].
Qed.

Lemma writes_commute_witness :
  fst (storeValue "docs/readme" sample (fst (storeValue "images/logo" logo ∅)))
  = fst (storeValue "images/logo" logo (fst (storeValue "docs/readme" sample ∅))).
Proof.
  destruct (writes_commute "docs/readme" "images/logo" sample logo ∅) as [H _];
    [discriminate|].
  exact H.
Defined.

Lemma storeAll_other (l : list (string * DataValue)) :
  forall (db : badger.DB) (q : string),
    ~ In q (map fst l) -> storeAll l db !! bytes q = db !! bytes q.
Proof.
  induction l as [|[k v] l IH]; intros db q Hq; [reflexivity|].
  cbn [storeAll fold_left fst snd] in *. fold (storeAll l).
  rewrite IH by (intros H; apply Hq; right; exact H).
  rewrite storeValue_spec.
  destruct (rejects (bytes k) (Some (Marshal v).1)); cbn [fst]; [reflexivity|].
  apply lookup_insert_ne, bytes_ne. intros ->. apply Hq. left. reflexivity.
Qed.

Lemma storeAll_stored (l : list (string * DataValue)) :
  forall (db : badger.DB) (k : string) (v : DataValue),
    List.NoDup (map fst l) -> In (k, v) l -> accepted k v = true ->
    storeAll l db !! bytes k = Some (fst (Marshal v)).
Proof.
  induction l as [|[k' v'] l IH]; intros db k v Hn Hi Ha; [destruct Hi|].
  cbn [map fst] in Hn. apply NoDup_cons_iff in Hn.
  destruct Hn as [Hn1 Hn2].
  cbn [storeAll fold_left fst snd]. fold (storeAll l).
  destruct Hi as [[= -> ->]|Hi].
  - rewrite storeAll_other by assumption.
    rewrite storeValue_spec. unfold accepted in Ha. apply bool_decide_eq_true_1 in Ha.
    rewrite Ha. apply lookup_insert_eq.
  - apply IH; assumption.
Qed.

Lemma storeAll_Permutation (l l' : list (string * DataValue)) :
  Permutation l l' -> List.NoDup (map fst l) ->
  forall db, storeAll l db = storeAll l' db.
Proof.
  induction 1 as [|x l l' HP IH|x y l|l l' l'' HP1 IH1 HP2 IH2]; intros Hn db.
  - reflexivity.
  - cbn [storeAll fold_left]. apply IH. cbn [map] in Hn.
    apply NoDup_cons_iff in Hn. tauto.
  - cbn [storeAll fold_left]. f_equal. apply store_store_comm.
    cbn [map] in Hn. apply NoDup_cons_iff in Hn. destruct Hn as [Hn _].
    intros E. apply Hn. rewrite E. left. reflexivity.
  - rewrite IH1 by assumption. apply IH2.
    eapply Permutation_NoDup; [|exact Hn]. apply Permutation_map. exact HP1.
Qed.

Lemma samples_NoDup : List.NoDup (map fst samples).
Proof.
  unfold samples. cbn [map fst].
  repeat (constructor; [cbn [In]; intuition discriminate|]).
  constructor.
Qed.

(** Seeding: whatever the store holds and in whatever order Go ranges
    over the map of samples, after [initializeSampleData] the get of each
    of the three sample paths returns its sample, and every other path is
    as it was. *)
Theorem seeding (db : badger.DB) :
  (forall k v, In (k, v) samples ->
     snd (getValue k (initializeSampleData db)) = (Some v, None))
  /\ (forall q, ~ In q (map fst samples) ->
        snd (getValue q (initializeSampleData db)) = snd (getValue q db))
  /\ (forall l, Permutation l samples -> storeAll l db = initializeSampleData db).
Proof.
  change (initializeSampleData db) with (storeAll samples db).
  split; [|split].
  - intros k v Hi.
    assert (Hv : accepted k v = true /\ readBack v = v /\ k <> ""%string).
    { cbn in Hi. repeat destruct Hi as [Hi|Hi]; try (exfalso; exact Hi);
        injection Hi as <- <-; (split; [vm_compute; reflexivity|split; [|discriminate]]);
        apply readBack_valid; vm_compute; reflexivity. }
    destruct Hv as (Ha & Hr & Hk).
    rewrite getValue_spec. cbn [snd]. rewrite bool_decide_eq_false_2 by assumption.
    rewrite (storeAll_stored samples db k v samples_NoDup Hi Ha).
    rewrite fetched_Marshal, Hr. reflexivity.
  - intros q Hq. rewrite !getValue_spec. cbn [snd].
    rewrite storeAll_other by assumption. reflexivity.
  - intros l HP. apply storeAll_Permutation; [exact HP|].
    eapply Permutation_NoDup; [|exact samples_NoDup].
    apply Permutation_map, Permutation_sym, HP.
Qed.

(** *** What the handlers answer *)

Lemma handleGet_outcome (r : http.Request) (path : string) (db : badger.DB) :
  snd (handleGet http.NewRecorder r path db) = db
  /\ exists c, http.Code (fst (handleGet http.NewRecorder r path db)) = Some c
               /\ In c [200; 404; 500].
Proof.
  unfold handleGet. rewrite getValue_eta.
  pose proof (getValue_nil_error path db) as Hn.
  destruct (snd (getValue path db)) as [[value|] [err|]]; try congruence.
  - destruct (decide (err = ErrKeyNotFound)); (split; [reflexivity|]);
      eexists; (split; [reflexivity|]); cbn; tauto.
  - destruct (0 <? slice_len (Data value))%nat; (split; [reflexivity|]);
      eexists; (split; [reflexivity|]); cbn; tauto.
  - destruct (decide (err = ErrKeyNotFound)); (split; [reflexivity|]);
      eexists; (split; [reflexivity|]); cbn; tauto.
Qed.

(** Every request is answered with one of five status codes, and an answer
    other than 200 leaves the store as it was. *)
Theorem every_request_is_answered (r : http.Request) (db : badger.DB) :
  exists c : N,
    http.Code (fst (handlePath http.NewRecorder r db)) = Some c
    /\ In c [200; 400; 404; 405; 500]
    /\ (c <> 200 -> snd (handlePath http.NewRecorder r db) = db).
Proof.
  unfold handlePath.
  destruct (decide (default ""%string (http.Vars r !! "path"%string) = ""%string));
    [eexists; split; [reflexivity|split; [cbn; tauto|reflexivity]]|].
  set (path := default ""%string (http.Vars r !! "path"%string)).
  destruct (decide (http.Method r = "GET"%string)).
  { destruct (handleGet_outcome r path db) as (Hs & c & Hc & Hi).
    exists c. split; [exact Hc|split; [cbn in *; tauto|intros _; exact Hs]]. }
  destruct (decide (http.Method r = "POST"%string)).
  { unfold handlePost.
    destruct (Decode (http.Body r) zeroDataValue) as [dv [err|]];
      [eexists; split; [reflexivity|split; [cbn; tauto|reflexivity]]|].
    destruct (decide (ContentType dv = ""%string));
      [eexists; split; [reflexivity|split; [cbn; tauto|reflexivity]]|].
    rewrite storeValue_spec.
    destruct (rejects (bytes path) (Some (Marshal dv).1));
      eexists; (split; [reflexivity|split; [cbn; tauto|]]);
      [reflexivity|intros H; contradiction H; reflexivity]. }
  destruct (decide (http.Method r = "PUT"%string)).
  { rewrite handlePut_store.
    destruct (io.readError (http.Body r));
      [eexists; split; [reflexivity|split; [cbn; tauto|reflexivity]]|].
    rewrite storeValue_spec.
    match goal with |- context [rejects ?k ?v] => destruct (rejects k v) end;
      eexists; (split; [reflexivity|split; [cbn; tauto|]]);
      [reflexivity|intros H; contradiction H; reflexivity]. }
  destruct (decide (http.Method r = "DELETE"%string)).
  { unfold handleDelete. rewrite getValue_eta.
    destruct (snd (getValue path db)) as [value [err|]].
    - destruct (decide (err = ErrKeyNotFound));
        eexists; (split; [reflexivity|split; [cbn; tauto|reflexivity]]).
    - rewrite deleteValue_spec.
      destruct (rejects (bytes path) None);
        eexists; (split; [reflexivity|split; [cbn; tauto|]]);
        [reflexivity|intros H; contradiction H; reflexivity]. }
  eexists; split; [reflexivity|split; [cbn; tauto|reflexivity]].
Qed.

(** *** The stores that the handlers build *)

Lemma toValidUTF8_nil (s : list byte) : toValidUTF8 s = [] -> s = [].
Proof.
  destruct s as [|c tl]; [reflexivity|]. unfold toValidUTF8. cbn [length toValidUTF8_loop].
  destruct (utf8.DecodeRune (c :: tl)) as [r size] eqn:E.
  destruct (valid_rune r size) eqn:V.
  - apply DecodeRune_inv in E; [|exact V|discriminate].
    apply decoded_sound in E. destruct E as (_ & Hs & _).
    destruct size; [lia|]. cbn [firstn app]. discriminate.
  - discriminate.
Qed.

Lemma string_of_bytes_nil (l : list byte) : string_of_list_byte l = ""%string -> l = [].
Proof. destruct l; [reflexivity|discriminate]. Qed.

Lemma readBack_ContentType (v : DataValue) :
  ContentType v <> ""%string -> ContentType (readBack v) <> ""%string.
Proof.
  intros H E. apply H. unfold readBack in E. cbn [ContentType] in E.
  apply string_of_bytes_nil, toValidUTF8_nil in E. apply bytes_nil. exact E.
Qed.

Lemma decodable_store (p : string) (v : DataValue) (db : badger.DB) :
  ContentType v <> ""%string -> decodable db -> decodable (fst (storeValue p v db)).
Proof.
  intros Hc Hd. rewrite storeValue_spec.
  destruct (rejects (bytes p) (Some (Marshal v).1)); cbn [fst]; [exact Hd|].
  intros k data. destruct (decide (bytes p = k)) as [<-|Hne].
  - rewrite lookup_insert_eq. intros [= <-]. exists (readBack v).
    split; [apply Unmarshal_Marshal|apply readBack_ContentType, Hc].
  - rewrite lookup_insert_ne by assumption. apply Hd.
Qed.

Lemma decodable_delete (p : string) (db : badger.DB) :
  decodable db -> decodable (fst (deleteValue p db)).
Proof.
  intros Hd. rewrite deleteValue_spec.
  destruct (rejects (bytes p) None); cbn [fst]; [exact Hd|].
  intros k data. destruct (decide (bytes p = k)) as [<-|Hne].
  - rewrite lookup_delete_eq. discriminate.
  - rewrite lookup_delete_ne by assumption. apply Hd.
Qed.

Lemma decodable_handlePath (w : http.ResponseWriter) (r : http.Request) (db : badger.DB) :
  decodable db -> decodable (snd (handlePath w r db)).
Proof.
  intros Hd. unfold handlePath.
  destruct (decide _); [exact Hd|].
  set (path := default ""%string (http.Vars r !! "path"%string)).
  destruct (decide _).
  { unfold handleGet. rewrite getValue_eta.
    destruct (snd (getValue path db)) as [[value|] [err|]];
      repeat match goal with |- context [if ?c then _ else _] => destruct c end;
      exact Hd. }
  destruct (decide _).
  { unfold handlePost.
    destruct (Decode (http.Body r) zeroDataValue) as [dv [err|]]; [exact Hd|].
    destruct (decide (ContentType dv = ""%string)) as [|Hc]; [exact Hd|].
    pose proof (decodable_store path dv db Hc Hd) as H.
    destruct (storeValue path dv db) as [db' [failure|]]; exact H. }
  destruct (decide _).
  { rewrite handlePut_store.
    destruct (io.readError (http.Body r)); [exact Hd|].
    assert (Hc : ContentType (putValue r) <> ""%string).
    { unfold putValue. cbn [ContentType]. destruct (decide _); [discriminate|assumption]. }
    pose proof (decodable_store path (putValue r) db Hc Hd) as H.
    destruct (storeValue path (putValue r) db) as [db' [failure|]]; exact H. }
  destruct (decide _); [|exact Hd].
  unfold handleDelete. rewrite getValue_eta.
  destruct (snd (getValue path db)) as [value [err|]].
  - destruct (decide _); exact Hd.
  - pose proof (decodable_delete path db Hd) as H.
    destruct (deleteValue path db) as [db' [failure|]]; exact H.
Qed.

Lemma decodable_seed (db : badger.DB) : decodable db -> decodable (initializeSampleData db).
Proof.
  unfold initializeSampleData, samples. cbn [fold_left fst snd]. intros Hd.
  repeat apply decodable_store; try discriminate. exact Hd.
Qed.

Lemma decodable_serveAll (rs : list http.Request) :
  forall db, decodable db -> decodable (serveAll rs db).
Proof.
  induction rs as [|r rs IH]; intros db Hd; [exact Hd|].
  cbn [serveAll fold_left]. apply IH, decodable_handlePath, Hd.
Qed.

(** A store whose entries are encodings of values with a content type
    stays so under the seeding and under every sequence of requests; on
    such a store a GET of a path answers 200 with a Content-Type header
    that is not empty, or 404, and never 500. *)
Theorem served_store_stays_decodable (rs : list http.Request) (db : badger.DB)
    (r : http.Request) (path : string) :
  decodable db ->
  let db' := serveAll rs (initializeSampleData db) in
  let w := fst (handleGet http.NewRecorder r path db') in
  decodable db'
  /\ (path <> ""%string ->
      (http.Code w = Some http.StatusOK
       /\ http.Get (http.RespHeader w) "Content-Type" <> ""%string)
      \/ (http.Code w = Some http.StatusNotFound /\ db' !! bytes path = None)).
Proof.
  intros Hd db' w.
  assert (Hd' : decodable db') by (apply decodable_serveAll, decodable_seed, Hd).
  split; [exact Hd'|]. intros Hp. subst w. unfold handleGet.
  rewrite getValue_spec. rewrite bool_decide_eq_false_2 by assumption.
  unfold fetched. destruct (db' !! bytes path) as [data|] eqn:E.
  - left. destruct (Hd' _ _ E) as (v & -> & Hc).
    assert (Hh : forall w0 : http.ResponseWriter,
               http.Get (http.RespHeader (http.SetHeader "Content-Type" (ContentType v) w0))
                        "Content-Type" = ContentType v).
    { intros w0. unfold http.Get, http.SetHeader, http.Set_. cbn [http.RespHeader].
      rewrite lookup_insert_eq. reflexivity. }
    destruct (0 <? slice_len (Data v))%nat; cbn [fst];
      (split; [reflexivity|]); unfold http.Write; cbn [http.RespHeader http.WriteHeader];
      rewrite Hh; exact Hc.
  - right. rewrite decide_True by reflexivity. split; reflexivity.
Qed.

Lemma served_store_stays_decodable_witness :
  let db' := serveAll [request "PUT" "images/logo" ∅ [x89; x50; x4e; x47]]
               (initializeSampleData ∅) in
  let w := fst (handleGet http.NewRecorder (request "GET" "images/logo" ∅ [])
                  "images/logo" db') in
  (http.Code w = Some http.StatusOK
   /\ http.Get (http.RespHeader w) "Content-Type" <> ""%string)
  \/ (http.Code w = Some http.StatusNotFound /\ db' !! bytes "images/logo" = None).
Proof.
  destruct (served_store_stays_decodable
              [request "PUT" "images/logo" ∅ [x89; x50; x4e; x47]] ∅
              (request "GET" "images/logo" ∅ []) "images/logo") as [_ H].
  - intros k data E. rewrite lookup_empty in E. discriminate.
  - apply H. discriminate.
Defined.

(** *** A write, then a read, through the handlers *)

Lemma handleGet_served (r : http.Request) (path : string) (db : badger.DB) (v : DataValue) :
  snd (getValue path db) = (Some v, None) ->
  let w := fst (handleGet http.NewRecorder r path db) in
  http.Code w = Some http.StatusOK
  /\ http.Get (http.RespHeader w) "Content-Type" = ContentType v
  /\ http.Written w = match Data v with
                      | Some (b :: l) => b :: l
                      | _ => bytes (Content v)
                      end.
Proof.
  intros Hg w. subst w. unfold handleGet. rewrite getValue_eta, Hg.
  destruct v as [C CT [[|b l]|]];
    cbn [Data ContentType Content slice_len length Nat.ltb Nat.leb default fst];
    repeat split; unfold http.Get, http.Write, http.SetHeader, http.WriteHeader, http.Set_;
    cbn [http.RespHeader http.Written http.Code http.NewRecorder app];
    rewrite ?lookup_insert_eq; reflexivity.
Qed.

Lemma bytes_string (l : list byte) : bytes (string_of_list_byte l) = l.
Proof. apply list_byte_of_string_of_list_byte. Qed.

Lemma handlePath_routes (w : http.ResponseWriter) (r : http.Request) (p : string)
    (db : badger.DB) :
  http.Vars r !! "path"%string = Some p -> p <> ""%string ->
  handlePath w r db
  = if decide (http.Method r = "GET"%string) then handleGet w r p db
    else if decide (http.Method r = "POST"%string) then handlePost w r p db
    else if decide (http.Method r = "PUT"%string) then handlePut w r p db
    else if decide (http.Method r = "DELETE"%string) then handleDelete w r p db
    else (http.Error "Method not allowed" http.StatusMethodNotAllowed w, db).
Proof.
  intros Hv Hp. unfold handlePath. rewrite Hv. cbn [default from_option id].
  rewrite decide_False by assumption. reflexivity.
Qed.

Lemma handlePath_empty (w : http.ResponseWriter) (r : http.Request) (db : badger.DB) :
  http.Vars r !! "path"%string = Some ""%string ->
  handlePath w r db = (http.Error "Path is required" http.StatusBadRequest w, db).
Proof.
  intros Hv. unfold handlePath. rewrite Hv. cbn [default from_option id].
  rewrite decide_True by reflexivity. reflexivity.
Qed.

Lemma request_path (m p : string) (h : http.Header) (b : list byte) :
  http.Vars (request m p h b) !! "path"%string = Some p.
Proof. unfold request. cbn [http.Vars]. apply lookup_singleton_eq. Qed.

(** A PUT that is answered 200, then a GET of the path: the GET answers
    200 with the body of the PUT, byte for byte, also when it is empty;
    its Content-Type is the header of the PUT with every byte that is not
    valid UTF-8 replaced by U+FFFD, and application/octet-stream when the
    PUT had none. *)
Theorem put_then_get (p : string) (header : http.Header) (body : list byte)
    (get : http.Request) (db : badger.DB) :
  let put := request "PUT" p header body in
  http.Code (fst (handlePath http.NewRecorder put db)) = Some http.StatusOK ->
  http.Method get = "GET"%string -> http.Vars get !! "path"%string = Some p ->
  let w := fst (handlePath http.NewRecorder get (snd (handlePath http.NewRecorder put db))) in
  http.Code w = Some http.StatusOK
  /\ http.Written w = body
  /\ http.Get (http.RespHeader w) "Content-Type"
     = string_of_list_byte (toValidUTF8 (bytes (ContentType (putValue put))))
  /\ (http.Get header "Content-Type" = ""%string ->
      http.Get (http.RespHeader w) "Content-Type" = "application/octet-stream"%string)
  /\ (http.Get header "Content-Type" <> ""%string ->
      validText (http.Get header "Content-Type") ->
      http.Get (http.RespHeader w) "Content-Type" = http.Get header "Content-Type").
Proof.
  intros put Hput Hm Hv w. subst w.
  assert (Hp : p <> ""%string).
  { intros ->. revert Hput. rewrite handlePath_empty by apply request_path. discriminate. }
  revert Hput. rewrite !(handlePath_routes _ put p) by (assumption || apply request_path).
  change (http.Method put) with "PUT"%string.
  rewrite (decide_False (P := "PUT"%string = "GET"%string)) by discriminate.
  rewrite (decide_False (P := "PUT"%string = "POST"%string)) by discriminate.
  rewrite (decide_True (P := "PUT"%string = "PUT"%string)) by reflexivity.
  rewrite handlePut_store.
  change (io.readError (http.Body put)) with (@None error). cbv iota.
  destruct (storeValue p (putValue put) db) as [db' [failure|]] eqn:Hs; [discriminate|].
  intros _. cbn [snd].
  assert (Hs' : snd (storeValue p (putValue put) db) = None) by (rewrite Hs; reflexivity).
  pose proof (get_put p (putValue put) db Hs') as Hg. rewrite Hs in Hg. cbn [fst] in Hg.
  rewrite (handlePath_routes _ get p) by assumption.
  rewrite decide_True by assumption.
  destruct (handleGet_served get p db' _ Hg) as (Hc & Hh & Hw).
  split; [exact Hc|]. split.
  { rewrite Hw. unfold readBack, putValue.
    cbn [Data Content nonEmpty http.Body put request io.delivered io.NewReader].
    destruct body; reflexivity. }
  assert (Hh' : http.Get (http.RespHeader (fst (handleGet http.NewRecorder get p db')))
                  "Content-Type"
                = string_of_list_byte (toValidUTF8 (bytes (ContentType (putValue put)))))
    by (rewrite Hh; reflexivity).
  split; [exact Hh'|]. rewrite Hh'. unfold putValue. cbn [ContentType http.ReqHeader put request].
  split; intros H.
  - rewrite decide_True by assumption. reflexivity.
  - intros Hvalid. rewrite decide_False by assumption.
    rewrite toValidUTF8_valid by exact Hvalid. apply string_bytes.
Qed.

Lemma Marshal_app (C CT : string) (D : option (list byte)) (tail : list byte) :
  fst (Marshal {| Content := C; ContentType := CT; Data := D |}) ++ tail
  = x7b :: json.appendString (bytes "content") ++ x3a
        :: json.appendString (bytes C) ++ x2c
        :: json.appendString (bytes "content_type") ++ x3a
        :: json.appendString (bytes CT) ++ dataMember D tail.
Proof.
  rewrite Marshal_bytes. unfold dataMember.
  destruct D as [[|b l]|];
    repeat first [rewrite <- app_assoc | rewrite <- app_comm_cons]; reflexivity.
Qed.

Lemma readValue_Marshal (C CT : string) (D : option (list byte)) (tail : list byte)
    (e : option error) :
  json.readValue
    {| io.delivered := fst (Marshal {| Content := C; ContentType := CT; Data := D |}) ++ tail;
       io.ended := e |}
  = inl (json.Object
      ((bytes "content", json.Str (toValidUTF8 (bytes C)))
       :: (bytes "content_type", json.Str (toValidUTF8 (bytes CT)))
       :: match D with
          | Some (b :: l) => [(bytes "data", json.Str (base64.Encode (b :: l)))]
          | _ => []
          end)).
Proof.
  unfold json.readValue. cbn [io.delivered]. rewrite Marshal_app.
  set (T := json.appendString (bytes "content") ++ _).
  rewrite skipSpace_head by reflexivity.
  assert (Hlen : exists f, json.fuelFor (x7b :: T) = S (S (S (S (S (S f)))))).
  { unfold json.fuelFor. subst T. cbn [length]. rewrite length_app.
    change (length (json.appendString (bytes "content"))) with 9%nat.
    match goal with
    | |- context [(9 + ?n)%nat] => exists (2 * n + 16)%nat
    end. lia. }
  destruct Hlen as [f ->].
  rewrite parseValue_object; cycle 1.
  { subst T. rewrite appendString_app. do 2 eexists. split; [reflexivity|]. split; reflexivity. }
  subst T.
  rewrite (parseMembers_more _ _ _ _ _ _ _ key_content (quoted_appendString _)).
  destruct D as [[|b l]|]; unfold dataMember.
  - rewrite (parseMembers_last _ _ _ _ _ _ _ key_content_type (quoted_appendString _)).
    reflexivity.
  - rewrite (parseMembers_more _ _ _ _ _ _ _ key_content_type (quoted_appendString _)).
    rewrite (parseMembers_last _ _ _ _ _ _ _ key_data (quoted_encodeByteSlice _)).
    reflexivity.
  - rewrite (parseMembers_last _ _ _ _ _ _ _ key_content_type (quoted_appendString _)).
    reflexivity.
Qed.

Lemma Decode_Marshal (v : DataValue) (tail : list byte) (e : option error) :
  Decode {| io.delivered := fst (Marshal v) ++ tail; io.ended := e |} zeroDataValue
  = (readBack v, None).
Proof.
  destruct v as [C CT D]. unfold Decode. rewrite readValue_Marshal.
  unfold unmarshalValue, readBack. cbn [Content ContentType Data].
  destruct D as [[|b l]|]; cbn [fold_left];
    repeat first
      [ progress cbn [storeMember json.storeString json.storeBytes
                      Content ContentType Data zeroDataValue]
      | rewrite fold_content | rewrite fold_content_type_1
      | rewrite fold_content_type | rewrite fold_data_1 | rewrite fold_data_2
      | rewrite fold_data | rewrite Decode_Encode ];
    reflexivity.
Qed.

Lemma handlePost_store (w : http.ResponseWriter) (r : http.Request) (path : string)
    (db : badger.DB) (dv : DataValue) :
  Decode (http.Body r) zeroDataValue = (dv, None) ->
  ContentType dv <> ""%string ->
  handlePost w r path db
  = match storeValue path dv db with
    | (db', Some _) =>
        (http.Error "Failed to store data" http.StatusInternalServerError w, db')
    | (db', None) =>
        (Encode [ ("status", "success");
                  ("message", "Data stored at path: " ++ path) ]%string
           (http.SetHeader "Content-Type" "application/json" w), db')
    end.
Proof.
  intros Hd Hc. unfold handlePost. rewrite Hd. rewrite decide_False by assumption.
  reflexivity.
Qed.


(** The decoder of [handlePost] reads what [json.Marshal] writes for a
    [DataValue], and nothing after it: a POST whose body is the encoding
    of [v], followed by any bytes, stores what [storeValue] stores for the
    value as it is read back, and for [v] itself when its text is valid
    UTF-8 and its [Data] is not the empty slice. *)
Theorem post_of_marshalled_value (w : http.ResponseWriter) (p : string)
    (header : http.Header) (v : DataValue) (tail : list byte) (db : badger.DB) :
  ContentType v <> ""%string ->
  let r := request "POST" p header (fst (Marshal v) ++ tail) in
  Decode (http.Body r) zeroDataValue = (readBack v, None)
  /\ snd (handlePost w r p db) = fst (storeValue p (readBack v) db)
  /\ (validText (Content v) -> validText (ContentType v) -> Data v <> Some [] ->
      snd (handlePost w r p db) = fst (storeValue p v db)).
Proof.
  intros Hc r.
  assert (Hd : Decode (http.Body r) zeroDataValue = (readBack v, None))
    by apply (Decode_Marshal v tail None).
  assert (Hs : snd (handlePost w r p db) = fst (storeValue p (readBack v) db)).
  { rewrite (handlePost_store w r p db _ Hd (readBack_ContentType v Hc)).
    destruct (storeValue p (readBack v) db) as [db' [failure|]]; reflexivity. }
  split; [exact Hd|split; [exact Hs|]].
  intros HC HT HD. rewrite Hs, readBack_valid by assumption.
  rewrite nonEmpty_id by assumption. destruct v; reflexivity.
Qed.

Lemma post_of_marshalled_value_witness :
  snd (handlePost http.NewRecorder
         (request "POST" "images/logo" ∅ (fst (Marshal logo) ++ bytes "trailing bytes"))
         "images/logo" ∅)
  = fst (storeValue "images/logo" logo ∅).
Proof.
  destruct (post_of_marshalled_value http.NewRecorder "images/logo" ∅ logo
              (bytes "trailing bytes") ∅) as (_ & _ & H); [discriminate|].
  apply H; [vm_compute; reflexivity | vm_compute; reflexivity | discriminate].
Defined.

(** A POST that is answered 200, then a GET of the path: the body of the
    POST decoded without error to a value with a content type, and the GET
    answers 200 with the [Data] of that value when it is not empty and
    with its [Content] otherwise, under its [ContentType]. *)
Theorem post_then_get (p : string) (header : http.Header) (body : list byte)
    (get : http.Request) (db : badger.DB) :
  let post := request "POST" p header body in
  let dv := fst (Decode (http.Body post) zeroDataValue) in
  http.Code (fst (handlePath http.NewRecorder post db)) = Some http.StatusOK ->
  http.Method get = "GET"%string -> http.Vars get !! "path"%string = Some p ->
  let w := fst (handlePath http.NewRecorder get (snd (handlePath http.NewRecorder post db))) in
  snd (Decode (http.Body post) zeroDataValue) = None
  /\ ContentType dv <> ""%string
  /\ http.Code w = Some http.StatusOK
  /\ http.Get (http.RespHeader w) "Content-Type" = ContentType dv
  /\ http.Written w
     = match Data dv with
       | Some (b :: l) => b :: l
       | _ => bytes (Content dv)
       end.
Proof.
  intros post dv Hpost Hm Hv w. subst w dv.
  assert (Hp : p <> ""%string).
  { intros ->. revert Hpost. rewrite handlePath_empty by apply request_path. discriminate. }
  revert Hpost. rewrite !(handlePath_routes _ post p) by (assumption || apply request_path).
  change (http.Method post) with "POST"%string.
  rewrite (decide_False (P := "POST"%string = "GET"%string)) by discriminate.
  rewrite (decide_True (P := "POST"%string = "POST"%string)) by reflexivity.
  unfold handlePost.
  destruct (Decode_valid (http.Body post)) as [HC HT].
  destruct (Decode (http.Body post) zeroDataValue) as [dv [err|]] eqn:Hd; [discriminate|].
  cbn [fst] in HC, HT.
  destruct (decide (ContentType dv = ""%string)) as [|Hc]; [discriminate|].
  destruct (storeValue p dv db) as [db' [failure|]] eqn:Hs; [discriminate|].
  intros _. cbn [fst snd].
  assert (Hs' : snd (storeValue p dv db) = None) by (rewrite Hs; reflexivity).
  pose proof (get_put p dv db Hs') as Hg. rewrite Hs in Hg. cbn [fst] in Hg.
  rewrite (readBack_valid dv HC HT) in Hg.
  rewrite (handlePath_routes _ get p) by assumption.
  rewrite decide_True by assumption.
  destruct (handleGet_served get p db' _ Hg) as (Hcode & Hh & Hw).
  cbn [Content ContentType Data] in Hh, Hw.
  split; [reflexivity|]. split; [exact Hc|]. split; [exact Hcode|].
  split; [exact Hh|].
  rewrite Hw. destruct (Data dv) as [[|b l]|]; reflexivity.
Qed.

Lemma post_then_get_witness :
  let post :=
    request "POST" "images/logo" ∅
      (x7b :: x22 :: bytes "content" ++ x22 :: x3a :: x22 :: bytes "logo"
       ++ x22 :: x2c :: x22 :: bytes "content_type" ++ x22 :: x3a
       :: x22 :: bytes "image/png" ++ x22 :: x2c :: x22 :: bytes "data" ++ x22 :: x3a
       :: x22 :: bytes "iVBORw==" ++ [x22; x7d]) in
  http.Code (fst (handlePath http.NewRecorder (request "GET" "images/logo" ∅ [])
                    (snd (handlePath http.NewRecorder post ∅))))
  = Some http.StatusOK.
Proof.
  intros post.
  destruct (post_then_get "images/logo" ∅ (io.delivered (http.Body post))
              (request "GET" "images/logo" ∅ []) ∅) as (_ & _ & H & _);
    [vm_compute; reflexivity | reflexivity | apply request_path |].
  exact H.
Defined.

Lemma put_then_get_witness :
  let put := request "PUT" "blob" {[ "Content-Type"%string := [string_of_list_byte [xff]] ]}
               [x01] in
  http.Written (fst (handlePath http.NewRecorder (request "GET" "blob" ∅ [])
                       (snd (handlePath http.NewRecorder put ∅))))
  = [x01].
Proof.
  intros put.
  destruct (put_then_get "blob" {[ "Content-Type"%string := [string_of_list_byte [xff]] ]}
              [x01] (request "GET" "blob" ∅ []) ∅) as (_ & H & _);
    [vm_compute; reflexivity | reflexivity | apply request_path |].
  exact H.
Defined.

Lemma getValue_valid (p : string) (db : badger.DB) (v : DataValue) :
  snd (getValue p db) = (Some v, None) ->
  validText (Content v) /\ validText (ContentType v).
Proof.
  rewrite getValue_spec. cbn [snd].
  destruct (bool_decide (p = ""%string)); [discriminate|].
  unfold fetched. destruct (db !! bytes p) as [data|]; [|discriminate].
  pose proof (Unmarshal_valid data) as H.
  destruct (Unmarshal data zeroDataValue) as [dv [err|]]; [discriminate|].
  intros [= <-]. exact H.
Qed.

(** Text that comes out of the decoder is valid UTF-8: the [Content] and
    the [ContentType] of the value [handlePost] decodes from any body,
    also one that ends in an error, and of every value [getValue] returns
    from any store. *)
Theorem decoded_text_is_valid :
  (forall body, validText (Content (fst (Decode body zeroDataValue)))
                /\ validText (ContentType (fst (Decode body zeroDataValue))))
  /\ (forall p db v, snd (getValue p db) = (Some v, None) ->
        validText (Content v) /\ validText (ContentType v)).
Proof. split; [exact Decode_valid|exact getValue_valid]. Qed.

Lemma readBack_idem (v : DataValue) : readBack (readBack v) = readBack v.
Proof.
  rewrite (readBack_valid (readBack v)).
  - unfold readBack. cbn [Content ContentType Data].
    destruct (Data v) as [[|b l]|]; reflexivity.
  - unfold readBack, validText. cbn [Content].
    rewrite list_byte_of_string_of_list_byte. apply toValidUTF8_wellFormed.
  - unfold readBack, validText. cbn [ContentType].
    rewrite list_byte_of_string_of_list_byte. apply toValidUTF8_wellFormed.
Qed.

(** What a get returns is stable: the value read back after a put is
    returned as it is when it is put again, at any path; and a value that
    a get returns from any store, put at any path, is returned as it is,
    unless its [Data] is the empty slice. *)
Theorem read_back_is_stable (p q : string) (v : DataValue) (db : badger.DB) :
  readBack (readBack v) = readBack v
  /\ (snd (storeValue q (readBack v) db) = None ->
      snd (getValue q (fst (storeValue q (readBack v) db))) = (Some (readBack v), None))
  /\ (snd (getValue p db) = (Some v, None) -> Data v <> Some [] ->
      snd (storeValue q v db) = None ->
      snd (getValue q (fst (storeValue q v db))) = (Some v, None)).
Proof.
  split; [apply readBack_idem|split].
  - intros Hs. rewrite (get_put _ _ _ Hs), readBack_idem. reflexivity.
  - intros Hg Hd Hs. rewrite (get_put _ _ _ Hs).
    destruct (getValue_valid p db v Hg) as [HC HT].
    rewrite readBack_valid, nonEmpty_id by assumption. destruct v; reflexivity.
Qed.

(** *** Paths and bodies that are refused *)

Lemma rejects_unadmitted (key : list byte) (val : option (list byte)) :
  admits key = false -> exists e, rejects key val = Some e.
Proof.
  intros Ha. destruct (rejects key val) as [e|] eqn:R; [eauto|].
  assert (R' : rejects key None = None).
  { destruct val as [v|]; [eapply rejects_put_key, R|exact R]. }
  apply rejects_delete in R'. congruence.
Qed.

(** A path that the engine does not admit (with the reserved prefix, or
    of more than 65000 bytes) cannot be written: a PUT whose body can be
    read answers 500, a PUT whose body cannot be read answers 400, a POST
    answers 400 or 500, and none of them changes the store; on a store
    that holds admitted keys only, a GET and a DELETE of the path answer
    404. *)
Theorem unwritable_paths (p : string) (db : badger.DB) :
  p <> ""%string -> admits (bytes p) = false ->
  (forall w r,
      (io.readError (http.Body r) = None ->
       handlePut w r p db
       = (http.Error "Failed to store data" http.StatusInternalServerError w, db))
      /\ (io.readError (http.Body r) <> None ->
          handlePut w r p db
          = (http.Error "Failed to read body" http.StatusBadRequest w, db)))
  /\ (forall r,
        snd (handlePost http.NewRecorder r p db) = db
        /\ (http.Code (fst (handlePost http.NewRecorder r p db))
            = Some http.StatusBadRequest
            \/ http.Code (fst (handlePost http.NewRecorder r p db))
               = Some http.StatusInternalServerError))
  /\ (keys_admitted db ->
      forall w r,
        handleGet w r p db
        = (http.Error ("Path '" ++ p ++ "' not found") http.StatusNotFound w, db)
        /\ handleDelete w r p db
           = (http.Error ("Path '" ++ p ++ "' not found") http.StatusNotFound w, db)).
Proof.
  intros Hp Ha. split; [|split].
  - intros w r. rewrite handlePut_store, storeValue_spec.
    destruct (rejects_unadmitted (bytes p) (Some (fst (Marshal (putValue r)))) Ha)
      as [e ->].
    destruct (io.readError (http.Body r)); split; intros H;
      first [reflexivity | discriminate H | contradiction H; reflexivity].
  - intros r. unfold handlePost.
    destruct (Decode (http.Body r) zeroDataValue) as [dv [err|]];
      [split; [reflexivity|left; reflexivity]|].
    destruct (decide _); [split; [reflexivity|left; reflexivity]|].
    rewrite storeValue_spec.
    destruct (rejects_unadmitted (bytes p) (Some (fst (Marshal dv))) Ha) as [e ->].
    split; [reflexivity|right; reflexivity].
  - intros Hk w r.
    assert (Hn : db !! bytes p = None).
    { destruct (db !! bytes p) as [x|] eqn:E; [|reflexivity].
      assert (R : rejects (bytes p) None = None) by (apply Hk; eauto).
      apply rejects_delete in R. congruence. }
    unfold handleGet, handleDelete.
    rewrite getValue_eta, (get_absent p db Hp Hn).
    rewrite decide_True by reflexivity. split; reflexivity.
Qed.

Lemma unwritable_paths_witness :
  let cut :=
    {| http.Method := "PUT"; http.Vars := {[ "path"%string := "!badger!head"%string ]};
       http.ReqHeader := ∅;
       http.Body := {| io.delivered := [x01]; io.ended := Some ErrUnexpectedEOF |} |} in
  handlePut http.NewRecorder (request "PUT" "!badger!head" ∅ [x01]) "!badger!head" ∅
  = (http.Error "Failed to store data" http.StatusInternalServerError http.NewRecorder, ∅)
  /\ handlePut http.NewRecorder cut "!badger!head" ∅
     = (http.Error "Failed to read body" http.StatusBadRequest http.NewRecorder, ∅).
Proof.
  intros cut.
  destruct (unwritable_paths "!badger!head" ∅) as [H _];
    [discriminate | vm_compute; reflexivity |].
  split; [apply H; reflexivity|apply H; discriminate].
Defined.

Lemma skipSpace_blank (s : list byte) :
  Forall (fun c => json.isSpace c = true) s -> json.skipSpace s = [].
Proof.
  induction 1 as [|c s Hc _ IH]; [reflexivity|].
  cbn [json.skipSpace]. rewrite Hc. exact IH.
Qed.

Lemma readValue_null (r : io.Reader) (tail : list byte) :
  io.delivered r = bytes "null" ++ tail ->
  tail <> [] \/ io.readError r = None ->
  json.readValue r = inl json.Null.
Proof.
  intros Hd Ht. unfold json.readValue. rewrite Hd.
  change (json.skipSpace (bytes "null" ++ tail))
    with (x6e :: x75 :: x6c :: x6c :: tail).
  change (json.parseValue (json.fuelFor (bytes "null" ++ tail)) 0 (bytes "null" ++ tail))
    with (Some (json.Null, tail)).
  destruct tail as [|c tail]; [|reflexivity].
  destruct Ht as [Ht|Ht]; [contradiction|]. rewrite Ht. reflexivity.
Qed.

(** Bodies without a value: a POST whose body is empty or white space only
    is answered 400 Invalid JSON, and a POST whose body is the JSON null or
    the empty object 400 content_type is required; so is a POST whose body
    begins with null and goes on with any bytes, which the decoder does
    not read.  The store is unchanged. *)
Theorem post_without_value (w : http.ResponseWriter) (r : http.Request) (p : string)
    (db : badger.DB) :
  (Forall (fun c => json.isSpace c = true) (io.delivered (http.Body r)) ->
   handlePost w r p db = (http.Error "Invalid JSON" http.StatusBadRequest w, db))
  /\ (http.Body r = io.NewReader (bytes "null")
      \/ http.Body r = io.NewReader (bytes "{}") ->
      handlePost w r p db
      = (http.Error "content_type is required" http.StatusBadRequest w, db))
  /\ (forall tail,
        io.delivered (http.Body r) = bytes "null" ++ tail ->
        tail <> [] \/ io.readError (http.Body r) = None ->
        handlePost w r p db
        = (http.Error "content_type is required" http.StatusBadRequest w, db)).
Proof.
  split; [|split].
  - intros H. unfold handlePost, Decode, json.readValue.
    rewrite skipSpace_blank by assumption.
    destruct (io.readError (http.Body r)); reflexivity.
  - intros [H|H]; unfold handlePost; rewrite H; reflexivity.
  - intros tail Hd Ht. unfold handlePost, Decode.
    rewrite (readValue_null _ tail Hd Ht). reflexivity.
Qed.


(** *** The answers to writes that succeed *)

Ltac sort_members :=
  unfold encodeMap, json.structEncode;
  repeat (cbn [fold_right insertSorted fst snd];
          match goal with
          | |- context [String.leb ?a ?b] =>
              let v := eval vm_compute in (String.leb a b) in
              change (String.leb a b) with v; cbv iota
          end);
  cbn [insertSorted map json.encodeFields json.omitEmpty json.isEmptyValue json.fname
       json.encoded andb fst snd];
  change (Byte.eqb x2c x7b) with false; cbv iota;
  repeat first [rewrite <- app_assoc | progress cbn [app]].

Lemma encodeMap_message (m : string) :
  encodeMap [("status", "success"); ("message", m)]%string
  = x7b :: json.appendString (bytes "message") ++ x3a :: json.appendString (bytes m)
        ++ x2c :: json.appendString (bytes "status") ++ x3a
        :: json.appendString (bytes "success") ++ [x7d; x0a].
Proof. sort_members. reflexivity. Qed.

Lemma encodeMap_message_size (m sz : string) :
  encodeMap [("status", "success"); ("message", m); ("size", sz)]%string
  = x7b :: json.appendString (bytes "message") ++ x3a :: json.appendString (bytes m)
        ++ x2c :: json.appendString (bytes "size") ++ x3a :: json.appendString (bytes sz)
        ++ x2c :: json.appendString (bytes "status") ++ x3a
        :: json.appendString (bytes "success") ++ [x7d; x0a].
Proof. sort_members. reflexivity. Qed.

Lemma scan_object (T : list byte) (ms : list (list byte * json.value)) :
  (exists c tl', T = c :: tl' /\ json.isSpace c = false /\ Byte.eqb c x7d = false) ->
  (forall fuel, json.parseMembers (S (S (S (S fuel)))) 1 T = Some (ms, [x0a])) ->
  json.scanDocument (x7b :: T) = Some (json.Object ms).
Proof.
  intros Hc Hm. unfold json.scanDocument.
  assert (Hlen : exists f, json.fuelFor (x7b :: T) = S (S (S (S (S f))))).
  { unfold json.fuelFor. cbn [length]. destruct Hc as (c & tl' & -> & _).
    cbn [length]. exists (2 * length tl' + 1)%nat. lia. }
  destruct Hlen as [f ->]. rewrite parseValue_object by exact Hc.
  rewrite Hm. reflexivity.
Qed.

Lemma key_message : quoted (json.appendString (bytes "message")) (bytes "message").
Proof. exact (quoted_appendString (bytes "message")). Qed.
Lemma key_size : quoted (json.appendString (bytes "size")) (bytes "size").
Proof. exact (quoted_appendString (bytes "size")). Qed.
Lemma key_status : quoted (json.appendString (bytes "status")) (bytes "status").
Proof. exact (quoted_appendString (bytes "status")). Qed.
Lemma val_success : quoted (json.appendString (bytes "success")) (bytes "success").
Proof. exact (quoted_appendString (bytes "success")). Qed.

Lemma scan_message (m : string) :
  json.scanDocument (encodeMap [("status", "success"); ("message", m)]%string)
  = Some (json.Object [ (bytes "message", json.Str (toValidUTF8 (bytes m)));
                        (bytes "status", json.Str (bytes "success")) ]).
Proof.
  rewrite encodeMap_message. apply scan_object.
  { rewrite appendString_app. do 2 eexists. split; [reflexivity|]. split; reflexivity. }
  intros fuel.
  rewrite (parseMembers_more _ _ _ _ _ _ _ key_message (quoted_appendString _)).
  change [x7d; x0a] with (x7d :: [x0a]).
  rewrite (parseMembers_last _ _ _ _ _ _ _ key_status val_success).
  reflexivity.
Qed.

Lemma scan_message_size (m sz : string) :
  json.scanDocument (encodeMap [("status", "success"); ("message", m); ("size", sz)]%string)
  = Some (json.Object [ (bytes "message", json.Str (toValidUTF8 (bytes m)));
                        (bytes "size", json.Str (toValidUTF8 (bytes sz)));
                        (bytes "status", json.Str (bytes "success")) ]).
Proof.
  rewrite encodeMap_message_size. apply scan_object.
  { rewrite appendString_app. do 2 eexists. split; [reflexivity|]. split; reflexivity. }
  intros fuel.
  rewrite (parseMembers_more _ _ _ _ _ _ _ key_message (quoted_appendString _)).
  rewrite (parseMembers_more _ _ _ _ _ _ _ key_size (quoted_appendString _)).
  rewrite (parseMembers_last _ _ _ _ _ _ _ key_status val_success).
  reflexivity.
Qed.

Lemma toValidUTF8_ascii_cons (c : byte) (s : list byte) :
  asciiByte c -> toValidUTF8 (c :: s) = c :: toValidUTF8 s.
Proof.
  intros Hc. unfold toValidUTF8. cbn [length toValidUTF8_loop].
  rewrite DecodeRune_1 by exact Hc.
  assert (Hv : valid_rune (Byte.to_N c) 1 = true).
  { unfold valid_rune. destruct (N.eqb_spec (Byte.to_N c) utf8.RuneError) as [E|E];
      [|reflexivity]. unfold asciiByte, utf8.RuneError in *. lia. }
  rewrite Hv. reflexivity.
Qed.

Lemma toValidUTF8_ascii_prefix (a b : list byte) :
  Forall asciiByte a -> toValidUTF8 (a ++ b) = a ++ toValidUTF8 b.
Proof.
  induction 1 as [|c a Hc _ IH]; [reflexivity|].
  cbn [app]. rewrite toValidUTF8_ascii_cons by exact Hc. rewrite IH. reflexivity.
Qed.

Lemma bytes_app (s t : string) : bytes (s ++ t)%string = bytes s ++ bytes t.
Proof.
  induction s as [|a s IH]; [reflexivity|].
  change (bytes (String a s ++ t)%string) with (byte_of_ascii a :: bytes (s ++ t)%string).
  rewrite IH. reflexivity.
Qed.

Lemma digits_ascii (d : Decimal.uint) :
  Forall asciiByte (bytes (NilEmpty.string_of_uint d)).
Proof.
  induction d; cbn [NilEmpty.string_of_uint];
    [exact (List.Forall_nil _)|..];
    match goal with
    | |- Forall _ (bytes (String ?a ?s)) =>
        change (bytes (String a s)) with (byte_of_ascii a :: bytes s);
        constructor; [unfold asciiByte; cbn; lia|assumption]
    end.
Qed.

Lemma itoa_ascii (n : nat) : Forall asciiByte (bytes (itoa n)).
Proof.
  unfold itoa, NilZero.string_of_uint.
  destruct (Nat.to_uint n) as [|d|d|d|d|d|d|d|d|d|d];
    [exact (digits_ascii (Decimal.D0 Decimal.Nil))|apply digits_ascii..].
Qed.

Lemma size_text (n : nat) :
  toValidUTF8 (bytes (itoa n ++ " bytes")%string) = bytes (itoa n ++ " bytes")%string.
Proof.
  rewrite <- (app_nil_r (bytes _)) at 1.
  rewrite toValidUTF8_ascii_prefix; [apply app_nil_r|].
  rewrite bytes_app. apply Forall_app. split; [apply itoa_ascii|].
  repeat constructor; unfold asciiByte; cbn; lia.
Qed.

Lemma message_text (prefix p : string) :
  Forall asciiByte (bytes prefix) ->
  toValidUTF8 (bytes (prefix ++ p)%string) = bytes prefix ++ toValidUTF8 (bytes p).
Proof. intros H. rewrite bytes_app. apply toValidUTF8_ascii_prefix, H. Qed.

(** The answer to a write that succeeds is a JSON document: the
    Content-Type is application/json, and the body is one object, followed
    by a line feed, with the members message, then size for a PUT, then
    status, in this order; the message names the path (with bytes that are
    not valid UTF-8 replaced by U+FFFD) and the size is the length of the
    body of the PUT in decimal. *)
Theorem success_answers_are_json (r : http.Request) (p : string) (db : badger.DB) :
  let answer (w : http.ResponseWriter) (members : list (list byte * json.value)) :=
    http.Get (http.RespHeader w) "Content-Type" = "application/json"%string
    /\ json.scanDocument (http.Written w) = Some (json.Object members) in
  let message (verb : string) :=
    (bytes "message", json.Str (bytes verb ++ toValidUTF8 (bytes p))) in
  let status := (bytes "status", json.Str (bytes "success")) in
  (http.Code (fst (handlePost http.NewRecorder r p db)) = Some http.StatusOK ->
   answer (fst (handlePost http.NewRecorder r p db))
     [message "Data stored at path: "%string; status])
  /\ (http.Code (fst (handlePut http.NewRecorder r p db)) = Some http.StatusOK ->
      answer (fst (handlePut http.NewRecorder r p db))
        [message "Data stored at path: "%string;
         (bytes "size",
          json.Str
            (bytes (itoa (length (io.delivered (http.Body r))) ++ " bytes")%string));
         status])
  /\ (http.Code (fst (handleDelete http.NewRecorder r p db)) = Some http.StatusOK ->
      answer (fst (handleDelete http.NewRecorder r p db))
        [message "Data deleted at path: "%string; status]).
Proof.
  intros answer message status. subst answer message status. cbv beta.
  assert (Hh : forall body,
             http.Get (http.RespHeader
                         (Encode body (http.SetHeader "Content-Type" "application/json"
                                         http.NewRecorder))) "Content-Type"
             = "application/json"%string) by reflexivity.
  assert (Hw : forall body,
             http.Written (Encode body (http.SetHeader "Content-Type" "application/json"
                                          http.NewRecorder)) = encodeMap body)
    by reflexivity.
  split; [|split].
  - unfold handlePost.
    destruct (Decode (http.Body r) zeroDataValue) as [dv [err|]]; [discriminate|].
    destruct (decide _); [discriminate|].
    destruct (storeValue p dv db) as [db' [failure|]]; [discriminate|].
    intros _. cbn [fst]. rewrite Hw, scan_message, message_text.
    + split; reflexivity.
    + repeat constructor; unfold asciiByte; cbn; lia.
  - rewrite handlePut_store.
    destruct (io.readError (http.Body r)); [discriminate|].
    destruct (storeValue p (putValue r) db) as [db' [failure|]]; [discriminate|].
    intros _. cbn [fst]. rewrite Hw, scan_message_size, message_text, size_text.
    + split; reflexivity.
    + repeat constructor; unfold asciiByte; cbn; lia.
  - unfold handleDelete. rewrite getValue_eta.
    destruct (snd (getValue p db)) as [value [err|]];
      [destruct (decide _); discriminate|].
    destruct (deleteValue p db) as [db' [failure|]]; [discriminate|].
    intros _. cbn [fst]. rewrite Hw, scan_message, message_text.
    + split; reflexivity.
    + repeat constructor; unfold asciiByte; cbn; lia.
Qed.

(** *** Sizes within which writes succeed *)

Lemma DecodeRune_size (p : list byte) :
  p <> [] -> (1 <= snd (utf8.DecodeRune p))%nat.
Proof.
  intros Hp. unfold utf8.DecodeRune.
  destruct (N.ltb_spec (N.of_nat (length p)) 1) as [H|H].
  { destruct p; [contradiction|]. cbn [length] in H. lia. }
  repeat match goal with |- context [if ?c then _ else _] => destruct c end;
    cbn [snd]; lia.
Qed.

Lemma escape_length (b : byte) : (length (json.escape b) <= 6)%nat.
Proof.
  unfold json.escape.
  repeat match goal with |- context [if ?c then _ else _] => destruct c end;
    cbn; lia.
Qed.

Lemma appendString_loop_length (fuel : nat) :
  forall src, (length (json.appendString_loop fuel src) <= 6 * length src)%nat.
Proof.
  induction fuel as [|fuel IH]; intros [|b tl]; cbn [json.appendString_loop length];
    try lia.
  destruct (Byte.to_N b <? utf8.RuneSelf).
  - destruct (json.htmlSafeSet _).
    + cbn [length]. specialize (IH tl). lia.
    + rewrite length_app. pose proof (escape_length b). specialize (IH tl). lia.
  - pose proof (DecodeRune_size (firstn utf8.UTFMax (b :: tl))) as Hs.
    destruct (utf8.DecodeRune (firstn utf8.UTFMax (b :: tl))) as [c size].
    cbn [snd] in Hs. specialize (Hs ltac:(discriminate)).
    pose proof (IH (skipn size (b :: tl))) as Hi. rewrite length_skipn in Hi.
    cbn [length] in Hi.
    destruct ((c =? utf8.RuneError) && (size =? 1)%nat).
    { rewrite length_app. change (length (bytes _)) with 6%nat. lia. }
    destruct ((c =? 0x2028) || (c =? 0x2029)).
    { rewrite !length_app. change (length (bytes _)) with 5%nat. cbn [length]. lia. }
    rewrite length_app, length_firstn. cbn [length]. lia.
Qed.

Lemma appendString_length (src : list byte) :
  badger.len (json.appendString src) <= 6 * badger.len src + 2.
Proof.
  unfold json.appendString, badger.len. cbn [length]. rewrite length_app. cbn [length].
  pose proof (appendString_loop_length (length src) src). lia.
Qed.

Lemma Encode_length (d : list byte) : (3 * length (base64.Encode d) <= 4 * length d + 8)%nat.
Proof.
  induction d as [| a | a b | a b c rest IH] using list_ind3;
    cbn [base64.Encode length] in *; lia.
Qed.

Lemma Marshal_length (v : DataValue) :
  badger.len (fst (Marshal v))
  <= 6 * badger.len (bytes (Content v)) + 6 * badger.len (bytes (ContentType v))
     + 2 * badger.len (default [] (Data v)) + 64.
Proof.
  destruct v as [C CT D]. rewrite Marshal_bytes. cbn [Content ContentType Data].
  pose proof (appendString_length (bytes C)) as HC.
  pose proof (appendString_length (bytes CT)) as HT.
  unfold badger.len in *.
  repeat first [rewrite length_app | progress cbn [length]].
  change (length (json.appendString (bytes "content"))) with 9%nat.
  change (length (json.appendString (bytes "content_type"))) with 14%nat.
  assert (HD : (length (dataMember D [])
                <= 2 * length (default [] D) + 20)%nat).
  { unfold dataMember. destruct D as [[|b l]|]; cbn [default from_option id length]; try lia.
    rewrite length_app. cbn [length].
    change (length (json.appendString (bytes "data"))) with 6%nat.
    unfold json.encodeByteSlice.
    repeat first [rewrite length_app | progress cbn [length]].
    pose proof (Encode_length (b :: l)) as He. cbn [length] in He. lia. }
  cbn [length]. lia.
Qed.

Lemma admits_rejects (key : list byte) (val : list byte) :
  admits key = true -> badger.len val <= 2 ^ 30 - 1 -> rejects key (Some val) = None.
Proof.
  intros Ha Hv. apply rejects_delete in Ha. revert Ha. unfold rejects.
  cbn [default from_option id].
  change (badger.ValueLogFileSize <? badger.len []) with false.
  destruct (badger.len key =? 0); [discriminate|].
  destruct (badger.HasPrefix key badger.badgerPrefix); [discriminate|].
  destruct (badger.maxKeySize <? badger.len key); [discriminate|].
  intros _. change badger.ValueLogFileSize with (2 ^ 30 - 1).
  destruct (N.ltb_spec (2 ^ 30 - 1) (badger.len val)); [lia|reflexivity].
Qed.

(** Writes within the bounds succeed: for a path the engine admits (not
    empty, without the reserved prefix, of at most 65000 bytes),
    [storeValue] succeeds on every store when six times the text and twice
    the data of the value, and 64 bytes more, fit in 2^30 - 1 bytes; so a
    PUT to such a path whose body can be read is answered 200 when six
    times its Content-Type and twice its body, and 256 bytes more, fit in
    2^30 bytes. *)
Theorem writes_in_bounds_succeed (p : string) (db : badger.DB) :
  admits (bytes p) = true ->
  (forall v,
      6 * badger.len (bytes (Content v)) + 6 * badger.len (bytes (ContentType v))
      + 2 * badger.len (default [] (Data v)) + 64 <= 2 ^ 30 - 1 ->
      snd (storeValue p v db) = None)
  /\ (forall r,
        io.readError (http.Body r) = None ->
        6 * badger.len (bytes (http.Get (http.ReqHeader r) "Content-Type"))
        + 2 * badger.len (io.delivered (http.Body r)) + 256 <= 2 ^ 30 ->
        http.Code (fst (handlePut http.NewRecorder r p db)) = Some http.StatusOK).
Proof.
  intros Ha.
  assert (Hs : forall v,
             6 * badger.len (bytes (Content v)) + 6 * badger.len (bytes (ContentType v))
             + 2 * badger.len (default [] (Data v)) + 64 <= 2 ^ 30 - 1 ->
             snd (storeValue p v db) = None).
  { intros v Hb. rewrite storeValue_spec, admits_rejects; [reflexivity|exact Ha|].
    pose proof (Marshal_length v). lia. }
  split; [exact Hs|]. intros r Hr Hb.
  rewrite handlePut_store, Hr.
  assert (H : snd (storeValue p (putValue r) db) = None).
  { apply Hs. unfold putValue. cbn [Content ContentType Data default from_option id].
    change (badger.len (bytes "")) with 0.
    destruct (decide _).
    - change (badger.len (bytes "application/octet-stream")) with 24. lia.
    - lia. }
  destruct (storeValue p (putValue r) db) as [db' [failure|]]; [discriminate|].
  reflexivity.
Qed.

Lemma writes_in_bounds_succeed_witness :
  snd (storeValue "docs/readme" sample ∅) = None
  /\ http.Code (fst (handlePut http.NewRecorder
                       (request "PUT" "docs/readme"
                          {[ "Content-Type"%string := ["image/png"%string] ]}
                          [x89; x50; x4e; x47])
                       "docs/readme" ∅))
     = Some http.StatusOK.
Proof.
  destruct (writes_in_bounds_succeed "docs/readme" ∅) as [Hs Hp];
    [vm_compute; reflexivity|].
  split.
  - apply Hs. vm_compute. discriminate.
  - apply Hp; [reflexivity|]. vm_compute. discriminate.
Defined.

(** A request changes no path but its own: after [handlePath] every other
    path holds what it held. *)
Theorem request_touches_only_its_path (w : http.ResponseWriter) (r : http.Request)
    (db : badger.DB) (q : string) :
  http.Vars r !! "path"%string <> Some q ->
  snd (handlePath w r db) !! bytes q = db !! bytes q
  /\ snd (getValue q (snd (handlePath w r db))) = snd (getValue q db).
Proof.
  intros Hq.
  assert (H : snd (handlePath w r db) !! bytes q = db !! bytes q).
  { unfold handlePath.
    destruct (decide _); [reflexivity|].
    set (path := default ""%string (http.Vars r !! "path"%string)) in *.
    assert (Hne : bytes path <> bytes q).
    { intros E. apply bytes_inj in E. subst path. apply Hq.
      destruct (http.Vars r !! "path"%string) as [x|]; cbn in *; congruence. }
    assert (Hs : forall v, fst (storeValue path v db) !! bytes q = db !! bytes q).
    { intros v. rewrite storeValue_spec.
      destruct (rejects _ _); cbn [fst]; [reflexivity|].
      apply lookup_insert_ne, Hne. }
    destruct (decide _).
    { unfold handleGet. rewrite getValue_eta.
      destruct (snd (getValue path db)) as [[value|] [err|]];
        repeat match goal with |- context [if ?c then _ else _] => destruct c end;
        reflexivity. }
    destruct (decide _).
    { unfold handlePost.
      destruct (Decode (http.Body r) zeroDataValue) as [dv [err|]]; [reflexivity|].
      destruct (decide _); [reflexivity|].
      specialize (Hs dv). destruct (storeValue path dv db) as [db' [failure|]]; exact Hs. }
    destruct (decide _).
    { rewrite handlePut_store. destruct (io.readError (http.Body r)); [reflexivity|].
      specialize (Hs (putValue r)).
      destruct (storeValue path (putValue r) db) as [db' [failure|]]; exact Hs. }
    destruct (decide _); [|reflexivity].
    unfold handleDelete. rewrite getValue_eta.
    destruct (snd (getValue path db)) as [value [err|]].
    - destruct (decide _); reflexivity.
    - assert (Hd : fst (deleteValue path db) !! bytes q = db !! bytes q).
      { rewrite deleteValue_spec. destruct (rejects _ _); cbn [fst]; [reflexivity|].
        apply lookup_delete_ne, Hne. }
      destruct (deleteValue path db) as [db' [failure|]]; exact Hd. }
  split; [exact H|]. rewrite !getValue_spec. cbn [snd]. rewrite H. reflexivity.
Qed.

Lemma request_touches_only_its_path_witness :
  snd (getValue "docs/readme"
         (snd (handlePath http.NewRecorder (request "DELETE" "images/logo" ∅ [])
                 (initializeSampleData ∅))))
  = snd (getValue "docs/readme" (initializeSampleData ∅)).
Proof.
  destruct (request_touches_only_its_path http.NewRecorder
              (request "DELETE" "images/logo" ∅ []) (initializeSampleData ∅)
              "docs/readme") as [_ H].
  - rewrite request_path. discriminate.
  - exact H.
Defined.

(** *** The same request twice *)

Lemma storeValue_twice (p : string) (v : DataValue) (db : badger.DB) :
  storeValue p v (fst (storeValue p v db)) = storeValue p v db.
Proof.
  rewrite !storeValue_spec.
  destruct (rejects (bytes p) (Some (Marshal v).1)) eqn:R; cbn [fst]; [reflexivity|].
  rewrite insert_insert_eq. reflexivity.
Qed.

Lemma handleDelete_twice (w w' : http.ResponseWriter) (r : http.Request) (p : string)
    (db : badger.DB) :
  snd (handleDelete w r p (snd (handleDelete w' r p db))) = snd (handleDelete w' r p db).
Proof.
  unfold handleDelete at 2 3. rewrite getValue_eta.
  destruct (snd (getValue p db)) as [value [err|]] eqn:Hg.
  - assert (Hd : snd (handleDelete w r p db) = db).
    { unfold handleDelete. rewrite getValue_eta, Hg. destruct (decide _); reflexivity. }
    destruct (decide _); exact Hd.
  - rewrite deleteValue_spec.
    destruct (rejects (bytes p) None) eqn:R; cbn [snd].
    + unfold handleDelete. rewrite getValue_eta, Hg, deleteValue_spec, R. reflexivity.
    + assert (Hp : p <> ""%string) by (eapply rejects_None_key, R).
      unfold handleDelete. rewrite getValue_eta.
      rewrite (get_absent p _ Hp (lookup_delete_eq db (bytes p))).
      rewrite decide_True by reflexivity. reflexivity.
Qed.

(** Requests are idempotent: the store after a request is handled twice is
    the store after it is handled once; and unless the request is a
    DELETE, the second answer is the first. *)
Theorem requests_are_idempotent (w w' : http.ResponseWriter) (r : http.Request)
    (db : badger.DB) :
  snd (handlePath w r (snd (handlePath w' r db))) = snd (handlePath w' r db)
  /\ (http.Method r <> "DELETE"%string ->
      handlePath w r (snd (handlePath w' r db)) = handlePath w r db).
Proof.
  unfold handlePath.
  destruct (decide _); [split; reflexivity|].
  set (path := default ""%string (http.Vars r !! "path"%string)).
  assert (Hget : forall w0, snd (handleGet w0 r path db) = db).
  { intros w0. unfold handleGet. rewrite getValue_eta.
    destruct (snd (getValue path db)) as [[value|] [err|]];
      repeat match goal with |- context [if ?c then _ else _] => destruct c end;
      reflexivity. }
  destruct (decide _).
  { rewrite Hget. split; [apply Hget|reflexivity]. }
  destruct (decide _).
  { assert (H : forall w0 w1,
               handlePost w0 r path (snd (handlePost w1 r path db)) = handlePost w0 r path db).
    { intros w0 w1. unfold handlePost.
      destruct (Decode (http.Body r) zeroDataValue) as [dv [err|]]; [reflexivity|].
      destruct (decide _); [reflexivity|].
      pose proof (storeValue_twice path dv db) as Ht.
      destruct (storeValue path dv db) as [db' [failure|]] eqn:Hs; cbn [fst snd] in *;
        rewrite Ht; reflexivity. }
    split; [rewrite H|intros _; apply H].
    unfold handlePost.
    destruct (Decode (http.Body r) zeroDataValue) as [dv [err|]]; [reflexivity|].
    destruct (decide _); [reflexivity|].
    destruct (storeValue path dv db) as [db' [failure|]]; reflexivity. }
  destruct (decide _).
  { assert (H : forall w0 w1,
               handlePut w0 r path (snd (handlePut w1 r path db)) = handlePut w0 r path db).
    { intros w0 w1. rewrite !handlePut_store.
      destruct (io.readError (http.Body r)); [reflexivity|].
      pose proof (storeValue_twice path (putValue r) db) as Ht.
      destruct (storeValue path (putValue r) db) as [db' [failure|]] eqn:Hs;
        cbn [fst snd] in *; rewrite Ht; reflexivity. }
    split; [rewrite H|intros _; apply H].
    rewrite !handlePut_store.
    destruct (io.readError (http.Body r)); [reflexivity|].
    destruct (storeValue path (putValue r) db) as [db' [failure|]]; reflexivity. }
  destruct (decide _) as [Hm|Hm].
  { split; [apply handleDelete_twice|]. intros H. contradiction. }
  split; reflexivity.
Qed.
